(** * Trello-Desktop-MCP: the resilient request layer of [TrelloClient]

    A shallow embedding of [src/trello/client.ts]: URL construction with
    credential injection, rate-limit header extraction, the retry loop of
    [makeRequest] with its back-off and 429 handling, error normalisation,
    and the parameter builders of the public operations.

    Conventions of the embedding.
    - A JavaScript [number] is a double that holds an integer, an infinity
      or [NaN].  Whatever is computed from a text ([parseInt]) or by a
      product is rounded to the nearest double, as the platform does, so
      integers are exact below 2^53 only.  [-0] is identified with [0].
    - A string is a Rocq [string], a sequence of 8-bit code units.  Header
      values are byte strings in the Fetch standard, so they are modelled
      exactly; other texts are modelled by their UTF-8 bytes, which is what
      both [encodeURIComponent] and the URL serialiser work on.  A lone
      surrogate, which UTF-8 cannot hold, is written in the generalised form
      (the byte [ED], a byte in [A0]-[BF] and a continuation byte);
      [encodeURIComponent] throws on it and [URLSearchParams] stores U+FFFD
      in its place.
    - Logging and telemetry calls have no influence on control flow and are
      left out. *)

From Stdlib Require Import ZArith Ascii String List Lia Bool DecimalString.
From Stdlib Require DecimalPos.
From stdpp Require Import base option gmap strings.

Import ListNotations.
Local Open Scope Z_scope.

(** ** JavaScript values used by the client *)

Module Js.

(** [number]: a double holding an integer, [NaN], or an infinity with its
    sign. *)
Inductive number : Type :=
| Num (z : Z)
| NaN
| Infinity (negative : bool).

(** The double nearest to an integer, ties going to the even significand:
    the integer itself below 2^53 in magnitude, a multiple of a power of two
    with a 53-bit significand above, an infinity once that reaches 2^1024. *)
Definition of_Z (z : Z) : number :=
  let magnitude := Z.abs z in
  let shift := Z.log2 magnitude - 52 in
  if shift <=? 0 then Num z
  else
    let significand := Z.shiftr magnitude shift in
    let rest := magnitude - Z.shiftl significand shift in
    let half := Z.shiftl 1 (shift - 1) in
    let rounded :=
      if (half <? rest) || ((rest =? half) && Z.odd significand)
      then significand + 1 else significand in
    if 2 ^ 1024 <=? Z.shiftl rounded shift then Infinity (z <? 0)
    else Num (Z.sgn z * Z.shiftl rounded shift).

(** ToBoolean on numbers: [0] and [NaN] are falsy. *)
Definition truthy (n : number) : bool :=
  match n with
  | Num z => negb (z =? 0)
  | NaN => false
  | Infinity _ => true
  end.

(** [a || b] on numbers. *)
Definition or (a b : number) : number := if truthy a then a else b.

(** [a * b] on numbers: the exact product rounded to a double; an infinity
    times zero is [NaN]. *)
Definition mul (a b : number) : number :=
  match a, b with
  | Num x, Num y => of_Z (x * y)
  | Infinity s, Num y | Num y, Infinity s =>
      if y =? 0 then NaN else Infinity (xorb s (y <? 0))
  | Infinity s, Infinity t => Infinity (xorb s t)
  | _, _ => NaN
  end.

(** ToBoolean on strings: only the empty string is falsy. *)
Definition truthy_string (s : string) : bool :=
  match s with
  | EmptyString => false
  | String _ _ => true
  end.

(** [v || d] where [v] is [string | null] (or [string | undefined]). *)
Definition or_string (v : option string) (d : string) : string :=
  match v with
  | Some s => if truthy_string s then s else d
  | None => d
  end.

(** [Number.prototype.toString] / template interpolation of an integer
    (below 10^21 in magnitude, where all the digits are printed). *)
Definition Z_to_string (z : Z) : string := NilZero.string_of_int (Z.to_int z).

Definition number_to_string (n : number) : string :=
  match n with
  | Num z => Z_to_string z
  | NaN => "NaN"
  | Infinity negative => if negative then "-Infinity" else "Infinity"
  end.

(** [hay.includes(needle)]. *)
Fixpoint includes (needle hay : string) : bool :=
  String.prefix needle hay ||
  match hay with
  | EmptyString => false
  | String _ rest => includes needle rest
  end.

(** [parts.join(sep)]. *)
Fixpoint join (sep : string) (parts : list string) : string :=
  match parts with
  | [] => ""
  | [p] => p
  | p :: rest => p +:+ sep +:+ join sep rest
  end.

(** *** [parseInt(s, 10)]

    Leading white space is skipped, one optional sign is read, then the
    longest prefix of decimal digits; no digit at all gives [NaN], and the
    integer read is rounded to a double (Node takes all the digits into
    account). *)

(** StrWhiteSpaceChar among 8-bit code units: TAB, LF, VT, FF, CR, SP and
    NBSP. *)
Definition is_white_space (c : ascii) : bool :=
  let n := nat_of_ascii c in
  ((9 <=? n)%nat && (n <=? 13)%nat) || (n =? 32)%nat || (n =? 160)%nat.

Fixpoint trim_start (s : string) : string :=
  match s with
  | String c rest => if is_white_space c then trim_start rest else s
  | EmptyString => EmptyString
  end.

Definition digit_value (c : ascii) : option Z :=
  let n := nat_of_ascii c in
  if ((48 <=? n)%nat && (n <=? 57)%nat) then Some (Z.of_nat n - 48) else None.

(** Reads the longest digit prefix; [acc] is [None] until a digit is seen. *)
Fixpoint read_digits (s : string) (acc : option Z) : option Z :=
  match s with
  | String c rest =>
      match digit_value c with
      | Some d => read_digits rest (Some (10 * default 0 acc + d))
      | None => acc
      end
  | EmptyString => acc
  end.

Definition parseInt (input : string) : number :=
  let s := trim_start input in
  let '(sign, body) :=
    match s with
    | String "-" rest => (-1, rest)
    | String "+" rest => (1, rest)
    | _ => (1, s)
    end in
  match read_digits body None with
  | Some mathInt => of_Z (sign * mathInt)
  | None => NaN
  end.

End Js.

Export Js(number(..)).

(** ** The platform: [fetch], [Response], thrown values *)

(** An object that is [instanceof Error]: a [TypeError] or not, with its
    [name] and [message].  In Node, [fetch] rejects with a [TypeError] on a
    network failure and with a [DOMException] named [AbortError] when the
    request is aborted; [response.json()] rejects with a [SyntaxError]. *)
Record JsError : Type := mkJsError {
  isTypeError : bool;
  name : string;
  message : string
}.

(** A [Response]: status line, headers and what [await response.json()]
    settles to.  Header names are kept in lower case, as [Headers] does, and
    [headers !! n] is [response.headers.get(n)] ([None] for [null]). *)
Record Response (T : Type) : Type := mkResponse {
  status : Z;
  statusText : string;
  headers : gmap string string;
  json : JsError + T
}.

Arguments mkResponse {T}.
Arguments status {T}.
Arguments statusText {T}.
Arguments headers {T}.
Arguments json {T}.

(** [response.ok]: the status is in the range 200-299. *)
Definition ok {T} (response : Response T) : bool :=
  (200 <=? status response) && (status response <=? 299).

(** What a [catch (error)] clause of the client can bind ([error: unknown]),
    and the initial value of [lastError], as far as the client looks at it:
    - [CUndefined]: [undefined];
    - [CPrimitive repr]: any other value that is no [Error] and has no
      [status] property ([null], a string, a number, an object literal
      without [status]), with [repr] for [String(error)];
    - [CError e]: an [Error] without a [status] property;
    - [CResponse r]: a [Response];
    - [CStatusObject asError status statusText]: an object with an integer
      [status] property that is no [Response]: an [Error] carrying a status
      ([asError] is [Some]) or any other object, such as the literal
      [{ status: 429 }] ([None]); [statusText] is what the template literal
      makes of its [statusText] property (["undefined"] without one). *)
Inductive Caught (T : Type) : Type :=
| CUndefined
| CPrimitive (repr : string)
| CError (e : JsError)
| CResponse (r : Response T)
| CStatusObject (asError : option JsError) (status : Z) (statusText : string).

Arguments CUndefined {T}.
Arguments CPrimitive {T}.
Arguments CError {T}.
Arguments CResponse {T}.
Arguments CStatusObject {T}.

(** The outcome of one physical [fetch]. *)
Inductive FetchOutcome (T : Type) : Type :=
| Resolved (response : Response T)
| Rejected (error : Caught T).

Arguments Resolved {T}.
Arguments Rejected {T}.

(** ** Types of [types/trello.ts] *)

Record TrelloCredentials : Type := mkCredentials {
  apiKey : string;
  token : string
}.

Module TrelloError.
Record t : Type := mk {
  message : string;
  error : option string;
  status : option Z;
  code : option string
}.
End TrelloError.

Record RateLimitInfo : Type := mkRateLimitInfo {
  limit : number;
  remaining : number;
  resetTime : number
}.

Record TrelloApiResponse (T : Type) : Type := mkApiResponse {
  data : T;
  rateLimit : option RateLimitInfo
}.

Arguments mkApiResponse {T}.
Arguments data {T}.
Arguments rateLimit {T}.

(** What can leave an [async] method as a rejection: a raw caught value or
    the normalised [TrelloError] object. *)
Inductive Thrown (T : Type) : Type :=
| Raw (c : Caught T)
| Normalized (e : TrelloError.t).

Arguments Raw {T}.
Arguments Normalized {T}.

Inductive Completion (T : Type) : Type :=
| Return (result : TrelloApiResponse T)
| Throw (v : Thrown T).

Arguments Return {T}.
Arguments Throw {T}.

(** ** The world: network and clock *)

(** The [RequestInit] fields the operations set.  [makeRequest] adds the
    same [Content-Type] and [User-Agent] headers to every request; they are
    not recorded. *)
Record FetchOptions : Type := mkFetchOptions {
  method : option string;
  body : option string
}.

Inductive Event : Type :=
| EvFetch (url : string) (init : FetchOptions)
| EvSleep (ms : number).

(** [network k] is the outcome of the [k]-th physical request (from 0);
    [calls] counts the requests issued so far; [trace] lists requests and
    sleeps in the order they happened. *)
Record World (T : Type) : Type := mkWorld {
  network : nat -> FetchOutcome T;
  calls : nat;
  trace : list Event
}.

Arguments mkWorld {T}.
Arguments network {T}.
Arguments calls {T}.
Arguments trace {T}.

Definition initial {T} (net : nat -> FetchOutcome T) : World T :=
  mkWorld net 0%nat [].

(** Effectful code threads the world. *)
Definition IO (T A : Type) : Type := World T -> A * World T.

#[global] Instance IO_ret {T} : MRet (IO T) := fun A a w => (a, w).
#[global] Instance IO_bind {T} : MBind (IO T) :=
  fun A B f m w => let '(a, w') := m w in f a w'.

(** The world after one more request, and after a sleep. *)
Definition fetched {T} (url : string) (options : FetchOptions) (w : World T) : World T :=
  mkWorld (network w) (S (calls w)) (trace w ++ [EvFetch url options]).

Definition slept {T} (ms : number) (w : World T) : World T :=
  mkWorld (network w) (calls w) (trace w ++ [EvSleep ms]).

(** [await fetchWithTimeout(url, options)]: one physical request.  The
    abort timer only decides which outcome the network gives. *)
Definition fetchWithTimeout {T} (url : string) (options : FetchOptions)
  : IO T (FetchOutcome T) :=
  fun w => (network w (calls w), fetched url options w).

(** [await this.sleep(ms)]. *)
Definition sleep {T} (ms : number) : IO T unit :=
  fun w => (tt, slept ms w).

(** ** [URL], [URLSearchParams] and percent-encoding *)

Module Url.

Definition hex_digit (n : nat) : ascii :=
  (if n <? 10 then ascii_of_nat (48 + n) else ascii_of_nat (55 + n))%nat.

(** [%XX] with upper-case hexadecimal digits. *)
Definition percent_encode (c : ascii) (rest : string) : string :=
  let n := nat_of_ascii c in
  String "%" (String (hex_digit (n / 16)) (String (hex_digit (n mod 16)) rest)).

Definition is_alphanumeric (c : ascii) : bool :=
  let n := nat_of_ascii c in
  (((48 <=? n) && (n <=? 57)) || ((65 <=? n) && (n <=? 90))
   || ((97 <=? n) && (n <=? 122)))%nat.

Definition one_of (chars : string) (c : ascii) : bool :=
  existsb (Ascii.eqb c) (list_ascii_of_string chars).

(** Characters [encodeURIComponent] leaves alone: alphanumerics and
    [- _ . ! ~ * ' ( )]. *)
Definition uri_unreserved (c : ascii) : bool :=
  is_alphanumeric c || one_of "-_.!~*'()" c.

(** What [encodeURIComponent] writes for the UTF-8 bytes of a text: an
    unreserved character stays, any other byte is percent-encoded. *)
Fixpoint encode_bytes (s : string) : string :=
  match s with
  | EmptyString => EmptyString
  | String c rest =>
      if uri_unreserved c then String c (encode_bytes rest)
      else percent_encode c (encode_bytes rest)
  end.

(** The first two bytes of a surrogate in the generalised form: [ED], then
    a byte in [A0]-[BF].  (In UTF-8 proper, [ED] is followed by a byte in
    [80]-[9F].) *)
Definition surrogate_start (c d : ascii) : bool :=
  ((nat_of_ascii c =? 237)
   && ((160 <=? nat_of_ascii d) && (nat_of_ascii d <=? 191)))%nat.

(** The text holds a lone surrogate. *)
Fixpoint lone_surrogate (s : string) : bool :=
  match s with
  | EmptyString => false
  | String c rest =>
      match rest with
      | String d _ => surrogate_start c d
      | EmptyString => false
      end
      || lone_surrogate rest
  end.

(** The conversion to a [USVString], which the methods of [URLSearchParams]
    apply to their arguments: each lone surrogate becomes U+FFFD (the bytes
    [EF BF BD]). *)
Fixpoint to_usv (s : string) : string :=
  match s with
  | EmptyString => EmptyString
  | String c rest =>
      match rest with
      | String d rest' =>
          if surrogate_start c d then
            String "239" (String "191" (String "189"
              match rest' with
              | String _ rest'' => to_usv rest''
              | EmptyString => EmptyString
              end))
          else String c (to_usv rest)
      | EmptyString => String c EmptyString
      end
  end.

(** The [URIError] of the platform. *)
Definition uriError : JsError := mkJsError false "URIError" "URI malformed".

(** [encodeURIComponent(s)]: throws a [URIError] on a lone surrogate ([inl]),
    else returns the encoded text ([inr]). *)
Definition encodeURIComponent (s : string) : JsError + string :=
  if lone_surrogate s then inl uriError else inr (encode_bytes s).

(** Bytes the application/x-www-form-urlencoded serialiser leaves alone:
    alphanumerics and [* - . _]. *)
Definition form_safe (c : ascii) : bool :=
  is_alphanumeric c || one_of "*-._" c.

(** The application/x-www-form-urlencoded byte serialiser: a space becomes
    [+], a safe byte stays, anything else is percent-encoded. *)
Fixpoint form_encode (s : string) : string :=
  match s with
  | EmptyString => EmptyString
  | String c rest =>
      if Ascii.eqb c " " then String "+" (form_encode rest)
      else if form_safe c then String c (form_encode rest)
      else percent_encode c (form_encode rest)
  end.

(** A URLSearchParams list: name-value pairs in order. *)
Definition SearchParams : Type := list (string * string).

(** [searchParams.get(name)]: the value of the first pair with that name. *)
Fixpoint get (name : string) (l : SearchParams) : option string :=
  match l with
  | [] => None
  | (n, v) :: rest => if String.eqb n name then Some v else get name rest
  end.

Definition remove (name : string) (l : SearchParams) : SearchParams :=
  List.filter (fun p => negb (String.eqb (fst p) name)) l.

(** [searchParams.set(name, value)]: the first pair with that name takes the
    value and the later ones are removed; without such a pair, one is
    appended. *)
Fixpoint set (name value : string) (l : SearchParams) : SearchParams :=
  match l with
  | [] => [(name, value)]
  | (n, v) :: rest =>
      if String.eqb n name then (n, value) :: remove name rest
      else (n, v) :: set name value rest
  end.

(** The application/x-www-form-urlencoded serialiser. *)
Fixpoint serialize (l : SearchParams) : string :=
  match l with
  | [] => ""
  | [(n, v)] => form_encode n +:+ "=" +:+ form_encode v
  | (n, v) :: rest => form_encode n +:+ "=" +:+ form_encode v +:+ "&" +:+ serialize rest
  end.

(** A parsed URL whose query is held as its [searchParams] list: [origin_path]
    is the serialisation up to the query, [hash] the fragment with its [#]
    (or empty). *)
Record URL : Type := mkURL {
  origin_path : string;
  searchParams : SearchParams;
  hash : string
}.

(** [url.searchParams.set(name, value)]: both arguments are converted to
    [USVString]s, and the query of [url] is updated as well. *)
Definition searchParams_set (name value : string) (url : URL) : URL :=
  mkURL (origin_path url) (set (to_usv name) (to_usv value) (searchParams url))
    (hash url).

(** [url.toString()] once the query has been written through
    [searchParams]: an empty serialisation means no query. *)
Definition toString (url : URL) : string :=
  let query := serialize (searchParams url) in
  origin_path url
  +:+ (if Js.truthy_string query then "?" +:+ query else "")
  +:+ hash url.

(** What [new URL(s)] is for a string [s] that the parser leaves as it is:
    no query, no fragment, no space, dot segment or other character it would
    rewrite.  The parser itself is a parameter of [buildURL]. *)
Definition plain (s : string) : URL := mkURL s [] "".

End Url.

(** ** [class TrelloClient] *)

Record RetryConfig : Type := mkRetryConfig {
  maxRetries : Z;
  baseDelay : Z;
  maxDelay : Z
}.

(** The fields of an instance ([this]). *)
Record TrelloClient : Type := mkClient {
  baseURL : string;
  credentials : TrelloCredentials;
  retryConfig : RetryConfig
}.

(** [new TrelloClient(credentials)]. *)
Definition new_TrelloClient (creds : TrelloCredentials) : TrelloClient :=
  mkClient "https://api.trello.com/1" creds (mkRetryConfig 3 1000 10000).

(** [Record<string, string>] as [Object.entries] enumerates it; a value may
    be [undefined] at run time ([None]). *)
Definition Params : Type := list (string * option string).

(** The [options] argument of [makeRequest]: [params] and the rest. *)
Record RequestOptions : Type := mkRequestOptions {
  params : option Params;
  fetchOptions : FetchOptions
}.

(** What one pass through the [try] block ends with. *)
Inductive Signal (T : Type) : Type :=
| SReturn (result : TrelloApiResponse T)
| SContinue
| SThrow (error : Caught T).

Arguments SReturn {T}.
Arguments SContinue {T}.
Arguments SThrow {T}.

Section Client.

Context {T : Type}.

(** [new URL(s)], the platform's parser. *)
Variable newURL : string -> Url.URL.

Variable this : TrelloClient.

(** The [forEach] callback of [buildURL]. *)
Definition addParam (url : Url.URL) (entry : string * option string) : Url.URL :=
  match snd entry with
  | Some value => Url.searchParams_set (fst entry) value url
  | None => url
  end.

(** The [URL] object of [buildURL] just before [toString]. *)
Definition buildURL_object (endpoint : string) (params : option Params) : Url.URL :=
  let url := newURL (baseURL this +:+ endpoint) in
  let url := Url.searchParams_set "key" (apiKey (credentials this)) url in
  let url := Url.searchParams_set "token" (token (credentials this)) url in
  match params with
  | Some entries => fold_left addParam entries url
  | None => url
  end.

Definition buildURL (endpoint : string) (params : option Params) : string :=
  Url.toString (buildURL_object endpoint params).

Definition extractRateLimitInfo (response : Response T) : option RateLimitInfo :=
  let limit := headers response !! "x-rate-limit-api-key-limit" in
  let remaining := headers response !! "x-rate-limit-api-key-remaining" in
  let reset := headers response !! "x-rate-limit-api-key-reset" in
  match limit with
  | Some limit =>
      if Js.truthy_string limit then
        Some (mkRateLimitInfo
                (Js.or (Js.parseInt limit) (Num 300))
                (Js.parseInt (Js.or_string remaining "0"))
                (Js.parseInt (Js.or_string reset "0")))
      else None
  | None => None
  end.

(** [attempt] is at least 1 wherever this is called, so the power is an
    integer.  The configuration of the class is fixed (3, 1000, 10000), and
    with it the product and the minimum are small integers, exact as
    doubles; they are computed on the integers. *)
Definition calculateBackoffDelay (attempt : Z) : Z :=
  let delay := baseDelay (retryConfig this) * 2 ^ (attempt - 1) in
  Z.min delay (maxDelay (retryConfig this)).

(** The [Error] an [instanceof Error] test sees in a caught value. *)
Definition asJsError (error : Caught T) : option JsError :=
  match error with
  | CError e => Some e
  | CStatusObject asError _ _ => asError
  | _ => None
  end.

(** [error instanceof TypeError && error.message.includes('fetch')] *)
Definition isFetchTypeError (error : Caught T) : bool :=
  match asJsError error with
  | Some e => isTypeError e && Js.includes "fetch" (message e)
  | None => false
  end.

(** [error instanceof Error && error.name === 'AbortError'] *)
Definition isAbortError (error : Caught T) : bool :=
  match asJsError error with
  | Some e => String.eqb (name e) "AbortError"
  | None => false
  end.

(** [error instanceof Response] *)
Definition isResponse (error : Caught T) : bool :=
  match error with
  | CResponse _ => true
  | _ => false
  end.

(** [error && typeof error === 'object' && 'status' in error], with the
    [status] and the text of [statusText] it then reads. *)
Definition statusOf (error : Caught T) : option (Z * string) :=
  match error with
  | CResponse response => Some (status response, statusText response)
  | CStatusObject _ status statusText => Some (status, statusText)
  | _ => None
  end.

(** [String(error)] and [error.message] in the last branch of
    [handleError]. *)
Definition describe (error : Caught T) : string :=
  match error with
  | CError e => message e
  | CUndefined => "undefined"
  | CPrimitive repr => repr
  | CResponse _ => "[object Response]"
  | CStatusObject (Some e) _ _ => message e
  | CStatusObject None _ _ => "[object Object]"
  end.

Definition handleError (error : Caught T) : TrelloError.t :=
  if isFetchTypeError error then
    TrelloError.mk "Network error - unable to reach Trello API"
      (Some (describe error)) None (Some "NETWORK_ERROR")
  else if isAbortError error then
    TrelloError.mk "Request timeout - Trello API did not respond in time"
      (Some (describe error)) None (Some "TIMEOUT_ERROR")
  else
    match statusOf error with
    | Some (status, statusText) =>
        let '(message, code) :=
          if status =? 401 then
            ("Invalid or expired Trello credentials. Please update your API key and token in Claude.app's MCP connection settings.",
             "INVALID_CREDENTIALS")
          else if status =? 403 then
            ("Insufficient permissions. Your Trello token may need additional permissions, or the resource may be private. Please check your Trello settings or update your token in Claude.app.",
             "INSUFFICIENT_PERMISSIONS")
          else if status =? 404 then ("Resource not found", "NOT_FOUND")
          else if status =? 429 then ("Rate limit exceeded", "RATE_LIMIT_EXCEEDED")
          else if status =? 500 then ("Trello server error", "SERVER_ERROR")
          else ("HTTP " +:+ Js.Z_to_string status +:+ " error", "API_ERROR") in
        TrelloError.mk message
          (Some (Js.Z_to_string status +:+ " - " +:+ statusText))
          (Some status) (Some code)
    | None =>
        TrelloError.mk "Unknown error occurred" (Some (describe error)) None
          (Some "UNKNOWN_ERROR")
    end.

Definition shouldRetry (error : Caught T) : bool :=
  if isFetchTypeError error then true
  else if isAbortError error then true
  else
    match error with
    | CResponse response => (status response >=? 500) || (status response =? 429)
    | _ => false
    end.

(** [error instanceof Response && error.status === 429] *)
Definition isResponse429 (error : Caught T) : bool :=
  match error with
  | CResponse response => status response =? 429
  | _ => false
  end.

(** The [try] block of one iteration. *)
Definition tryBlock (url : string) (fetchOptions : FetchOptions) : IO T (Signal T) :=
  outcome ← fetchWithTimeout url fetchOptions;
  match outcome with
  | Rejected error => mret (SThrow error)
  | Resolved response =>
      let rateLimit := extractRateLimitInfo response in
      if negb (ok response) then
        if status response =? 429 then
          let retryAfter :=
            Js.parseInt (Js.or_string (headers response !! "retry-after") "60") in
          _ ← sleep (Js.mul retryAfter (Num 1000));
          mret SContinue
        else mret (SThrow (CResponse response))
      else
        match json response with
        | inr data => mret (SReturn (mkApiResponse data rateLimit))
        | inl e => mret (SThrow (CError e))
        end
  end.

(** The [catch (error)] block: [None] stands for [continue], [Some v] for
    [throw v]. *)
Definition catchBlock (attempt : Z) (error : Caught T) : IO T (option (Thrown T)) :=
  if isResponse429 error then mret None
  else if (attempt <? maxRetries (retryConfig this)) && shouldRetry error then
    _ ← sleep (Num (calculateBackoffDelay attempt));
    mret None
  else mret (Some (Normalized (handleError error))).

(** The [for] loop from a given [attempt] on; [remaining] is the number of
    values of [attempt] the loop header still admits,
    [maxRetries - attempt + 1].  With none left, control reaches the
    statement after the loop. *)
Fixpoint attemptLoop (url : string) (fetchOptions : FetchOptions)
    (remaining : nat) (attempt : Z) (lastError : Caught T) : IO T (Completion T) :=
  match remaining with
  | O => mret (Throw (Normalized (handleError lastError)))
  | S remaining' =>
      signal ← tryBlock url fetchOptions;
      match signal with
      | SReturn result => mret (Return result)
      | SContinue => attemptLoop url fetchOptions remaining' (attempt + 1) lastError
      | SThrow error =>
          thrown ← catchBlock attempt error;
          match thrown with
          | None => attemptLoop url fetchOptions remaining' (attempt + 1) error
          | Some v => mret (Throw v)
          end
      end
  end.

Definition makeRequest (endpoint : string) (options : RequestOptions)
  : IO T (Completion T) :=
  let url := buildURL endpoint (params options) in
  attemptLoop url (fetchOptions options)
    (Z.to_nat (maxRetries (retryConfig this))) 1 CUndefined.

End Client.

(** ** The public operations that send query parameters

    Each [*_params] is the [params] object the method hands to
    [makeRequest]; optional arguments are [None] when [undefined].  The
    remaining methods ([createCard], [updateCard], [moveCard], [deleteCard],
    [getBoardMembers], [getBoardLabels], [addCommentToCard], [createList],
    [removeLabelFromCard]) send no query parameter besides the
    credentials. *)

(** [if (v) params.key = f(v)] for an optional string [v]. *)
Definition whenString (key : string) (v : option string) : Params :=
  match v with
  | Some s => if Js.truthy_string s then [(key, Some s)] else []
  | None => []
  end.

(** [if (v) params.key = v.join(',')] for an optional array (an array is
    truthy even when empty). *)
Definition whenArray (key : string) (v : option (list string)) : Params :=
  match v with
  | Some parts => [(key, Some (Js.join "," parts))]
  | None => []
  end.

(** [if (v) params.key = v.toString()] for an optional integer. *)
Definition whenNumber (key : string) (v : option number) : Params :=
  match v with
  | Some n => if Js.truthy n then [(key, Some (Js.number_to_string n))] else []
  | None => []
  end.

Definition GET : FetchOptions := mkFetchOptions None None.

Definition getMyBoards_params (filter : option string) : Params :=
  [("filter", Some (Js.or_string filter "open"))].

Definition getBoard_params (includeDetails : bool) : Params :=
  if includeDetails then
    [("lists", Some "open"); ("cards", Some "open");
     ("card_members", Some "true"); ("card_labels", Some "true")]
  else [].

Definition getBoardLists_params (filter : option string) : Params :=
  [("filter", Some (Js.or_string filter "open"))].


Record SearchOptions : Type := mkSearchOptions {
  modelTypes : option (list string);
  boardIds : option (list string);
  boardsLimit : option number;
  cardsLimit : option number;
  membersLimit : option number
}.

Definition noSearchOptions : SearchOptions :=
  mkSearchOptions None None None None None.

(** The [params] object of [search], or the [URIError] that
    [encodeURIComponent(query)] throws while it is being built. *)
Definition search_params (query : string) (options : option SearchOptions)
  : JsError + Params :=
  let o := default noSearchOptions options in
  match Url.encodeURIComponent query with
  | inl e => inl e
  | inr encoded =>
      inr ([("query", Some encoded)]
           ++ whenArray "modelTypes" (modelTypes o)
           ++ whenArray "idBoards" (boardIds o)
           ++ whenNumber "boards_limit" (boardsLimit o)
           ++ whenNumber "cards_limit" (cardsLimit o)
           ++ whenNumber "members_limit" (membersLimit o))
  end.

Definition getListCards_params (filter : option string) (fields : option (list string))
  : Params :=
  whenString "filter" filter ++ whenArray "fields" fields.

Definition getMember_params (fields : option (list string))
    (boards organizations : option string) : Params :=
  whenArray "fields" fields ++ whenString "boards" boards
  ++ whenString "organizations" organizations.


Definition getBoardCards_params (attachments members filter : option string) : Params :=
  whenString "attachments" attachments ++ whenString "members" members
  ++ whenString "filter" filter.

Definition getCardActions_params (filter : option string) (limit : option number)
  : Params :=
  whenString "filter" filter ++ whenNumber "limit" limit.

Definition getCardAttachments_params (fields : option (list string)) : Params :=
  whenArray "fields" fields.

Definition getCardChecklists_params (checkItems : option string)
    (fields : option (list string)) : Params :=
  whenString "checkItems" checkItems ++ whenArray "fields" fields.

Definition createLabel_params (boardId name color : string) : Params :=
  [("name", Some name); ("color", Some color); ("idBoard", Some boardId)].

(** [updates] is passed on as it is: its own entries, [undefined] values
    included. *)
Definition updateLabel_params (updates : Params) : Params := updates.

Definition addLabelToCard_params (labelId : string) : Params :=
  [("value", Some labelId)].

Section Operations.

Context {T : Type}.
Variable newURL : string -> Url.URL.
Variable this : TrelloClient.

(** An exception inside an [async] method rejects the promise it returns:
    the [URIError] leaves [search] as it is, before [makeRequest] is
    called. *)
Definition search (query : string) (options : option SearchOptions)
  : IO T (Completion T) :=
  match search_params query options with
  | inl e => mret (Throw (Raw (CError e)))
  | inr entries =>
      makeRequest newURL this "/search" (mkRequestOptions (Some entries) GET)
  end.

Definition getMyBoards (filter : option string) : IO T (Completion T) :=
  makeRequest newURL this "/members/me/boards"
    (mkRequestOptions (Some (getMyBoards_params filter)) GET).

Definition getBoard (boardId : string) (includeDetails : bool) : IO T (Completion T) :=
  makeRequest newURL this ("/boards/" +:+ boardId)
    (mkRequestOptions (Some (getBoard_params includeDetails)) GET).

Definition createLabel (boardId name color : string) : IO T (Completion T) :=
  makeRequest newURL this "/labels"
    (mkRequestOptions (Some (createLabel_params boardId name color))
       (mkFetchOptions (Some "POST") None)).

Definition updateLabel (labelId : string) (updates : Params) : IO T (Completion T) :=
  makeRequest newURL this ("/labels/" +:+ labelId)
    (mkRequestOptions (Some (updateLabel_params updates))
       (mkFetchOptions (Some "PUT") None)).

Definition deleteCard (cardId : string) : IO T (Completion T) :=
  makeRequest newURL this ("/cards/" +:+ cardId)
    (mkRequestOptions None (mkFetchOptions (Some "DELETE") None)).

End Operations.

(** ** Observations on a run and on a parameter object *)

(** [w'] is [w] after [n] more requests and the events [tail]. *)
Definition extends {T} (w w' : World T) (n : nat) (tail : list Event) : Prop :=
  network w' = network w /\ calls w' = (calls w + n)%nat
  /\ trace w' = trace w ++ tail.

(** The pause of the 429 branch for a response: its [retry-after] header in
    seconds (["60"] when [null] or empty), in milliseconds. *)
Definition retryAfterPause {T} (r : Response T) : number :=
  Js.mul (Js.parseInt (Js.or_string (headers r !! "retry-after") "60")) (Num 1000).

(** The codes of [TrelloError] the client produces. *)
Definition errorCodes : list string :=
  ["NETWORK_ERROR"; "TIMEOUT_ERROR"; "INVALID_CREDENTIALS";
   "INSUFFICIENT_PERMISSIONS"; "NOT_FOUND"; "RATE_LIMIT_EXCEEDED";
   "SERVER_ERROR"; "API_ERROR"; "UNKNOWN_ERROR"].

(** The value [params] gives [key] once its entries have been written one
    after the other: the last entry of that name with a defined value. *)
Fixpoint lastDefined (key : string) (entries : Params) : option string :=
  match entries with
  | [] => None
  | (k, v) :: rest =>
      match lastDefined key rest with
      | Some later => Some later
      | None => if String.eqb k key then v else None
      end
  end.

(** The three kinds of failure the retry classifier accepts besides 429,
    with the value the [catch] clause binds for each: a network failure (a
    [TypeError] whose message contains "fetch"), a timeout (an error named
    [AbortError]) and a response with status 500 or more. *)
Inductive RetryableFailure {T} : FetchOutcome T -> Caught T -> Prop :=
| NetworkFailure (e : JsError) :
    isTypeError e = true -> Js.includes "fetch" (message e) = true ->
    RetryableFailure (Rejected (CError e)) (CError e)
| TimeoutFailure (e : JsError) :
    name e = "AbortError" ->
    RetryableFailure (Rejected (CError e)) (CError e)
| ServerFailure (r : Response T) :
    500 <= status r ->
    RetryableFailure (Resolved r) (CResponse r).

(** The trace of [count] consecutive attempts that all fail and are retried
    with back-off, the first of them numbered [attempt]. *)
Fixpoint backoffTrace (this : TrelloClient) (url : string) (options : FetchOptions)
    (count : nat) (attempt : Z) : list Event :=
  match count with
  | O => []
  | S O => [EvFetch url options]
  | S count' =>
      EvFetch url options :: EvSleep (Num (calculateBackoffDelay this attempt))
      :: backoffTrace this url options count' (attempt + 1)
  end.

(** The trace of [count] consecutive attempts answered by 429 with the same
    pause. *)
Fixpoint rateLimitTrace (url : string) (options : FetchOptions) (pause : number)
    (count : nat) : list Event :=
  match count with
  | O => []
  | S count' =>
      EvFetch url options :: EvSleep pause :: rateLimitTrace url options pause count'
  end.

(** ** Concrete clients, responses and networks *)

Module Scenario.

Definition client : TrelloClient := new_TrelloClient (mkCredentials "KEY" "TOKEN").

Definition syntaxError : JsError :=
  mkJsError false "SyntaxError" "Unexpected end of JSON input".

Definition fetchFailed : JsError := mkJsError true "TypeError" "fetch failed".

Definition aborted : JsError :=
  mkJsError false "AbortError" "This operation was aborted".

(** A response without body. *)
Definition bare (status : Z) (statusText : string) (headers : gmap string string)
  : Response string :=
  mkResponse status statusText headers (inl syntaxError).

Definition okList (headers : gmap string string) : Response string :=
  mkResponse 200 "OK" headers (inr "[]").

Definition rateLimited : Response string :=
  bare 429 "Too Many Requests" {["retry-after" := "2"]}.

Definition notFound : Response string := bare 404 "Not Found" ∅.

Definition internalError : Response string := bare 500 "Internal Server Error" ∅.

Definition badGateway : Response string := bare 502 "Bad Gateway" ∅.

Definition noContent : Response string := bare 204 "No Content" ∅.

Definition always (outcome : FetchOutcome string) : nat -> FetchOutcome string :=
  fun _ => outcome.

(** The first outcomes are those of the list, later ones are [rest]. *)
Definition script (outcomes : list (FetchOutcome string)) (rest : FetchOutcome string)
  : nat -> FetchOutcome string :=
  fun k => nth k outcomes rest.

Definition getBoards : RequestOptions :=
  mkRequestOptions (Some (getMyBoards_params None)) GET.

Definition boardsURL : string :=
  "https://api.trello.com/1/members/me/boards?key=KEY&token=TOKEN&filter=open".

Definition quotaHeaders : gmap string string :=
  {[ "x-rate-limit-api-key-limit" := "300";
     "x-rate-limit-api-key-remaining" := "250";
     "x-rate-limit-api-key-reset" := "1234567890" ]}.

End Scenario.

(** ** Further observations on runs *)

(** An answer 429. *)
Definition RateLimited {T} (outcome : FetchOutcome T) : Prop :=
  exists r, outcome = Resolved r /\ status r = 429.

(** An outcome after which the loop goes on when the budget allows. *)
Definition Retried {T} (outcome : FetchOutcome T) : Prop :=
  RateLimited outcome \/ exists error, RetryableFailure outcome error.

(** The value the [try] block throws on an outcome of [fetch], if it throws:
    the rejection itself, the response that is neither a success nor a 429,
    or the rejection of [json()]. *)
Definition thrownOn {T} (outcome : FetchOutcome T) : option (Caught T) :=
  match outcome with
  | Rejected error => Some error
  | Resolved r =>
      if ok r then
        match json r with
        | inl e => Some (CError e)
        | inr _ => None
        end
      else if status r =? 429 then None
      else Some (CResponse r)
  end.

(** The events of a run, request by request: [RunTrace this url init net k
    attempt events] holds when [events] is what the loop can leave behind
    from attempt number [attempt] on, the answer to that attempt being
    [net k].  Every request goes to [url] with [init]; a sleep comes only
    directly after a request, and it is either the back-off delay of that
    very attempt, which is then not the last and has thrown a value the
    classifier accepts, or the pause asked by the 429 answer to that very
    request. *)
Inductive RunTrace {T} (this : TrelloClient) (url : string) (init : FetchOptions)
    (net : nat -> FetchOutcome T) : nat -> Z -> list Event -> Prop :=
| RunEnd k attempt : RunTrace this url init net k attempt []
| RunRequest k attempt rest :
    RunTrace this url init net (S k) (attempt + 1) rest ->
    RunTrace this url init net k attempt (EvFetch url init :: rest)
| RunBackoff k attempt error rest :
    attempt < maxRetries (retryConfig this) ->
    thrownOn (net k) = Some error ->
    shouldRetry error = true ->
    RunTrace this url init net (S k) (attempt + 1) rest ->
    RunTrace this url init net k attempt
      (EvFetch url init :: EvSleep (Num (calculateBackoffDelay this attempt)) :: rest)
| RunRateLimited k attempt r rest :
    net k = Resolved r ->
    status r = 429 ->
    RunTrace this url init net (S k) (attempt + 1) rest ->
    RunTrace this url init net k attempt
      (EvFetch url init :: EvSleep (retryAfterPause r) :: rest).

Definition isSleep (event : Event) : bool :=
  match event with
  | EvSleep _ => true
  | EvFetch _ _ => false
  end.

Definition isFetch (event : Event) : bool := negb (isSleep event).

(** The entries of a parameter object as [URLSearchParams] takes them: names
    and values converted to [USVString]s.  Nothing changes in a text without
    lone surrogate. *)
Definition usvEntries (entries : Params) : Params :=
  map (fun entry => (Url.to_usv (fst entry), Url.to_usv <$> snd entry)) entries.

(** The parameters [buildURL] appends: the entries with a defined value. *)
Fixpoint definedEntries (entries : Params) : Url.SearchParams :=
  match entries with
  | [] => []
  | (k, Some v) :: rest => (k, v) :: definedEntries rest
  | (k, None) :: rest => definedEntries rest
  end.



(** [if (v !== undefined) params.key = v] *)
Definition whenDefined (key : string) (v : option string) : Params :=
  match v with
  | Some s => [(key, Some s)]
  | None => []
  end.

(** How many pairs of a list carry a name. *)
Definition occurrences (name : string) (l : Url.SearchParams) : nat :=
  List.length (List.filter (fun p => String.eqb (fst p) name) l).

(** ** Reading a query back: the application/x-www-form-urlencoded parser

    This is what [new URL(url).searchParams] does with the query of a URL,
    as the tests of the client use it. *)

Module UrlDecode.

Definition hex_value (c : ascii) : option nat :=
  let n := nat_of_ascii c in
  if ((48 <=? n) && (n <=? 57))%nat then Some (n - 48)%nat
  else if ((65 <=? n) && (n <=? 70))%nat then Some (n - 55)%nat
  else if ((97 <=? n) && (n <=? 102))%nat then Some (n - 87)%nat
  else None.

(** [+] is a space, [%XX] is the byte [XX], a [%] not followed by two
    hexadecimal digits stays. *)
Fixpoint form_decode (s : string) : string :=
  match s with
  | EmptyString => EmptyString
  | String c rest =>
      if Ascii.eqb c "+" then String " " (form_decode rest)
      else if Ascii.eqb c "%" then
        match rest with
        | String h (String l rest') =>
            match hex_value h, hex_value l with
            | Some hv, Some lv =>
                String (ascii_of_nat (16 * hv + lv)) (form_decode rest')
            | _, _ => String c (form_decode rest)
            end
        | _ => String c (form_decode rest)
        end
      else String c (form_decode rest)
  end.

(** [s.split(sep)] for a one-character separator. *)
Fixpoint split_on (sep : ascii) (s : string) : list string :=
  match s with
  | EmptyString => [EmptyString]
  | String c rest =>
      if Ascii.eqb c sep then EmptyString :: split_on sep rest
      else
        match split_on sep rest with
        | piece :: pieces => String c piece :: pieces
        | [] => [String c EmptyString]
        end
  end.

(** The text before the first [sep] and, when there is one, the text after
    it. *)
Fixpoint cut_at (sep : ascii) (s : string) : string * option string :=
  match s with
  | EmptyString => (EmptyString, None)
  | String c rest =>
      if Ascii.eqb c sep then (EmptyString, Some rest)
      else let '(before, after) := cut_at sep rest in (String c before, after)
  end.

Definition parse_sequence (sequence : string) : Url.SearchParams :=
  if Js.truthy_string sequence then
    let '(name, value) := cut_at "=" sequence in
    [(form_decode name, form_decode (default EmptyString value))]
  else [].

Definition parse (query : string) : Url.SearchParams :=
  flat_map parse_sequence (split_on "&" query).

End UrlDecode.

(** What the serialiser writes for one byte. *)
Definition form_encode_char (c : ascii) : string :=
  if Ascii.eqb c " " then "+"
  else if Url.form_safe c then String c EmptyString
  else Url.percent_encode c EmptyString.

(** The string has no [&] and no [=]. *)
Definition no_separator (s : string) : bool :=
  forallb (fun c => negb (Ascii.eqb c "&") && negb (Ascii.eqb c "="))
    (list_ascii_of_string s).

(** ** The tool layer: [utils/validation.ts] and the handlers of [tools/] *)

Module Tools.

Definition is_lower_hex (c : ascii) : bool :=
  let n := nat_of_ascii c in
  (((48 <=? n) && (n <=? 57)) || ((97 <=? n) && (n <=? 102)))%nat.

Definition is_hex (c : ascii) : bool :=
  let n := nat_of_ascii c in
  is_lower_hex c || ((65 <=? n) && (n <=? 70))%nat.

Definition all_chars (p : ascii -> bool) (s : string) : bool :=
  forallb p (list_ascii_of_string s).

(** [/^[a-f0-9]{24}$/.test(s)], the pattern of the handlers in [tools/]. *)
Definition matchesLowerHexId (s : string) : bool :=
  (String.length s =? 24)%nat && all_chars is_lower_hex s.

(** [/^[a-f0-9]{24}$/i.test(s)], the pattern of [trelloIdSchema]. *)
Definition matchesTrelloId (s : string) : bool :=
  (String.length s =? 24)%nat && all_chars is_hex s.

(** An element of [issue.path]: a property name or an array index. *)
Inductive PathElement : Type :=
| Key (name : string)
| Index (i : Z).

Definition pathElement_to_string (p : PathElement) : string :=
  match p with
  | Key name => name
  | Index i => Js.Z_to_string i
  end.

Record ZodIssue : Type := mkIssue {
  path : list PathElement;
  issueMessage : string
}.

Definition formatIssue (issue : ZodIssue) : string :=
  let prefix :=
    match path issue with
    | [] => ""
    | _ :: _ => Js.join "." (map pathElement_to_string (path issue)) +:+ ": "
    end in
  prefix +:+ issueMessage issue.

Definition formatValidationError (issues : list ZodIssue) : string :=
  "Validation error: " +:+ Js.join ", " (map formatIssue issues).

(** What the [catch (error)] clause of a handler can bind: a [ZodError] of
    the validation, or anything else thrown inside the [try], among which
    the rejections of the client. *)
Inductive HandlerCaught (T : Type) : Type :=
| ZodError (issues : list ZodIssue)
| OtherThrown (v : Thrown T).

Arguments ZodError {T}.
Arguments OtherThrown {T}.

(** [new Error(message)]. *)
Definition newError (message : string) : JsError := mkJsError false "Error" message.

(** The [errorMessage] of every handler: a [ZodError] is formatted, another
    [Error] gives its message, anything else is unknown.  A [TrelloError] is
    an object literal, not an [Error]. *)
Definition errorMessage {T} (error : HandlerCaught T) : string :=
  match error with
  | ZodError issues => formatValidationError issues
  | OtherThrown (Raw (CError e)) => message e
  | OtherThrown (Raw (CStatusObject (Some e) _ _)) => message e
  | OtherThrown _ => "Unknown error occurred"
  end.

Record ToolResult : Type := mkToolResult {
  text : string;
  isError : bool
}.

(** The value a handler returns from its [catch] clause; [action] is the
    handler's own wording, such as "listing boards". *)
Definition errorResult {T} (action : string) (error : HandlerCaught T) : ToolResult :=
  mkToolResult ("Error " +:+ action +:+ ": " +:+ errorMessage error) true.

(** The options [handleTrelloSearch] hands to [client.search], from the
    validated arguments: [undefined] when none was given. *)
Definition searchOptions (modelTypes boardIds : option (list string))
    (boardsLimit cardsLimit membersLimit : option number) : option SearchOptions :=
  match modelTypes, boardIds, boardsLimit, cardsLimit, membersLimit with
  | None, None, None, None, None => None
  | _, _, _, _, _ =>
      Some (mkSearchOptions modelTypes boardIds boardsLimit cardsLimit membersLimit)
  end.

(** The options [handleTrelloGetListCards] hands to [client.getListCards]:
    an empty [filter] is left out. *)
Definition listCardsFilter (filter : option string) : option string :=
  match filter with
  | Some f => if Js.truthy_string f then Some f else None
  | None => None
  end.

(** A property value of the tool arguments, as far as the credentials
    depend on it: [undefined], [null], a string, or any other value. *)
Inductive ArgValue : Type :=
| VUndefined
| VNull
| VString (s : string)
| VOther.

(** The [args] of a tool call: [undefined] or [null], a primitive, or an
    object with its own properties in order. *)
Inductive ToolArgs : Type :=
| ArgsMissing
| ArgsPrimitive
| ArgsObject (fields : list (string * ArgValue)).

(** [process.env.TRELLO_API_KEY] and [process.env.TRELLO_TOKEN]. *)
Record Env : Type := mkEnv {
  TRELLO_API_KEY : option string;
  TRELLO_TOKEN : option string
}.

(** [object.name]: [undefined] when the object has no such property. *)
Fixpoint property (name : string) (fields : list (string * ArgValue)) : ArgValue :=
  match fields with
  | [] => VUndefined
  | (k, v) :: rest => if String.eqb k name then v else property name rest
  end.

(** [v ?? fallback] with an environment variable as fallback. *)
Definition orEnv (v : ArgValue) (fallback : option string) : ArgValue :=
  match v with
  | VUndefined | VNull =>
      match fallback with
      | Some s => VString s
      | None => VUndefined
      end
  | _ => v
  end.

(** [z.string().min(1, required)] on the property [name]; [invalidType] is
    the message the schema library gives for a value that is no string. *)
Definition parseRequiredString (name required : string)
    (invalidType : ArgValue -> string) (v : ArgValue) : ZodIssue + string :=
  match v with
  | VString s =>
      if Js.truthy_string s then inr s else inl (mkIssue [Key name] required)
  | _ => inl (mkIssue [Key name] (invalidType v))
  end.

Definition issuesOf {A} (r : ZodIssue + A) : list ZodIssue :=
  match r with
  | inl issue => [issue]
  | inr _ => []
  end.

(** [credentialsSchema.parse({ apiKey, token })] *)
Definition parseCredentials (invalidType : ArgValue -> string)
    (apiKeyValue tokenValue : ArgValue) : list ZodIssue + TrelloCredentials :=
  let k := parseRequiredString "apiKey" "API key is required" invalidType apiKeyValue in
  let t := parseRequiredString "token" "Token is required" invalidType tokenValue in
  match k, t with
  | inr apiKey, inr token => inr (mkCredentials apiKey token)
  | _, _ => inl (issuesOf k ++ issuesOf t)
  end.

(** The [...rest] of the destructuring: every property but [apiKey] and
    [token]. *)
Definition restOf (fields : list (string * ArgValue)) : list (string * ArgValue) :=
  List.filter
    (fun p => negb (String.eqb (fst p) "apiKey") && negb (String.eqb (fst p) "token"))
    fields.

Definition extractCredentials {T} (invalidType : ArgValue -> string) (env : Env)
    (args : ToolArgs)
  : HandlerCaught T + (TrelloCredentials * list (string * ArgValue)) :=
  match args with
  | ArgsPrimitive =>
      inl (OtherThrown (Raw (CError (newError "Tool arguments must be an object."))))
  | _ =>
      let fields :=
        match args with
        | ArgsObject fields => fields
        | _ => []
        end in
      match parseCredentials invalidType
              (orEnv (property "apiKey" fields) (TRELLO_API_KEY env))
              (orEnv (property "token" fields) (TRELLO_TOKEN env)) with
      | inr credentials => inr (credentials, restOf fields)
      | inl issues => inl (ZodError issues)
      end
  end.

(** The shape every handler has: the arguments are validated, one client
    method is awaited, its answer is formatted, and whatever is thrown on the
    way is turned into an error result by the [catch] clause.  [validation]
    is what [extractCredentials] and the schema give for the arguments (a
    thrown value or the validated arguments), [format] what the formatting
    code gives for an answer. *)
Definition runHandler {T A : Type} (action : string)
    (validation : HandlerCaught T + A)
    (call : A -> IO T (Completion T))
    (format : A -> TrelloApiResponse T -> HandlerCaught T + string)
  : IO T ToolResult :=
  match validation with
  | inl error => mret (errorResult action error)
  | inr args =>
      completion ← call args;
      match completion with
      | Return response =>
          match format args response with
          | inr text => mret (mkToolResult text false)
          | inl error => mret (errorResult action error)
          end
      | Throw v => mret (errorResult action (OtherThrown v))
      end
  end.

End Tools.

(** * Properties *)

(** ** Numbers *)

(** Below 2^53 in magnitude an integer is a double. *)
Lemma of_Z_exact (z : Z) : Z.abs z < 2 ^ 53 -> Js.of_Z z = Num z.
Proof.
  intros Hz. unfold Js.of_Z.
  assert (Hlog : Z.log2 (Z.abs z) < 53).
  { destruct (Z.eq_dec (Z.abs z) 0) as [->|Hne]; [reflexivity|].
    apply Z.log2_lt_pow2; lia. }
  destruct (Z.leb_spec (Z.log2 (Z.abs z) - 52) 0); [reflexivity|lia].
Qed.

Lemma mul_exact (x y : Z) :
  Z.abs (x * y) < 2 ^ 53 -> Js.mul (Num x) (Num y) = Num (x * y).
Proof. intros H. cbn [Js.mul]. now apply of_Z_exact. Qed.

(** ** One pass through the [try] block *)

Section TryBlock.

Context {T : Type}.
Variables (url : string) (fetchOptions : FetchOptions).
Variable w : World T.

Lemma ok_range (r : Response T) :
  ok r = true <-> 200 <= status r <= 299.
Proof. unfold ok. rewrite andb_true_iff, !Z.leb_le. tauto. Qed.

Lemma not_ok_outside (r : Response T) :
  status r < 200 \/ 299 < status r -> ok r = false.
Proof.
  intros H. destruct (ok r) eqn:E; [|reflexivity].
  apply ok_range in E. lia.
Qed.

Lemma tryBlock_rejected (error : Caught T) :
  network w (calls w) = Rejected error ->
  tryBlock url fetchOptions w = (SThrow error, fetched url fetchOptions w).
Proof.
  intros H. unfold tryBlock, mbind, IO_bind, fetchWithTimeout.
  rewrite H. reflexivity.
Qed.

Lemma tryBlock_rate_limited (r : Response T) :
  network w (calls w) = Resolved r ->
  status r = 429 ->
  tryBlock url fetchOptions w =
    (SContinue,
     slept (Js.mul (Js.parseInt (Js.or_string (headers r !! "retry-after") "60"))
              (Num 1000))
       (fetched url fetchOptions w)).
Proof.
  intros H H429. unfold tryBlock, mbind, IO_bind, fetchWithTimeout.
  rewrite H, not_ok_outside by lia. cbn [negb].
  rewrite H429. reflexivity.
Qed.

Lemma tryBlock_http_failure (r : Response T) :
  network w (calls w) = Resolved r ->
  ok r = false ->
  status r <> 429 ->
  tryBlock url fetchOptions w = (SThrow (CResponse r), fetched url fetchOptions w).
Proof.
  intros H Hok Hne. unfold tryBlock, mbind, IO_bind, fetchWithTimeout.
  rewrite H, Hok. cbn [negb].
  destruct (Z.eqb_spec (status r) 429); [contradiction|reflexivity].
Qed.

Lemma tryBlock_success (r : Response T) (payload : T) :
  network w (calls w) = Resolved r ->
  ok r = true ->
  json r = inr payload ->
  tryBlock url fetchOptions w =
    (SReturn (mkApiResponse payload (extractRateLimitInfo r)),
     fetched url fetchOptions w).
Proof.
  intros H Hok Hjson. unfold tryBlock, mbind, IO_bind, fetchWithTimeout.
  rewrite H, Hok, Hjson. reflexivity.
Qed.

Lemma tryBlock_bad_body (r : Response T) (e : JsError) :
  network w (calls w) = Resolved r ->
  ok r = true ->
  json r = inl e ->
  tryBlock url fetchOptions w = (SThrow (CError e), fetched url fetchOptions w).
Proof.
  intros H Hok Hjson. unfold tryBlock, mbind, IO_bind, fetchWithTimeout.
  rewrite H, Hok, Hjson. reflexivity.
Qed.

(** A thrown response never has status 429, so the first test of the [catch]
    block is not taken after the [try] block of this client. *)
Lemma tryBlock_never_throws_429 (error : Caught T) (w' : World T) :
  (forall r, network w (calls w) <> Rejected (CResponse r)) ->
  tryBlock url fetchOptions w = (SThrow error, w') ->
  isResponse429 error = false.
Proof.
  intros Hnet. unfold tryBlock, mbind, IO_bind, fetchWithTimeout.
  destruct (network w (calls w)) as [r|c] eqn:E.
  - destruct (ok r); cbn [negb].
    + destruct (json r); intros [= <- _]; reflexivity.
    + destruct (Z.eqb_spec (status r) 429) as [|Hne]; [discriminate|].
      intros [= <- _]. cbn. now apply Z.eqb_neq.
  - intros [= <- _]. destruct c as [|repr|e|r|e st t]; try reflexivity.
    now destruct (Hnet r).
Qed.

(** A failure of one of the three retryable kinds is what the [try] block
    throws, it is not a thrown 429, and the classifier accepts it. *)
Lemma retryable_failure_thrown error :
  RetryableFailure (network w (calls w)) error ->
  tryBlock url fetchOptions w = (SThrow error, fetched url fetchOptions w)
  /\ isResponse429 error = false
  /\ shouldRetry error = true.
Proof.
  intros H. inversion H as [e Hty Hinc Hnet|e Hname Hnet|r Hst Hnet]; subst.
  - split; [now apply tryBlock_rejected|]. split; [reflexivity|].
    unfold shouldRetry, isFetchTypeError. cbn [asJsError]. now rewrite Hty, Hinc.
  - split; [now apply tryBlock_rejected|]. split; [reflexivity|].
    unfold shouldRetry, isFetchTypeError, isAbortError. cbn [asJsError].
    rewrite Hname.
    now destruct (isTypeError e && Js.includes "fetch" (message e)).
  - split; [apply tryBlock_http_failure; auto; [apply not_ok_outside|]; lia|].
    split; [cbn; apply Z.eqb_neq; lia|].
    unfold shouldRetry. cbn.
    destruct (Z.geb_spec (status r) 500); [reflexivity|lia].
Qed.

End TryBlock.

(** ** One iteration of the [for] loop *)

Section Loop.

Context {T : Type}.
Variable this : TrelloClient.
Variables (url : string) (fetchOptions : FetchOptions).

Lemma attemptLoop_exhausted (attempt : Z) (lastError : Caught T) (w : World T) :
  attemptLoop this url fetchOptions 0 attempt lastError w =
    (Throw (Normalized (handleError lastError)), w).
Proof. reflexivity. Qed.

Lemma attemptLoop_rate_limited remaining attempt lastError (w : World T) r :
  network w (calls w) = Resolved r ->
  status r = 429 ->
  attemptLoop this url fetchOptions (S remaining) attempt lastError w =
    attemptLoop this url fetchOptions remaining (attempt + 1) lastError
      (slept (Js.mul (Js.parseInt (Js.or_string (headers r !! "retry-after") "60"))
                (Num 1000))
         (fetched url fetchOptions w)).
Proof.
  intros H H429. cbn [attemptLoop]. unfold mbind, IO_bind.
  rewrite (tryBlock_rate_limited _ _ _ _ H H429). reflexivity.
Qed.

Lemma attemptLoop_returns remaining attempt lastError (w : World T) r payload :
  network w (calls w) = Resolved r ->
  ok r = true ->
  json r = inr payload ->
  attemptLoop this url fetchOptions (S remaining) attempt lastError w =
    (Return (mkApiResponse payload (extractRateLimitInfo r)),
     fetched url fetchOptions w).
Proof.
  intros H Hok Hjson. cbn [attemptLoop]. unfold mbind, IO_bind.
  rewrite (tryBlock_success _ _ _ _ _ H Hok Hjson). reflexivity.
Qed.

Lemma attemptLoop_retries remaining attempt lastError (w w' : World T) error :
  tryBlock url fetchOptions w = (SThrow error, w') ->
  isResponse429 error = false ->
  attempt < maxRetries (retryConfig this) ->
  shouldRetry error = true ->
  attemptLoop this url fetchOptions (S remaining) attempt lastError w =
    attemptLoop this url fetchOptions remaining (attempt + 1) error
      (slept (Num (calculateBackoffDelay this attempt)) w').
Proof.
  intros Htry H429 Hlt Hretry. cbn [attemptLoop]. unfold mbind, IO_bind.
  rewrite Htry. unfold catchBlock. rewrite H429, Hretry.
  destruct (Z.ltb_spec attempt (maxRetries (retryConfig this))); [|lia].
  reflexivity.
Qed.

Lemma attemptLoop_gives_up remaining attempt lastError (w w' : World T) error :
  tryBlock url fetchOptions w = (SThrow error, w') ->
  isResponse429 error = false ->
  maxRetries (retryConfig this) <= attempt \/ shouldRetry error = false ->
  attemptLoop this url fetchOptions (S remaining) attempt lastError w =
    (Throw (Normalized (handleError error)), w').
Proof.
  intros Htry H429 Hstop. cbn [attemptLoop]. unfold mbind, IO_bind.
  rewrite Htry. unfold catchBlock. rewrite H429.
  destruct (Z.ltb_spec attempt (maxRetries (retryConfig this)));
    destruct (shouldRetry error) eqn:E;
    try reflexivity.
  destruct Hstop; [lia|discriminate].
Qed.

End Loop.

(** ** What any run does to the world *)

Section Frame.

Context {T : Type}.
Variable this : TrelloClient.
Variables (url : string) (fetchOptions : FetchOptions).

Lemma extends_trans (w1 w2 w3 : World T) n m t u :
  extends w1 w2 n t -> extends w2 w3 m u -> extends w1 w3 (n + m) (t ++ u).
Proof.
  intros (Hn1 & Hc1 & Ht1) (Hn2 & Hc2 & Ht2). repeat split.
  - congruence.
  - rewrite Hc2, Hc1. lia.
  - rewrite Ht2, Ht1. now rewrite <- app_assoc.
Qed.

Lemma fetched_extends (w : World T) :
  extends w (fetched url fetchOptions w) 1 [EvFetch url fetchOptions].
Proof. repeat split. cbn. lia. Qed.

Lemma slept_extends (w : World T) ms : extends w (slept ms w) 0 [EvSleep ms].
Proof. repeat split. cbn. lia. Qed.

(** The [try] block issues exactly one request, first of all. *)
Lemma tryBlock_extends (w : World T) :
  exists tail,
    extends w (snd (tryBlock url fetchOptions w)) 1 (EvFetch url fetchOptions :: tail).
Proof.
  unfold tryBlock, mbind, IO_bind, fetchWithTimeout.
  destruct (network w (calls w)) as [r|c].
  - destruct (ok r); cbn [negb].
    + exists []. destruct (json r); apply fetched_extends.
    + destruct (status r =? 429).
      * eexists. cbn [snd sleep mret IO_ret].
        exact (extends_trans _ _ _ 1 0 [EvFetch url fetchOptions] _
                 (fetched_extends w) (slept_extends _ _)).
      * exists []. apply fetched_extends.
  - exists []. apply fetched_extends.
Qed.

(** The [catch] block issues no request. *)
Lemma catchBlock_extends attempt error (w : World T) :
  exists tail, extends w (snd (catchBlock this attempt error w)) 0 tail.
Proof.
  unfold catchBlock.
  destruct (isResponse429 error).
  - exists []. repeat split; cbn; [lia|now rewrite app_nil_r].
  - destruct ((attempt <? maxRetries (retryConfig this)) && shouldRetry error).
    + eexists. apply slept_extends.
    + exists []. repeat split; cbn; [lia|now rewrite app_nil_r].
Qed.

(** A loop with [remaining] iterations left issues at most [remaining]
    requests, and at least one when the loop is entered. *)
Lemma attemptLoop_extends remaining : forall attempt lastError (w : World T),
  exists n tail,
    extends w (snd (attemptLoop this url fetchOptions remaining attempt lastError w))
      n tail
    /\ (n <= remaining)%nat
    /\ (remaining <> 0%nat ->
        exists n' tail', n = S n' /\ tail = EvFetch url fetchOptions :: tail').
Proof.
  induction remaining as [|remaining IH]; intros attempt lastError w.
  - exists 0%nat, []. split; [|split; [lia|congruence]].
    repeat split; cbn; [lia|now rewrite app_nil_r].
  - cbn [attemptLoop]. unfold mbind, IO_bind.
    destruct (tryBlock_extends w) as (t1 & H1).
    destruct (tryBlock url fetchOptions w) as [signal w1]. cbn [snd] in H1.
    destruct signal as [result| |error].
    + exists 1%nat, (EvFetch url fetchOptions :: t1).
      split; [exact H1|]. split; [lia|]. intros _. now exists 0%nat, t1.
    + destruct (IH (attempt + 1) lastError w1) as (n & t2 & H2 & Hle & _).
      exists (1 + n)%nat, ((EvFetch url fetchOptions :: t1) ++ t2).
      split; [exact (extends_trans _ _ _ _ _ _ _ H1 H2)|].
      split; [lia|]. intros _. now exists n, (t1 ++ t2).
    + destruct (catchBlock_extends attempt error w1) as (t2 & H2).
      destruct (catchBlock this attempt error w1) as [thrown w2]. cbn [snd] in H2.
      pose proof (extends_trans _ _ _ _ _ _ _ H1 H2) as H12.
      destruct thrown as [v|].
      * exists (1 + 0)%nat, ((EvFetch url fetchOptions :: t1) ++ t2).
        split; [exact H12|]. split; [lia|]. intros _. now exists 0%nat, (t1 ++ t2).
      * destruct (IH (attempt + 1) error w2) as (n & t3 & H3 & Hle & _).
        exists (1 + 0 + n)%nat, (((EvFetch url fetchOptions :: t1) ++ t2) ++ t3).
        split; [exact (extends_trans _ _ _ _ _ _ _ H12 H3)|].
        split; [lia|]. intros _.
        exists (0 + n)%nat, ((t1 ++ t2) ++ t3). split; [lia|].
        cbn. now rewrite <- !app_assoc.
Qed.

End Frame.

(** ** Rate limiting (429) *)

Section RateLimit.

Context {T : Type}.
Variable this : TrelloClient.
Variables (url : string) (fetchOptions : FetchOptions).

Lemma retryAfterPause_default (r : Response T) :
  headers r !! "retry-after" = None \/ headers r !! "retry-after" = Some "" ->
  retryAfterPause r = Num 60000.
Proof. unfold retryAfterPause. intros [-> | ->]; reflexivity. Qed.

(** A header that is there and not empty is what [parseInt] reads. *)
Lemma retryAfterPause_present (r : Response T) (value : string) :
  headers r !! "retry-after" = Some value ->
  value <> "" ->
  retryAfterPause r = Js.mul (Js.parseInt value) (Num 1000).
Proof.
  unfold retryAfterPause. intros -> Hvalue.
  destruct value; [congruence|reflexivity].
Qed.

Lemma retryAfterPause_seconds (r : Response T) (value : string) (seconds : Z) :
  headers r !! "retry-after" = Some value ->
  Js.parseInt value = Num seconds ->
  Z.abs seconds * 1000 < 2 ^ 53 ->
  retryAfterPause r = Num (seconds * 1000).
Proof.
  intros Hheader Hparse Hsmall.
  rewrite (retryAfterPause_present r value Hheader)
    by (intros ->; discriminate Hparse).
  rewrite Hparse. apply mul_exact. lia.
Qed.

(** [n] answers 429 in a row use up [n] iterations, whatever is left after
    them. *)
Lemma attemptLoop_rate_limited_prefix n :
  forall remaining attempt lastError (w : World T),
    (forall k, (k < n)%nat ->
       exists r, network w (calls w + k) = Resolved r /\ status r = 429) ->
    exists w',
      attemptLoop this url fetchOptions (n + remaining) attempt lastError w =
        attemptLoop this url fetchOptions remaining (attempt + Z.of_nat n)
          lastError w'
      /\ network w' = network w
      /\ calls w' = (calls w + n)%nat.
Proof.
  induction n as [|n IH]; intros remaining attempt lastError w Hall.
  - exists w. rewrite Z.add_0_r. repeat split. lia.
  - destruct (Hall 0%nat ltac:(lia)) as (r & Hr & H429).
    rewrite Nat.add_0_r in Hr. cbn [Nat.add].
    rewrite (attemptLoop_rate_limited _ _ _ _ _ _ _ _ Hr H429).
    edestruct (IH remaining (attempt + 1) lastError) as (w' & Hrun & Hnet & Hcalls);
      [|exists w'; split; [rewrite Hrun; f_equal; lia|]].
    + intros k Hk. cbn [network calls slept fetched].
      destruct (Hall (S k) ltac:(lia)) as (r' & Hr' & H429').
      exists r'. split; [|exact H429'].
      rewrite <- Hr'. f_equal. lia.
    + split; [exact Hnet|]. rewrite Hcalls. cbn. lia.
Qed.

(** When every iteration the loop header still admits is answered by 429,
    the loop runs out and the statement after it throws. *)
Lemma attemptLoop_all_rate_limited remaining :
  forall attempt lastError (w : World T),
    (forall k, (k < remaining)%nat ->
       exists r, network w (calls w + k) = Resolved r /\ status r = 429) ->
    exists w',
      attemptLoop this url fetchOptions remaining attempt lastError w =
        (Throw (Normalized (handleError lastError)), w')
      /\ network w' = network w
      /\ calls w' = (calls w + remaining)%nat.
Proof.
  induction remaining as [|remaining IH]; intros attempt lastError w Hall.
  - exists w. repeat split. lia.
  - destruct (Hall 0%nat ltac:(lia)) as (r & Hr & H429).
    rewrite Nat.add_0_r in Hr.
    rewrite (attemptLoop_rate_limited _ _ _ _ _ _ _ _ Hr H429).
    edestruct IH as (w' & Hrun & Hnet & Hcalls); [|exists w'; split; [exact Hrun|]].
    + intros k Hk. cbn [network calls slept fetched].
      destruct (Hall (S k) ltac:(lia)) as (r' & Hr' & H429').
      exists r'. split; [|exact H429'].
      rewrite <- Hr'. f_equal. lia.
    + split; [exact Hnet|]. rewrite Hcalls. cbn. lia.
Qed.

End RateLimit.

(** C1 (as the code has it): an attempt answered by 429 is followed by a
    sleep of [parseInt(retry-after) * 1000] milliseconds: 60 s when the
    header is absent or empty, the seconds the header starts with when it
    starts with a decimal integer, and [NaN] (not 60 s) when it is there but
    starts with none.  Another attempt follows exactly when the loop header
    admits one more: after a 429 on the last admitted attempt the call fails
    without a further request, so [maxRetries] answers 429 in a row end the
    call after exactly [maxRetries] requests. *)
Theorem rate_limited_attempt {T} (this : TrelloClient) (url : string)
    (init : FetchOptions) (remaining : nat) (attempt : Z)
    (lastError : Caught T) (w : World T) (r : Response T) :
  network w (calls w) = Resolved r ->
  status r = 429 ->
  let w' := slept (retryAfterPause r) (fetched url init w) in
  attemptLoop this url init (S remaining) attempt lastError w =
    attemptLoop this url init remaining (attempt + 1) lastError w'
  /\ (headers r !! "retry-after" = None \/ headers r !! "retry-after" = Some "" ->
      retryAfterPause r = Num 60000)
  /\ (forall value,
        headers r !! "retry-after" = Some value ->
        value <> "" ->
        retryAfterPause r = Js.mul (Js.parseInt value) (Num 1000)
        /\ (forall seconds,
              Js.parseInt value = Num seconds ->
              Z.abs seconds * 1000 < 2 ^ 53 ->
              retryAfterPause r = Num (seconds * 1000))
        /\ (Js.parseInt value = NaN -> retryAfterPause r = NaN))
  /\ match remaining with
     | O =>
         exists v,
           attemptLoop this url init (S remaining) attempt lastError w =
             (Throw v, w')
     | S _ =>
         exists n tail,
           extends w'
             (snd (attemptLoop this url init (S remaining) attempt lastError w))
             (S n) (EvFetch url init :: tail)
     end
  /\ (forall newURL endpoint options (net : nat -> FetchOutcome T) (n : nat),
        (n <= Z.to_nat (maxRetries (retryConfig this)))%nat ->
        (forall k, (k < n)%nat ->
           exists r', net k = Resolved r' /\ status r' = 429) ->
        exists wn,
          makeRequest newURL this endpoint options (initial net) =
            attemptLoop this (buildURL newURL this endpoint (params options))
              (fetchOptions options)
              (Z.to_nat (maxRetries (retryConfig this)) - n) (1 + Z.of_nat n)
              CUndefined wn
          /\ network wn = net /\ calls wn = n)
  /\ (forall newURL endpoint options (net : nat -> FetchOutcome T),
        (forall k, (k < Z.to_nat (maxRetries (retryConfig this)))%nat ->
           exists r', net k = Resolved r' /\ status r' = 429) ->
        exists v wn,
          makeRequest newURL this endpoint options (initial net) = (Throw v, wn)
          /\ network wn = net
          /\ calls wn = Z.to_nat (maxRetries (retryConfig this))).
Proof.
  intros Hr H429 w'.
  pose proof (attemptLoop_rate_limited this url init remaining attempt
                lastError w r Hr H429) as Hstep.
  fold (retryAfterPause r) in Hstep. fold w' in Hstep.
  split; [exact Hstep|].
  split; [apply retryAfterPause_default|].
  split.
  { intros value Hheader Hvalue.
    split; [now apply retryAfterPause_present|].
    split; [intros seconds; now apply retryAfterPause_seconds|].
    intros Hnan. rewrite (retryAfterPause_present r value Hheader Hvalue).
    now rewrite Hnan. }
  split.
  { destruct remaining as [|remaining].
    - rewrite Hstep. eexists. reflexivity.
    - rewrite Hstep.
      destruct (attemptLoop_extends this url init (S remaining) (attempt + 1)
                  lastError w') as (n & tail & Hext & _ & Hfirst).
      destruct Hfirst as (n' & tail' & -> & ->); [congruence|].
      now exists n', tail'. }
  split.
  { intros newURL endpoint options net n Hn Hall. unfold makeRequest.
    destruct (attemptLoop_rate_limited_prefix this
                (buildURL newURL this endpoint (params options))
                (fetchOptions options) n
                (Z.to_nat (maxRetries (retryConfig this)) - n) 1 CUndefined
                (initial net) Hall) as (wn & Hrun & Hnet & Hcalls).
    exists wn.
    replace (n + (Z.to_nat (maxRetries (retryConfig this)) - n))%nat
      with (Z.to_nat (maxRetries (retryConfig this))) in Hrun by lia.
    split; [exact Hrun|]. split; [exact Hnet|exact Hcalls]. }
  intros newURL endpoint options net Hall. unfold makeRequest.
  destruct (attemptLoop_all_rate_limited this
              (buildURL newURL this endpoint (params options))
              (fetchOptions options)
              (Z.to_nat (maxRetries (retryConfig this))) 1 CUndefined
              (initial net) Hall) as (wn & Hrun & Hnet & Hcalls).
  eexists _, wn. split; [exact Hrun|]. split; [exact Hnet|exact Hcalls].
Qed.

Lemma rate_limited_attempt_witness :
  attemptLoop Scenario.client Scenario.boardsURL GET 3 1 CUndefined
    (initial (Scenario.always (Resolved Scenario.rateLimited))) =
  attemptLoop Scenario.client Scenario.boardsURL GET 2 2 CUndefined
    (slept (Num 2000)
       (fetched Scenario.boardsURL GET
          (initial (Scenario.always (Resolved Scenario.rateLimited))))).
Proof.
  exact (proj1 (rate_limited_attempt Scenario.client Scenario.boardsURL GET 2 1
                  CUndefined
                  (initial (Scenario.always (Resolved Scenario.rateLimited)))
                  Scenario.rateLimited eq_refl eq_refl)).
Defined.

(** C1 fails as stated: against a backend that answers 429 for ever, the
    default client stops after its third attempt. *)
Lemma rate_limited_run_is_bounded :
  (forall k, exists r,
      Scenario.always (Resolved Scenario.rateLimited) k = Resolved r
      /\ status r = 429)
  /\ makeRequest Url.plain Scenario.client "/members/me/boards" Scenario.getBoards
       (initial (Scenario.always (Resolved Scenario.rateLimited))) =
     (Throw (Normalized
        (TrelloError.mk "Unknown error occurred" (Some "undefined") None
           (Some "UNKNOWN_ERROR"))),
      mkWorld (Scenario.always (Resolved Scenario.rateLimited)) 3
        (rateLimitTrace Scenario.boardsURL GET (Num 2000) 3)).
Proof.
  split.
  - intros k. exists Scenario.rateLimited. split; reflexivity.
  - vm_compute. reflexivity.
Qed.

(** C2 (what the code does): when every attempt the budget admits is
    answered by 429, no error was ever caught, and the call fails with
    [UNKNOWN_ERROR] / "Unknown error occurred", not with
    [RATE_LIMIT_EXCEEDED]. *)
Theorem exhausted_rate_limit_error {T} (newURL : string -> Url.URL)
    (this : TrelloClient) (endpoint : string) (options : RequestOptions)
    (net : nat -> FetchOutcome T) :
  (forall k, (k < Z.to_nat (maxRetries (retryConfig this)))%nat ->
     exists r, net k = Resolved r /\ status r = 429) ->
  exists w',
    makeRequest newURL this endpoint options (initial net) =
      (Throw (Normalized
         (TrelloError.mk "Unknown error occurred" (Some "undefined") None
            (Some "UNKNOWN_ERROR"))), w')
    /\ calls w' = Z.to_nat (maxRetries (retryConfig this)).
Proof.
  intros Hall. unfold makeRequest.
  destruct (attemptLoop_all_rate_limited this
              (buildURL newURL this endpoint (params options))
              (fetchOptions options)
              (Z.to_nat (maxRetries (retryConfig this))) 1 CUndefined
              (initial net) Hall) as (w' & Hrun & _ & Hcalls).
  exists w'. split; [exact Hrun|exact Hcalls].
Qed.

Lemma exhausted_rate_limit_error_witness :
  exists w',
    makeRequest Url.plain Scenario.client "/members/me/boards" Scenario.getBoards
      (initial (Scenario.always (Resolved Scenario.rateLimited))) =
      (Throw (Normalized
         (TrelloError.mk "Unknown error occurred" (Some "undefined") None
            (Some "UNKNOWN_ERROR"))), w')
    /\ calls w' = 3%nat.
Proof.
  apply (exhausted_rate_limit_error Url.plain Scenario.client
           "/members/me/boards" Scenario.getBoards
           (Scenario.always (Resolved Scenario.rateLimited))).
  intros k _. exists Scenario.rateLimited. split; reflexivity.
Defined.

(** ** Error normalisation of HTTP failures *)

Section HandleError.

Context {T : Type}.

Lemma handleError_response (r : Response T) :
  TrelloError.status (handleError (CResponse r)) = Some (status r)
  /\ TrelloError.error (handleError (CResponse r)) =
       Some (Js.Z_to_string (status r) +:+ " - " +:+ statusText r).
Proof.
  unfold handleError, isFetchTypeError, isAbortError. cbn [asJsError statusOf].
  repeat match goal with |- context [if ?b then _ else _] => destruct b end;
    split; reflexivity.
Qed.

Lemma handleError_status_code (r : Response T) :
  TrelloError.code (handleError (CResponse r)) =
    Some (if status r =? 401 then "INVALID_CREDENTIALS"
          else if status r =? 403 then "INSUFFICIENT_PERMISSIONS"
          else if status r =? 404 then "NOT_FOUND"
          else if status r =? 429 then "RATE_LIMIT_EXCEEDED"
          else if status r =? 500 then "SERVER_ERROR"
          else "API_ERROR").
Proof.
  unfold handleError, isFetchTypeError, isAbortError. cbn [asJsError statusOf].
  repeat match goal with |- context [if ?b then _ else _] => destruct b end;
    reflexivity.
Qed.

Lemma handleError_status_message (r : Response T) :
  status r <> 401 -> status r <> 403 -> status r <> 404 -> status r <> 429 ->
  TrelloError.message (handleError (CResponse r)) =
    if status r =? 500 then "Trello server error"
    else "HTTP " +:+ Js.Z_to_string (status r) +:+ " error".
Proof.
  intros H1 H2 H3 H4.
  unfold handleError, isFetchTypeError, isAbortError. cbn [asJsError statusOf].
  apply Z.eqb_neq in H1, H2, H3, H4. rewrite H1, H2, H3, H4.
  destruct (status r =? 500); reflexivity.
Qed.

(** Every code [handleError] produces is one of the nine. *)
Lemma handleError_code_known (error : Caught T) :
  exists code,
    TrelloError.code (handleError error) = Some code /\ In code errorCodes.
Proof.
  unfold handleError.
  destruct (isFetchTypeError error); [eexists; split; [reflexivity|cbn; tauto]|].
  destruct (isAbortError error); [eexists; split; [reflexivity|cbn; tauto]|].
  destruct (statusOf error) as [[st text]|];
    [|eexists; split; [reflexivity|cbn; tauto]].
  repeat match goal with |- context [if ?b then _ else _] => destruct b end;
    (eexists; split; [reflexivity|cbn; tauto]).
Qed.

End HandleError.

(** C3 (as the code has it): a response with status 500 or more that ends the
    call (it arrives on the last attempt the budget admits) is normalised
    with that status; the code is [SERVER_ERROR] for status 500 exactly and
    [API_ERROR], with message "HTTP <status> error", above 500. *)
Theorem server_failure_code {T} (this : TrelloClient) (url : string)
    (fetchOptions : FetchOptions) (remaining : nat) (attempt : Z)
    (lastError : Caught T) (w : World T) (r : Response T) :
  network w (calls w) = Resolved r ->
  500 <= status r ->
  maxRetries (retryConfig this) <= attempt ->
  attemptLoop this url fetchOptions (S remaining) attempt lastError w =
    (Throw (Normalized (handleError (CResponse r))), fetched url fetchOptions w)
  /\ TrelloError.status (handleError (CResponse r)) = Some (status r)
  /\ TrelloError.code (handleError (CResponse r)) =
       Some (if status r =? 500 then "SERVER_ERROR" else "API_ERROR")
  /\ TrelloError.message (handleError (CResponse r)) =
       if status r =? 500 then "Trello server error"
       else "HTTP " +:+ Js.Z_to_string (status r) +:+ " error".
Proof.
  intros Hr H500 Hlast.
  assert (Hfail : RetryableFailure (network w (calls w)) (CResponse r))
    by (rewrite Hr; now constructor).
  destruct (retryable_failure_thrown url fetchOptions w _ Hfail) as (Htry & H429 & _).
  split; [apply (attemptLoop_gives_up this url fetchOptions _ _ _ _ _ _ Htry H429);
          now left|].
  split; [apply handleError_response|].
  split.
  - rewrite handleError_status_code.
    repeat match goal with
           | |- context [?a =? ?b] =>
               lazymatch b with
               | 500 => fail
               | _ => destruct (Z.eqb_spec a b); [lia|]
               end
           end.
    reflexivity.
  - apply handleError_status_message; lia.
Qed.

Lemma server_failure_code_witness :
  TrelloError.code (handleError (CResponse Scenario.internalError)) =
    Some "SERVER_ERROR".
Proof.
  exact (proj1 (proj2 (proj2
    (server_failure_code Scenario.client Scenario.boardsURL GET 0 3 CUndefined
       (initial (Scenario.always (Resolved Scenario.internalError)))
       Scenario.internalError eq_refl ltac:(vm_compute; discriminate)
       ltac:(vm_compute; discriminate))))).
Defined.

(** C3 fails as stated: 502 on every attempt ends the call with [API_ERROR],
    not [SERVER_ERROR]. *)
Lemma bad_gateway_is_api_error :
  500 <= status Scenario.badGateway
  /\ makeRequest Url.plain Scenario.client "/members/me/boards" Scenario.getBoards
       (initial (Scenario.always (Resolved Scenario.badGateway))) =
     (Throw (Normalized
        (TrelloError.mk "HTTP 502 error" (Some "502 - Bad Gateway") (Some 502)
           (Some "API_ERROR"))),
      mkWorld (Scenario.always (Resolved Scenario.badGateway)) 3
        (backoffTrace Scenario.client Scenario.boardsURL GET 3 1))
  /\ TrelloError.code (handleError (CResponse Scenario.badGateway))
     <> Some "SERVER_ERROR".
Proof.
  split; [vm_compute; discriminate|].
  split; [vm_compute; reflexivity|].
  vm_compute. discriminate.
Qed.

(** ** Terminal and retryable failures *)

Section Failures.

Context {T : Type}.
Variable this : TrelloClient.
Variables (url : string) (fetchOptions : FetchOptions).

(** A 4xx response other than 429 ends the loop at once, whatever the
    attempt. *)
Lemma attemptLoop_client_error remaining attempt lastError (w : World T) r :
  network w (calls w) = Resolved r ->
  400 <= status r <= 499 ->
  status r <> 429 ->
  attemptLoop this url fetchOptions (S remaining) attempt lastError w =
    (Throw (Normalized (handleError (CResponse r))), fetched url fetchOptions w).
Proof.
  intros Hr Hrange Hne.
  assert (Htry : tryBlock url fetchOptions w =
                   (SThrow (CResponse r), fetched url fetchOptions w))
    by (apply tryBlock_http_failure; auto; apply not_ok_outside; lia).
  apply (attemptLoop_gives_up this url fetchOptions _ _ _ _ _ _ Htry).
  - cbn. now apply Z.eqb_neq.
  - right. unfold shouldRetry. cbn.
    destruct (Z.geb_spec (status r) 500); [lia|].
    cbn. now apply Z.eqb_neq.
Qed.

(** A retryable failure before the last admitted attempt: back-off, then the
    next attempt; on the last one: the normalised error. *)
Lemma attemptLoop_retryable remaining attempt lastError (w : World T) error :
  RetryableFailure (network w (calls w)) error ->
  attemptLoop this url fetchOptions (S remaining) attempt lastError w =
    if attempt <? maxRetries (retryConfig this) then
      attemptLoop this url fetchOptions remaining (attempt + 1) error
        (slept (Num (calculateBackoffDelay this attempt))
           (fetched url fetchOptions w))
    else (Throw (Normalized (handleError error)), fetched url fetchOptions w).
Proof.
  intros Hfail.
  destruct (retryable_failure_thrown url fetchOptions w _ Hfail)
    as (Htry & H429 & Hretry).
  destruct (Z.ltb_spec attempt (maxRetries (retryConfig this))).
  - now apply attemptLoop_retries.
  - apply (attemptLoop_gives_up this url fetchOptions _ _ _ _ _ _ Htry H429).
    now left.
Qed.

(** [count] attempts in a row that fail retryably, ending on the last
    admitted attempt. *)
Lemma attemptLoop_all_retryable count :
  forall attempt lastError (w : World T),
    attempt + Z.of_nat count = maxRetries (retryConfig this) ->
    (forall k, (k <= count)%nat ->
       exists error, RetryableFailure (network w (calls w + k)) error) ->
    exists last,
      RetryableFailure (network w (calls w + count)) last
      /\ attemptLoop this url fetchOptions (S count) attempt lastError w =
           (Throw (Normalized (handleError last)),
            mkWorld (network w) (calls w + S count)
              (trace w ++ backoffTrace this url fetchOptions (S count) attempt)).
Proof.
  induction count as [|count IH]; intros attempt lastError w Hbudget Hall.
  - destruct (Hall 0%nat ltac:(lia)) as (error & Hfail).
    exists error. split; [exact Hfail|].
    rewrite Nat.add_0_r in Hfail.
    rewrite (attemptLoop_retryable _ _ _ _ _ Hfail).
    destruct (Z.ltb_spec attempt (maxRetries (retryConfig this))); [lia|].
    unfold fetched. repeat f_equal. lia.
  - destruct (Hall 0%nat ltac:(lia)) as (error & Hfail).
    rewrite Nat.add_0_r in Hfail.
    rewrite (attemptLoop_retryable _ _ _ _ _ Hfail).
    destruct (Z.ltb_spec attempt (maxRetries (retryConfig this))); [|lia].
    edestruct (IH (attempt + 1) error
                 (slept (Num (calculateBackoffDelay this attempt))
                    (fetched url fetchOptions w))) as (last & Hlast & Hrun).
    + lia.
    + intros k Hk. cbn [network calls slept fetched].
      destruct (Hall (S k) ltac:(lia)) as (e & He). exists e.
      replace (S (calls w) + k)%nat with (calls w + S k)%nat by lia. exact He.
    + exists last. cbn [network calls slept fetched] in Hlast, Hrun.
      split.
      * replace (calls w + S count)%nat with (S (calls w) + count)%nat by lia.
        exact Hlast.
      * rewrite Hrun. cbn [trace]. f_equal. f_equal; [lia|].
        change (backoffTrace this url fetchOptions (S (S count)) attempt)
          with ([EvFetch url fetchOptions]
                ++ [EvSleep (Num (calculateBackoffDelay this attempt))]
                ++ backoffTrace this url fetchOptions (S count) (attempt + 1)).
        cbn [trace slept fetched]. now rewrite <- !app_assoc.
Qed.

End Failures.

(** C5: a response with a status in 400-499 other than 429 is never retried.
    Received on the first attempt, it makes the call fail after exactly one
    request and no sleep, with the normalised error of that response, whose
    code is [INVALID_CREDENTIALS] for 401, [INSUFFICIENT_PERMISSIONS] for 403
    and [NOT_FOUND] for 404; received on any later attempt it ends the loop
    there as well. *)
Theorem client_error_single_attempt {T} (newURL : string -> Url.URL)
    (this : TrelloClient) (endpoint : string) (options : RequestOptions)
    (net : nat -> FetchOutcome T) (r : Response T) :
  1 <= maxRetries (retryConfig this) ->
  net 0%nat = Resolved r ->
  400 <= status r <= 499 ->
  status r <> 429 ->
  makeRequest newURL this endpoint options (initial net) =
    (Throw (Normalized (handleError (CResponse r))),
     mkWorld net 1
       [EvFetch (buildURL newURL this endpoint (params options))
          (fetchOptions options)])
  /\ (status r = 401 ->
      TrelloError.code (handleError (CResponse r)) = Some "INVALID_CREDENTIALS")
  /\ (status r = 403 ->
      TrelloError.code (handleError (CResponse r)) = Some "INSUFFICIENT_PERMISSIONS")
  /\ (status r = 404 ->
      TrelloError.code (handleError (CResponse r)) = Some "NOT_FOUND")
  /\ (forall url fetchOptions remaining attempt lastError (w : World T),
        network w (calls w) = Resolved r ->
        attemptLoop this url fetchOptions (S remaining) attempt lastError w =
          (Throw (Normalized (handleError (CResponse r))),
           fetched url fetchOptions w)).
Proof.
  intros Hbudget Hnet Hrange Hne.
  split.
  - unfold makeRequest.
    destruct (Z.to_nat (maxRetries (retryConfig this))) as [|remaining] eqn:E;
      [lia|].
    now rewrite (attemptLoop_client_error this _ _ remaining 1 CUndefined
                   (initial net) r Hnet Hrange Hne).
  - rewrite handleError_status_code.
    repeat split.
    + now intros ->.
    + now intros ->.
    + now intros ->.
    + intros. now apply attemptLoop_client_error.
Qed.

Lemma client_error_single_attempt_witness :
  makeRequest Url.plain Scenario.client "/members/me/boards" Scenario.getBoards
    (initial (Scenario.always (Resolved Scenario.notFound))) =
    (Throw (Normalized (handleError (CResponse Scenario.notFound))),
     mkWorld (Scenario.always (Resolved Scenario.notFound)) 1
       [EvFetch Scenario.boardsURL GET]).
Proof.
  exact (proj1 (client_error_single_attempt Url.plain Scenario.client
                  "/members/me/boards" Scenario.getBoards
                  (Scenario.always (Resolved Scenario.notFound)) Scenario.notFound
                  ltac:(vm_compute; discriminate) eq_refl
                  ltac:(split; vm_compute; discriminate)
                  ltac:(vm_compute; discriminate))).
Defined.

(** C6: when each attempt the budget admits ends in a retryable failure (a
    network failure, a timeout or a status of 500 or more), the call makes
    exactly [maxRetries] requests, sleeps between them for the back-off
    delays of attempts 1, 2, ..., and then fails with the normalised last
    failure; the delay after attempt [n] is
    [min(baseDelay * 2^(n-1), maxDelay)], and a retryable failure on an
    attempt before the last is followed by that sleep and the next attempt
    (so that an earlier success or terminal failure ends the call with fewer
    requests). *)
Theorem retryable_failures_backoff {T} (newURL : string -> Url.URL)
    (this : TrelloClient) (endpoint : string) (options : RequestOptions)
    (net : nat -> FetchOutcome T) :
  1 <= maxRetries (retryConfig this) ->
  (forall k, (k < Z.to_nat (maxRetries (retryConfig this)))%nat ->
     exists error, RetryableFailure (net k) error) ->
  (exists last,
     RetryableFailure (net (Z.to_nat (maxRetries (retryConfig this)) - 1)%nat) last
     /\ makeRequest newURL this endpoint options (initial net) =
          (Throw (Normalized (handleError last)),
           mkWorld net (Z.to_nat (maxRetries (retryConfig this)))
             (backoffTrace this (buildURL newURL this endpoint (params options))
                (fetchOptions options)
                (Z.to_nat (maxRetries (retryConfig this))) 1)))
  /\ (forall n,
        calculateBackoffDelay this n =
          Z.min (baseDelay (retryConfig this) * 2 ^ (n - 1))
            (maxDelay (retryConfig this)))
  /\ (forall url fetchOptions remaining attempt lastError (w : World T) error,
        RetryableFailure (network w (calls w)) error ->
        attempt < maxRetries (retryConfig this) ->
        attemptLoop this url fetchOptions (S remaining) attempt lastError w =
          attemptLoop this url fetchOptions remaining (attempt + 1) error
            (slept (Num (Z.min (baseDelay (retryConfig this) * 2 ^ (attempt - 1))
                           (maxDelay (retryConfig this))))
               (fetched url fetchOptions w))).
Proof.
  intros Hbudget Hall.
  split; [|split; [reflexivity|]].
  - unfold makeRequest.
    destruct (Z.to_nat (maxRetries (retryConfig this))) as [|count] eqn:E; [lia|].
    destruct (attemptLoop_all_retryable this
                (buildURL newURL this endpoint (params options))
                (fetchOptions options) count 1 CUndefined (initial net))
      as (last & Hlast & Hrun).
    + lia.
    + intros k Hk. apply Hall. cbn [calls initial]. lia.
    + exists last. cbn [network calls initial Nat.add] in Hlast.
      split; [now replace (S count - 1)%nat with count by lia|].
      exact Hrun.
  - intros url fetchOptions remaining attempt lastError w error Hfail Hlt.
    rewrite (attemptLoop_retryable this url fetchOptions _ _ _ _ _ Hfail).
    destruct (Z.ltb_spec attempt (maxRetries (retryConfig this))); [|lia].
    reflexivity.
Qed.

Lemma retryable_failures_backoff_witness :
  exists last,
    RetryableFailure (Scenario.always (Resolved Scenario.internalError) 2%nat) last
    /\ makeRequest Url.plain Scenario.client "/members/me/boards"
         Scenario.getBoards
         (initial (Scenario.always (Resolved Scenario.internalError))) =
       (Throw (Normalized (handleError last)),
        mkWorld (Scenario.always (Resolved Scenario.internalError)) 3
          [EvFetch Scenario.boardsURL GET; EvSleep (Num 1000);
           EvFetch Scenario.boardsURL GET; EvSleep (Num 2000);
           EvFetch Scenario.boardsURL GET]).
Proof.
  apply (proj1 (retryable_failures_backoff Url.plain Scenario.client
                  "/members/me/boards" Scenario.getBoards
                  (Scenario.always (Resolved Scenario.internalError))
                  ltac:(vm_compute; discriminate)
                  ltac:(intros k _; exists (CResponse Scenario.internalError);
                        apply ServerFailure; vm_compute; discriminate))).
Defined.

(** ** What leaves [makeRequest] *)

Section Normalisation.

Context {T : Type}.
Variable this : TrelloClient.
Variables (url : string) (fetchOptions : FetchOptions).

(** The [catch] block throws nothing but a normalised error. *)
Lemma catchBlock_throws attempt error (w : World T) v :
  fst (catchBlock this attempt error w) = Some v ->
  v = Normalized (handleError error).
Proof.
  unfold catchBlock.
  destruct (isResponse429 error); [discriminate|].
  destruct ((attempt <? maxRetries (retryConfig this)) && shouldRetry error);
    [discriminate|].
  now intros [= <-].
Qed.

(** Whatever the network does, the loop ends, and what it throws is the
    normalisation of some caught value. *)
Lemma attemptLoop_throws remaining :
  forall attempt lastError (w : World T) v,
    fst (attemptLoop this url fetchOptions remaining attempt lastError w) = Throw v ->
    exists error : Caught T, v = Normalized (handleError error).
Proof.
  induction remaining as [|remaining IH]; intros attempt lastError w v.
  - cbn. intros [= <-]. now exists lastError.
  - cbn [attemptLoop]. unfold mbind, IO_bind.
    destruct (tryBlock url fetchOptions w) as [[result| |error] w1].
    + discriminate.
    + apply IH.
    + pose proof (catchBlock_throws attempt error w1) as Hcatch.
      destruct (catchBlock this attempt error w1) as [[v'|] w2].
      * cbn. intros [= <-]. exists error. now apply Hcatch.
      * apply IH.
Qed.

End Normalisation.

(** C7: a call that fails throws one value, and that value is a normalised
    error: the result of [handleError] on a caught value, with a message,
    one of the nine codes, and optional status and detail.  A raw error or
    response never leaves [makeRequest]. *)
Theorem makeRequest_throws_normalized {T} (newURL : string -> Url.URL)
    (this : TrelloClient) (endpoint : string) (options : RequestOptions)
    (w : World T) :
  match fst (makeRequest newURL this endpoint options w) with
  | Return _ => True
  | Throw (Raw _) => False
  | Throw (Normalized e) =>
      (exists error : Caught T, e = handleError error)
      /\ exists code, TrelloError.code e = Some code /\ In code errorCodes
  end.
Proof.
  unfold makeRequest.
  pose proof (attemptLoop_throws this
                (buildURL newURL this endpoint (params options))
                (fetchOptions options)
                (Z.to_nat (maxRetries (retryConfig this))) 1 CUndefined w) as H.
  destruct (fst (attemptLoop _ _ _ _ _ _ w)) as [result|v]; [exact I|].
  destruct (H v eq_refl) as (error & ->).
  split; [now exists error|apply handleError_code_known].
Qed.

(** ** Successful responses *)

(** C8 (as the code has it): an attempt answered with a status in 200-299
    whose body parses returns [{ data, rateLimit }] at once: the only effect
    is that one request.  When [json()] rejects instead, the rejection goes
    through the [catch] block like any other thrown value. *)
Theorem success_returns_immediately {T} (this : TrelloClient) (url : string)
    (init : FetchOptions) (remaining : nat) (attempt : Z)
    (lastError : Caught T) (w : World T) (r : Response T) :
  network w (calls w) = Resolved r ->
  200 <= status r <= 299 ->
  (forall payload,
     json r = inr payload ->
     attemptLoop this url init (S remaining) attempt lastError w =
       (Return (mkApiResponse payload (extractRateLimitInfo r)),
        fetched url init w))
  /\ (forall e,
        json r = inl e ->
        attemptLoop this url init (S remaining) attempt lastError w =
          let '(thrown, w') := catchBlock this attempt (CError e) (fetched url init w) in
          match thrown with
          | None => attemptLoop this url init remaining (attempt + 1) (CError e) w'
          | Some v => (Throw v, w')
          end).
Proof.
  intros Hr Hrange. apply ok_range in Hrange. split.
  - intros payload Hjson. now apply attemptLoop_returns.
  - intros e Hjson. cbn [attemptLoop]. unfold mbind, IO_bind.
    rewrite (tryBlock_bad_body url init w r e Hr Hrange Hjson).
    now destruct (catchBlock this attempt (CError e) (fetched url init w))
      as [[v|] w'].
Qed.

Lemma success_returns_immediately_witness :
  attemptLoop Scenario.client Scenario.boardsURL GET 3 1 CUndefined
    (initial (Scenario.always (Resolved (Scenario.okList Scenario.quotaHeaders)))) =
    (Return (mkApiResponse "[]"
               (Some (mkRateLimitInfo (Num 300) (Num 250) (Num 1234567890)))),
     mkWorld (Scenario.always (Resolved (Scenario.okList Scenario.quotaHeaders))) 1
       [EvFetch Scenario.boardsURL GET]).
Proof.
  exact (proj1
           (success_returns_immediately Scenario.client Scenario.boardsURL GET 2 1
              CUndefined
              (initial (Scenario.always
                          (Resolved (Scenario.okList Scenario.quotaHeaders))))
              (Scenario.okList Scenario.quotaHeaders) eq_refl
              ltac:(split; vm_compute; discriminate))
           "[]" eq_refl).
Defined.

(** C8 fails as stated: a 204 response has no body to parse, [json()]
    rejects, and the call throws instead of returning. *)
Lemma empty_success_body_throws :
  200 <= status Scenario.noContent <= 299
  /\ makeRequest Url.plain Scenario.client "/members/me/boards" Scenario.getBoards
       (initial (Scenario.always (Resolved Scenario.noContent))) =
     (Throw (Normalized
        (TrelloError.mk "Unknown error occurred"
           (Some "Unexpected end of JSON input") None (Some "UNKNOWN_ERROR"))),
      mkWorld (Scenario.always (Resolved Scenario.noContent)) 1
        [EvFetch Scenario.boardsURL GET]).
Proof.
  split; [split; vm_compute; discriminate|].
  vm_compute. reflexivity.
Qed.

(** ** Rate-limit headers *)

(** C4 (as the code has it): a snapshot is produced exactly when the limit
    header is present and not empty.  Its [limit] is the integer read from
    that header, or 300 when nothing can be read or the integer is 0 (a
    numeral too long for a double is read as an infinity, which is kept);
    its [remaining] and [resetTime] are read by [parseInt] from their
    headers, a missing or empty header counting as "0". *)
Theorem extractRateLimitInfo_snapshot {T} (r : Response T) :
  (is_Some (extractRateLimitInfo r) <->
   exists value,
     headers r !! "x-rate-limit-api-key-limit" = Some value /\ value <> "")
  /\ forall info, extractRateLimitInfo r = Some info ->
       (exists value,
          headers r !! "x-rate-limit-api-key-limit" = Some value
          /\ limit info =
               match Js.parseInt value with
               | Num z => if z =? 0 then Num 300 else Num z
               | NaN => Num 300
               | Infinity negative => Infinity negative
               end)
       /\ (headers r !! "x-rate-limit-api-key-remaining" = None
           \/ headers r !! "x-rate-limit-api-key-remaining" = Some "" ->
           remaining info = Num 0)
       /\ (forall value,
             headers r !! "x-rate-limit-api-key-remaining" = Some value ->
             value <> "" -> remaining info = Js.parseInt value)
       /\ (headers r !! "x-rate-limit-api-key-reset" = None
           \/ headers r !! "x-rate-limit-api-key-reset" = Some "" ->
           resetTime info = Num 0)
       /\ (forall value,
             headers r !! "x-rate-limit-api-key-reset" = Some value ->
             value <> "" -> resetTime info = Js.parseInt value).
Proof.
  unfold extractRateLimitInfo.
  destruct (headers r !! "x-rate-limit-api-key-limit") as [value|] eqn:Hlimit.
  - destruct value as [|c value]; cbn [Js.truthy_string].
    + split.
      * split; [intros [? [=]]|intros (v & [= <-] & Hv); congruence].
      * intros info [=].
    + split.
      * split; [intros _; eexists; split; [reflexivity|discriminate]|eauto].
      * intros info [= <-]. cbn [limit remaining resetTime].
        split.
        { eexists. split; [reflexivity|].
          unfold Js.or, Js.truthy.
          destruct (Js.parseInt (String c value)) as [z| |negative];
            [|reflexivity|reflexivity].
          now destruct (z =? 0). }
        split; [intros [-> | ->]; reflexivity|].
        split.
        { intros v -> Hv. destruct v; [congruence|reflexivity]. }
        split; [intros [-> | ->]; reflexivity|].
        intros v -> Hv. destruct v; [congruence|reflexivity].
  - split.
    + split; [intros [? [=]]|intros (v & [=] & _)].
    + intros info [=].
Qed.

(** C4 fails as stated in three ways: an empty limit header gives no
    snapshot, a limit header reading 0 gives limit 300, and a remaining
    header that is not a number gives [NaN], not 0. *)
Lemma rate_limit_snapshot_deviations :
  (({["x-rate-limit-api-key-limit" := ""]} : gmap string string)
     !! "x-rate-limit-api-key-limit" = Some ""
   /\ extractRateLimitInfo
        (Scenario.okList {["x-rate-limit-api-key-limit" := ""]}) = None)
  /\ (Js.parseInt "0" = Num 0
      /\ extractRateLimitInfo
           (Scenario.okList {["x-rate-limit-api-key-limit" := "0"]}) =
         Some (mkRateLimitInfo (Num 300) (Num 0) (Num 0)))
  /\ extractRateLimitInfo
       (Scenario.okList
          {["x-rate-limit-api-key-limit" := "300";
            "x-rate-limit-api-key-remaining" := "many"]}) =
     Some (mkRateLimitInfo (Num 300) NaN (Num 0)).
Proof. vm_compute. repeat split. Qed.

(** The three headers of a usual Trello answer. *)
Example extractRateLimitInfo_usual :
  extractRateLimitInfo (Scenario.okList Scenario.quotaHeaders) =
    Some (mkRateLimitInfo (Num 300) (Num 250) (Num 1234567890)).
Proof. vm_compute. reflexivity. Qed.

(** ** URL construction *)

Section SearchParams.

Lemma get_remove_ne (name k : string) (l : Url.SearchParams) :
  k <> name -> Url.get k (Url.remove name l) = Url.get k l.
Proof.
  intros Hne. induction l as [|[n v] l IH]; [reflexivity|].
  cbn. destruct (String.eqb_spec n name) as [->|Hn]; cbn.
  - destruct (String.eqb_spec name k); [congruence|exact IH].
  - destruct (String.eqb_spec n k); [reflexivity|exact IH].
Qed.

Lemma get_set_eq (name value : string) (l : Url.SearchParams) :
  Url.get name (Url.set name value l) = Some value.
Proof.
  induction l as [|[n v] l IH]; cbn.
  - now rewrite String.eqb_refl.
  - destruct (String.eqb_spec n name) as [->|Hn]; cbn.
    + now rewrite String.eqb_refl.
    + destruct (String.eqb_spec n name); [contradiction|exact IH].
Qed.

Lemma get_set_ne (name k value : string) (l : Url.SearchParams) :
  k <> name -> Url.get k (Url.set name value l) = Url.get k l.
Proof.
  intros Hne. induction l as [|[n v] l IH]; cbn.
  - destruct (String.eqb_spec name k); [congruence|reflexivity].
  - destruct (String.eqb_spec n name) as [->|Hn]; cbn.
    + destruct (String.eqb_spec name k); [congruence|].
      now apply get_remove_ne.
    + destruct (String.eqb_spec n k); [reflexivity|exact IH].
Qed.

(** A text without lone surrogate is a [USVString] already. *)
Lemma to_usv_well_formed (s : string) :
  Url.lone_surrogate s = false -> Url.to_usv s = s.
Proof.
  induction s as [|c s IH]; [reflexivity|].
  cbn [Url.lone_surrogate Url.to_usv]. intros [Hstart Hrest]%orb_false_iff.
  destruct s as [|d s]; [reflexivity|].
  rewrite Hstart. f_equal. now apply IH.
Qed.

(** The conversion leaves no lone surrogate. *)
Lemma lone_surrogate_replacement (t : string) :
  Url.lone_surrogate (String "239" (String "191" (String "189" t))) =
    Url.lone_surrogate t.
Proof. cbn [Url.lone_surrogate]. now destruct t. Qed.

Lemma to_usv_cons (c d : ascii) (rest : string) :
  Url.to_usv (String c (String d rest)) =
    if Url.surrogate_start c d then
      String "239" (String "191" (String "189"
        match rest with
        | String _ rest'' => Url.to_usv rest''
        | EmptyString => EmptyString
        end))
    else String c (Url.to_usv (String d rest)).
Proof. reflexivity. Qed.

(** The first byte of a converted text is the first byte of the text, or
    the first byte of U+FFFD. *)
Lemma to_usv_head (d : ascii) (rest : string) :
  exists x t,
    Url.to_usv (String d rest) = String x t
    /\ (x = d \/ x = "239"%char).
Proof.
  destruct rest as [|e rest]; [now exists d, EmptyString; split; [|left]|].
  rewrite to_usv_cons. destruct (Url.surrogate_start d e);
    eexists _, _; (split; [reflexivity|]); [now right|now left].
Qed.

Lemma to_usv_no_surrogate (s : string) : Url.lone_surrogate (Url.to_usv s) = false.
Proof.
  assert (H : forall n s', (String.length s' <= n)%nat ->
            Url.lone_surrogate (Url.to_usv s') = false).
  { intros n. induction n as [|n IH]; intros s' Hlen.
    - destruct s'; [reflexivity|cbn in Hlen; lia].
    - destruct s' as [|c [|d rest]]; [reflexivity|reflexivity|].
      rewrite to_usv_cons. destruct (Url.surrogate_start c d) eqn:Hstart.
      + rewrite lone_surrogate_replacement.
        destruct rest as [|e rest]; [reflexivity|].
        apply IH. cbn in Hlen. lia.
      + assert (Htail : Url.lone_surrogate (Url.to_usv (String d rest)) = false)
          by (apply IH; cbn in Hlen |- *; lia).
        destruct (to_usv_head d rest) as (x & t & Et & Hx).
        rewrite Et in Htail |- *.
        change (Url.lone_surrogate (String c (String x t)))
          with (Url.surrogate_start c x || Url.lone_surrogate (String x t)).
        rewrite Htail, orb_false_r.
        destruct Hx as [->| ->]; [exact Hstart|].
        unfold Url.surrogate_start. now rewrite andb_false_r. }
  exact (H (String.length s) s (le_n _)).
Qed.

(** The names of the converted entries are the converted names. *)
Lemma usvEntries_names (entries : Params) :
  map fst (usvEntries entries) = map Url.to_usv (map fst entries).
Proof. unfold usvEntries. now rewrite !map_map. Qed.

(** Entries without lone surrogate are taken as they are. *)
Lemma usvEntries_well_formed (entries : Params) :
  (forall k ov, In (k, ov) entries ->
     Url.lone_surrogate k = false
     /\ forall v, ov = Some v -> Url.lone_surrogate v = false) ->
  usvEntries entries = entries.
Proof.
  induction entries as [|[k ov] entries IH]; intros Hwell; [reflexivity|].
  cbn [usvEntries map fst snd]. f_equal.
  - destruct (Hwell k ov (or_introl eq_refl)) as [Hk Hv].
    rewrite (to_usv_well_formed k Hk).
    destruct ov as [v|]; [|reflexivity]. cbn.
    now rewrite (to_usv_well_formed v (Hv v eq_refl)).
  - apply IH. intros k' ov' Hin. apply Hwell. now right.
Qed.

(** A text that is stored as a text free of the byte [EF], with which
    U+FFFD starts, is that text: only the name [key] is stored as [key]. *)
Lemma to_usv_eq_plain (name target : string) :
  ~ In "239"%char (list_ascii_of_string target) ->
  Url.to_usv name = target -> name = target.
Proof.
  assert (H : forall n s, (String.length s <= n)%nat ->
            forall t, ~ In "239"%char (list_ascii_of_string t) ->
                      Url.to_usv s = t -> s = t).
  { intros n. induction n as [|n IH]; intros s Hlen t Ht.
    - destruct s; [now intros <-|cbn in Hlen; lia].
    - destruct s as [|c [|d rest]]; [now intros <-|now intros <-|].
      rewrite to_usv_cons. destruct (Url.surrogate_start c d) eqn:Hstart.
      + intros <-. destruct Ht. now left.
      + intros <-. f_equal.
        apply (IH (String d rest)); [cbn in Hlen |- *; lia| |reflexivity].
        intros Hin. apply Ht. now right. }
  intros Htarget. exact (H (String.length name) name (le_n _) target Htarget).
Qed.

(** Writing the entries one after the other leaves, under each name, the
    last defined value, and what was there before under the other names;
    names and values are those [URLSearchParams] stores. *)
Lemma get_addParams (entries : Params) :
  forall (url : Url.URL) (k : string),
    Url.get k (Url.searchParams (fold_left addParam entries url)) =
      match lastDefined k (usvEntries entries) with
      | Some v => Some v
      | None => Url.get k (Url.searchParams url)
      end.
Proof.
  induction entries as [|[n ov] entries IH]; intros url k; [reflexivity|].
  cbn [fold_left usvEntries map lastDefined fst snd]. fold (usvEntries entries).
  rewrite IH.
  destruct (lastDefined k (usvEntries entries)); [reflexivity|].
  unfold addParam. cbn [fst snd].
  destruct ov as [v|].
  - cbn [Url.searchParams_set Url.searchParams fmap option_fmap option_map].
    destruct (String.eqb_spec (Url.to_usv n) k) as [<-|Hn].
    + apply get_set_eq.
    + apply get_set_ne. congruence.
  - cbn. now destruct (Url.to_usv n =? k)%string.
Qed.

Lemma addParams_frame (entries : Params) :
  forall url : Url.URL,
    Url.origin_path (fold_left addParam entries url) = Url.origin_path url
    /\ Url.hash (fold_left addParam entries url) = Url.hash url.
Proof.
  induction entries as [|[n ov] entries IH]; intros url; [now split|].
  cbn [fold_left]. destruct (IH (addParam url (n, ov))) as [-> ->].
  unfold addParam. cbn [snd]. now destruct ov.
Qed.

Lemma lastDefined_absent (k : string) (entries : Params) :
  (forall v, ~ In (k, Some v) entries) -> lastDefined k entries = None.
Proof.
  induction entries as [|[n ov] entries IH]; intros Habs; [reflexivity|].
  cbn [lastDefined]. rewrite IH by (intros v Hv; apply (Habs v); now right).
  destruct (String.eqb_spec n k) as [->|]; [|reflexivity].
  destruct ov as [v|]; [|reflexivity].
  destruct (Habs v). now left.
Qed.

Lemma lastDefined_fresh (k : string) (entries : Params) :
  ~ In k (map fst entries) -> lastDefined k entries = None.
Proof.
  intros Hfresh. apply lastDefined_absent. intros v Hv. apply Hfresh.
  change k with (fst (k, Some v)). now apply in_map.
Qed.


Lemma append_empty (s : string) : s +:+ "" = s.
Proof.
  induction s as [|c s IH]; [reflexivity|].
  change (String c (s +:+ "") = String c s). now rewrite IH.
Qed.

(** The serialisation of a list that is not empty is not the empty string. *)
Lemma serialize_truthy (l : Url.SearchParams) :
  l <> [] -> Js.truthy_string (Url.serialize l) = true.
Proof.
  destruct l as [|[n v] l]; [congruence|]. intros _.
  cbn [Url.serialize].
  assert (H : forall a b, Js.truthy_string (a +:+ String "=" b) = true)
    by (intros [|] b; reflexivity).
  destruct l; apply H.
Qed.

End SearchParams.

Section BuildURL.

Variable newURL : string -> Url.URL.
Variable this : TrelloClient.

(** The value [buildURL] leaves under each name: the last defined value of
    the extra parameters, else the credential for [key] and [token], else
    what the endpoint itself carried; all as [URLSearchParams] stores
    them. *)
Lemma buildURL_object_get (endpoint : string) (params : option Params) (k : string) :
  Url.get k (Url.searchParams (buildURL_object newURL this endpoint params)) =
    match lastDefined k (usvEntries (default [] params)) with
    | Some v => Some v
    | None =>
        Url.get k
          (Url.set "token" (Url.to_usv (token (credentials this)))
             (Url.set "key" (Url.to_usv (apiKey (credentials this)))
                (Url.searchParams (newURL (baseURL this +:+ endpoint)))))
    end.
Proof.
  unfold buildURL_object. destruct params as [entries|]; [|reflexivity].
  now rewrite get_addParams.
Qed.

Lemma buildURL_object_frame (endpoint : string) (params : option Params) :
  Url.origin_path (buildURL_object newURL this endpoint params) =
    Url.origin_path (newURL (baseURL this +:+ endpoint))
  /\ Url.hash (buildURL_object newURL this endpoint params) =
       Url.hash (newURL (baseURL this +:+ endpoint)).
Proof.
  unfold buildURL_object. destruct params as [entries|]; [|now split].
  destruct (addParams_frame entries
              (Url.searchParams_set "token" (token (credentials this))
                 (Url.searchParams_set "key" (apiKey (credentials this))
                    (newURL (baseURL this +:+ endpoint))))) as [-> ->].
  now split.
Qed.

Lemma buildURL_object_key (endpoint : string) (params : option Params) :
  Url.get "key" (Url.searchParams (buildURL_object newURL this endpoint params)) =
    Some (default (Url.to_usv (apiKey (credentials this)))
            (lastDefined "key" (usvEntries (default [] params)))).
Proof.
  rewrite buildURL_object_get.
  destruct (lastDefined "key" (usvEntries (default [] params))); [reflexivity|].
  rewrite get_set_ne by discriminate. now rewrite get_set_eq.
Qed.


(** A name free of the byte [EF] is stored under that name only. *)
Lemma usvEntries_fresh (name : string) (entries : Params) :
  ~ In "239"%char (list_ascii_of_string name) ->
  ~ In name (map fst entries) ->
  ~ In name (map fst (usvEntries entries)).
Proof.
  intros Hplain Hfresh. rewrite usvEntries_names. intros Hin.
  apply in_map_iff in Hin as (k & Hk & Hin).
  apply (to_usv_eq_plain k name Hplain) in Hk. now subst k.
Qed.


End BuildURL.

(** The URL always has a query: what the parser made of the address up to
    the query, [?], the serialised parameters, and the fragment. *)
Lemma buildURL_shape (newURL : string -> Url.URL) (this : TrelloClient)
    (endpoint : string) (params : option Params) :
  buildURL newURL this endpoint params =
    Url.origin_path (newURL (baseURL this +:+ endpoint))
    +:+ ("?" +:+ Url.serialize
                   (Url.searchParams (buildURL_object newURL this endpoint params)))
    +:+ Url.hash (newURL (baseURL this +:+ endpoint)).
Proof.
  unfold buildURL, Url.toString.
  destruct (buildURL_object_frame newURL this endpoint params) as [-> ->].
  rewrite serialize_truthy; [reflexivity|].
  intros Hempty.
  pose proof (buildURL_object_key newURL this endpoint params) as Hkey.
  rewrite Hempty in Hkey. discriminate.
Qed.

(** With an address the parser leaves as it is, the URL is the base address,
    the endpoint, [?] and the serialised parameters. *)
Lemma buildURL_plain (newURL : string -> Url.URL) (this : TrelloClient)
    (endpoint : string) (params : option Params) :
  newURL (baseURL this +:+ endpoint) = Url.plain (baseURL this +:+ endpoint) ->
  buildURL newURL this endpoint params =
    (baseURL this +:+ endpoint) +:+ "?"
    +:+ Url.serialize
          (Url.searchParams (buildURL_object newURL this endpoint params)).
Proof.
  intros Hplain. rewrite buildURL_shape, Hplain.
  cbn [Url.plain Url.origin_path Url.hash]. now rewrite append_empty.
Qed.




(** ** The search query *)

Section DoubleEncoding.

(** Serialising a percent-encoded byte encodes its [%] once more and keeps
    the two hexadecimal digits. *)
Lemma form_encode_percent (c : ascii) (rest : string) :
  Url.form_encode (Url.percent_encode c rest) =
    let n := nat_of_ascii c in
    String "%" (String "2" (String "5"
      (String (Url.hex_digit (n / 16)) (String (Url.hex_digit (n mod 16))
         (Url.form_encode rest))))).
Proof.
  destruct c as [[|] [|] [|] [|] [|] [|] [|] [|]]; reflexivity.
Qed.

Lemma form_encode_encode_bytes_reserved (c : ascii) (rest : string) :
  Url.uri_unreserved c = false ->
  Url.form_encode (Url.encode_bytes (String c rest)) =
    String "%" (String "2" (String "5"
      (String (Url.hex_digit (nat_of_ascii c / 16))
         (String (Url.hex_digit (nat_of_ascii c mod 16))
            (Url.form_encode (Url.encode_bytes rest)))))).
Proof.
  intros H. cbn [Url.encode_bytes]. rewrite H.
  apply form_encode_percent.
Qed.

Lemma encode_bytes_app (a b : string) :
  Url.encode_bytes (a +:+ b) = Url.encode_bytes a +:+ Url.encode_bytes b.
Proof.
  induction a as [|c a IH]; [reflexivity|].
  change (String c a +:+ b) with (String c (a +:+ b)).
  cbn [Url.encode_bytes]. rewrite IH.
  now destruct (Url.uri_unreserved c).
Qed.

Lemma form_encode_app (a b : string) :
  Url.form_encode (a +:+ b) = Url.form_encode a +:+ Url.form_encode b.
Proof.
  induction a as [|c a IH]; [reflexivity|].
  change (String c a +:+ b) with (String c (a +:+ b)).
  cbn [Url.form_encode]. rewrite IH.
  destruct (Ascii.eqb c " "); [reflexivity|].
  now destruct (Url.form_safe c).
Qed.

(** Wherever it stands in the query, a byte that [encodeURIComponent]
    escapes is on the wire as [%25] and its two digits. *)
Lemma double_encoding_at (before after : string) (c : ascii) :
  Url.uri_unreserved c = false ->
  Url.form_encode (Url.encode_bytes (before +:+ String c after)) =
    Url.form_encode (Url.encode_bytes before)
    +:+ String "%" (String "2" (String "5"
          (String (Url.hex_digit (nat_of_ascii c / 16))
             (String (Url.hex_digit (nat_of_ascii c mod 16))
                (Url.form_encode (Url.encode_bytes after)))))).
Proof.
  intros H. rewrite encode_bytes_app, form_encode_app.
  now rewrite form_encode_encode_bytes_reserved.
Qed.

(** What [encodeURIComponent] returns is the encoding of the bytes, and the
    text then has no lone surrogate; what it throws is the [URIError]. *)
Lemma encodeURIComponent_cases (s : string) :
  (Url.lone_surrogate s = false
   /\ Url.encodeURIComponent s = inr (Url.encode_bytes s))
  \/ (Url.lone_surrogate s = true
      /\ Url.encodeURIComponent s = inl Url.uriError).
Proof.
  unfold Url.encodeURIComponent.
  destruct (Url.lone_surrogate s); [right|left]; now split.
Qed.

(** The parameters of a search whose query can be encoded. *)
Lemma search_params_encoded (query encoded : string)
    (options : option SearchOptions) :
  Url.encodeURIComponent query = inr encoded ->
  search_params query options =
    inr (("query", Some encoded)
         :: whenArray "modelTypes" (modelTypes (default noSearchOptions options))
         ++ whenArray "idBoards" (boardIds (default noSearchOptions options))
         ++ whenNumber "boards_limit" (boardsLimit (default noSearchOptions options))
         ++ whenNumber "cards_limit" (cardsLimit (default noSearchOptions options))
         ++ whenNumber "members_limit"
              (membersLimit (default noSearchOptions options))).
Proof. intros H. unfold search_params. now rewrite H. Qed.

(** Percent-encoding writes no byte of a surrogate. *)
Lemma lone_surrogate_cons (c : ascii) (t : string) :
  (nat_of_ascii c =? 237)%nat = false ->
  Url.lone_surrogate (String c t) = Url.lone_surrogate t.
Proof.
  intros Hc. cbn [Url.lone_surrogate]. unfold Url.surrogate_start.
  rewrite Hc. now destruct t.
Qed.

Lemma unreserved_not_surrogate (c : ascii) :
  Url.uri_unreserved c = true -> (nat_of_ascii c =? 237)%nat = false.
Proof.
  destruct c as [[|] [|] [|] [|] [|] [|] [|] [|]]; try discriminate; reflexivity.
Qed.

Lemma lone_surrogate_percent_encode (c : ascii) (t : string) :
  Url.lone_surrogate (Url.percent_encode c t) = Url.lone_surrogate t.
Proof.
  unfold Url.percent_encode.
  destruct c as [[|] [|] [|] [|] [|] [|] [|] [|]];
    now rewrite !lone_surrogate_cons by reflexivity.
Qed.

Lemma encode_bytes_no_surrogate (s : string) :
  Url.lone_surrogate (Url.encode_bytes s) = false.
Proof.
  induction s as [|c s IH]; [reflexivity|].
  cbn [Url.encode_bytes]. destruct (Url.uri_unreserved c) eqn:Hc.
  - now rewrite lone_surrogate_cons by (now apply unreserved_not_surrogate).
  - now rewrite lone_surrogate_percent_encode.
Qed.

(** The names [search] may add after [query] are other names, and the
    encoded query is stored as it is. *)
Lemma search_params_query (query : string) (options : option SearchOptions)
    (entries : Params) :
  search_params query options = inr entries ->
  Url.encodeURIComponent query = inr (Url.encode_bytes query)
  /\ lastDefined "query" (usvEntries entries) = Some (Url.encode_bytes query).
Proof.
  destruct (encodeURIComponent_cases query) as [[_ Henc]|[_ Henc]];
    [|unfold search_params; rewrite Henc; discriminate].
  rewrite (search_params_encoded _ _ options Henc). intros [= <-].
  split; [exact Henc|].
  assert (Harray : forall key v, key <> "query" ->
            ~ In "query" (map fst (whenArray key v)))
    by (intros key [parts|] Hkey; cbn; [intros [H|[]]; now apply Hkey|tauto]).
  assert (Hnumber : forall key v, key <> "query" ->
            ~ In "query" (map fst (whenNumber key v))).
  { intros key [n|] Hkey; cbn; [|tauto].
    destruct (Js.truthy n); cbn; [|tauto]. intros [H|[]]. now apply Hkey. }
  cbn [usvEntries map fst snd lastDefined fmap option_fmap option_map].
  match goal with
  | |- context [lastDefined "query" (map ?f ?l)] =>
      change (map f l) with (usvEntries l)
  end.
  rewrite lastDefined_fresh.
  - change (Url.to_usv "query") with "query". rewrite String.eqb_refl.
    now rewrite to_usv_well_formed by apply encode_bytes_no_surrogate.
  - apply usvEntries_fresh; [cbn; intuition discriminate|].
    rewrite !map_app, !in_app_iff.
    intros [H|[H|[H|[H|H]]]];
      [eapply Harray|eapply Harray|eapply Hnumber|eapply Hnumber|eapply Hnumber];
      try exact H; discriminate.
Qed.

End DoubleEncoding.

(** C10 (as the code has it): for a query that [encodeURIComponent] accepts
    (one without a lone surrogate), [search] stores the encoded text under
    [query], and the URL serialiser encodes that text again, so every byte of
    the query that [encodeURIComponent] escapes reaches the wire as [%25]
    followed by its two hexadecimal digits (a space as [%2520]); that URL is
    the one [search] requests.  On a query with a lone surrogate
    [encodeURIComponent] throws, and [search] rejects with the [URIError]
    without any request.  The other operations hand the caller's strings to
    the serialiser as they are. *)
Theorem search_query_double_encoded (newURL : string -> Url.URL)
    (this : TrelloClient) (query : string) (options : option SearchOptions) :
  Url.lone_surrogate query = false ->
  (exists entries,
     search_params query options = inr entries
     /\ Url.encodeURIComponent query = inr (Url.encode_bytes query)
     /\ Url.get "query"
          (Url.searchParams
             (buildURL_object newURL this "/search" (Some entries))) =
        Some (Url.encode_bytes query)
     /\ (forall T (w : World T),
           1 <= maxRetries (retryConfig this) ->
           exists n tail,
             extends w (snd (search newURL this query options w)) (S n)
               (EvFetch (buildURL newURL this "/search" (Some entries)) GET
                :: tail)))
  /\ (newURL (baseURL this +:+ "/search") = Url.plain (baseURL this +:+ "/search") ->
      exists entries,
        search_params query None = inr entries
        /\ buildURL newURL this "/search" (Some entries) =
             (baseURL this +:+ "/search") +:+ "?"
             +:+ "key="
             +:+ Url.form_encode (Url.to_usv (apiKey (credentials this)))
             +:+ "&" +:+ "token="
             +:+ Url.form_encode (Url.to_usv (token (credentials this)))
             +:+ "&" +:+ "query=" +:+ Url.form_encode (Url.encode_bytes query))
  /\ (forall before c after,
        query = before +:+ String c after ->
        Url.uri_unreserved c = false ->
        Url.form_encode (Url.encode_bytes query) =
          Url.form_encode (Url.encode_bytes before)
          +:+ String "%" (String "2" (String "5"
                (String (Url.hex_digit (nat_of_ascii c / 16))
                   (String (Url.hex_digit (nat_of_ascii c mod 16))
                      (Url.form_encode (Url.encode_bytes after)))))))
  /\ Url.form_encode (Url.encode_bytes " ") = "%2520"
  /\ (forall T (w : World T) (other : string),
        Url.lone_surrogate other = true ->
        search newURL this other options w =
          (Throw (Raw (CError Url.uriError)), w))
  /\ (forall filter, getMyBoards_params (Some filter) =
        [("filter", Some (if Js.truthy_string filter then filter else "open"))])
  /\ (forall filter, getBoardLists_params (Some filter) =
        [("filter", Some (if Js.truthy_string filter then filter else "open"))])
  /\ (forall filter fields, Js.truthy_string filter = true ->
        getListCards_params (Some filter) (Some fields) =
          [("filter", Some filter); ("fields", Some (Js.join "," fields))])
  /\ (forall fields boards organizations,
        Js.truthy_string boards = true -> Js.truthy_string organizations = true ->
        getMember_params (Some fields) (Some boards) (Some organizations) =
          [("fields", Some (Js.join "," fields)); ("boards", Some boards);
           ("organizations", Some organizations)])
  /\ (forall attachments members filter,
        Js.truthy_string attachments = true -> Js.truthy_string members = true ->
        Js.truthy_string filter = true ->
        getBoardCards_params (Some attachments) (Some members) (Some filter) =
          [("attachments", Some attachments); ("members", Some members);
           ("filter", Some filter)])
  /\ (forall filter, Js.truthy_string filter = true ->
        getCardActions_params (Some filter) None = [("filter", Some filter)])
  /\ (forall fields,
        getCardAttachments_params (Some fields) =
          [("fields", Some (Js.join "," fields))])
  /\ (forall checkItems fields, Js.truthy_string checkItems = true ->
        getCardChecklists_params (Some checkItems) (Some fields) =
          [("checkItems", Some checkItems); ("fields", Some (Js.join "," fields))])
  /\ (forall boardId name color,
        createLabel_params boardId name color =
          [("name", Some name); ("color", Some color); ("idBoard", Some boardId)])
  /\ (forall updates, updateLabel_params updates = updates)
  /\ (forall labelId, addLabelToCard_params labelId = [("value", Some labelId)]).
Proof.
  intros Hwell.
  assert (Henc : Url.encodeURIComponent query = inr (Url.encode_bytes query))
    by (unfold Url.encodeURIComponent; now rewrite Hwell).
  split.
  { eexists. split; [exact (search_params_encoded _ _ options Henc)|].
    split; [exact Henc|].
    pose proof (search_params_query query options _
                  (search_params_encoded _ _ options Henc)) as [_ Hlast].
    split.
    - rewrite buildURL_object_get. cbn [default from_option id].
      change (from_option id [] (Some ?l)) with l. now rewrite Hlast.
    - intros T w Hbudget. unfold search.
      rewrite (search_params_encoded _ _ options Henc). unfold makeRequest.
      cbn [params fetchOptions].
      match goal with
      | |- context [attemptLoop this ?u GET] =>
          destruct (attemptLoop_extends this u GET
                      (Z.to_nat (maxRetries (retryConfig this))) 1 CUndefined w)
            as (n & tail & Hext & _ & Hfirst)
      end.
      destruct Hfirst as (n' & tail' & -> & ->); [lia|].
      now exists n', tail'. }
  split.
  { intros Hplain. eexists.
    split; [exact (search_params_encoded _ _ None Henc)|].
    rewrite (buildURL_plain newURL this "/search" _ Hplain).
    unfold buildURL_object. rewrite Hplain.
    cbn [fold_left app addParam fst snd whenArray whenNumber default from_option
         noSearchOptions modelTypes boardIds boardsLimit cardsLimit membersLimit
         Url.searchParams_set Url.searchParams Url.plain Url.set].
    change (Url.to_usv "key") with "key". change (Url.to_usv "token") with "token".
    change (Url.to_usv "query") with "query".
    rewrite (to_usv_well_formed (Url.encode_bytes query))
      by apply encode_bytes_no_surrogate.
    reflexivity. }
  split.
  { intros before c after -> Hc. now apply double_encoding_at. }
  split; [reflexivity|].
  split.
  { intros T w other Hother. unfold search, search_params, Url.encodeURIComponent.
    now rewrite Hother. }
  repeat split; intros; cbn;
    repeat match goal with H : Js.truthy_string _ = true |- _ => rewrite H; clear H end;
    reflexivity.
Qed.

Lemma search_query_double_encoded_witness :
  Url.form_encode (Url.encode_bytes "to do") =
    Url.form_encode (Url.encode_bytes "to")
    +:+ "%2520" +:+ Url.form_encode (Url.encode_bytes "do").
Proof.
  exact (proj1 (proj2 (proj2
    (search_query_double_encoded Url.plain Scenario.client "to do" None eq_refl)))
    "to" " "%char "do" eq_refl eq_refl).
Defined.

(** C10 fails as stated: a query with a space and a lone surrogate (here
    U+D800, the bytes [ED A0 80]) is never encoded, neither once nor twice:
    [encodeURIComponent] throws and [search] issues no request. *)
Lemma search_rejects_lone_surrogate :
  let query := "to do" +:+ String "237" (String "160" (String "128" "")) in
  Url.uri_unreserved " " = false
  /\ Url.encodeURIComponent query = inl Url.uriError
  /\ search_params query None = inl Url.uriError
  /\ search (T := string) Url.plain Scenario.client query None
       (initial (Scenario.always (Resolved (Scenario.okList ∅)))) =
     (Throw (Raw (CError Url.uriError)),
      initial (Scenario.always (Resolved (Scenario.okList ∅)))).
Proof. vm_compute. repeat split. Qed.

(** A search for "to do" as it reaches the network. *)
Example search_wire :
  snd (search (T := string) Url.plain Scenario.client "to do" None
         (initial (Scenario.always (Resolved (Scenario.okList ∅))))) =
    mkWorld (Scenario.always (Resolved (Scenario.okList ∅))) 1
      [EvFetch "https://api.trello.com/1/search?key=KEY&token=TOKEN&query=to%2520do"
         GET].
Proof. vm_compute. reflexivity. Qed.

(** The same text as a label name is encoded once. *)
Example createLabel_wire :
  snd (createLabel (T := string) Url.plain Scenario.client
         "5f6e7d8c9b0a1e2d3c4b5a6f" "to do" "red"
         (initial (Scenario.always (Resolved (Scenario.okList ∅))))) =
    mkWorld (Scenario.always (Resolved (Scenario.okList ∅))) 1
      [EvFetch
         "https://api.trello.com/1/labels?key=KEY&token=TOKEN&name=to+do&color=red&idBoard=5f6e7d8c9b0a1e2d3c4b5a6f"
         (mkFetchOptions (Some "POST") None)].
Proof. vm_compute. reflexivity. Qed.

(** ** The 429 case of [handleError] *)

Section RateLimitCode.

Context {T : Type}.
Variable this : TrelloClient.
Variables (url : string) (fetchOptions : FetchOptions).

(** The code [RATE_LIMIT_EXCEEDED] is given to values with status 429 only. *)
Lemma handleError_rate_limit_code (error : Caught T) :
  TrelloError.code (handleError error) = Some "RATE_LIMIT_EXCEEDED" ->
  exists text, statusOf error = Some (429, text).
Proof.
  unfold handleError.
  destruct (isFetchTypeError error); [discriminate|].
  destruct (isAbortError error); [discriminate|].
  destruct (statusOf error) as [[st text]|]; [|discriminate].
  destruct (Z.eqb_spec st 429) as [->|Hne]; [intros _; now exists text|].
  repeat match goal with
         | |- context [if ?a =? ?b then _ else _] => destruct (a =? b)
         end; discriminate.
Qed.

(** What the [try] block throws has status 429 only if [fetch] rejected with
    it. *)
Lemma tryBlock_throws_429 (w w' : World T) (error : Caught T) (text : string) :
  tryBlock url fetchOptions w = (SThrow error, w') ->
  statusOf error = Some (429, text) ->
  network w (calls w) = Rejected error.
Proof.
  unfold tryBlock, mbind, IO_bind, fetchWithTimeout.
  destruct (network w (calls w)) as [r|c] eqn:E.
  - destruct (ok r); cbn [negb].
    + destruct (json r); intros [= <- _]; discriminate.
    + destruct (Z.eqb_spec (status r) 429) as [|Hne]; [discriminate|].
      intros [= <- _]. cbn [statusOf]. intros [= H429 _]. contradiction.
  - now intros [= <- _].
Qed.

(** As long as [fetch] rejects with no value of status 429, no thrown or
    stored value has that status, and the 429 case of [handleError] is never
    the one that produces the error of a call. *)
Lemma attemptLoop_never_rate_limit_code remaining :
  forall attempt lastError (w : World T) e,
    (forall k error text,
       network w k = Rejected error -> statusOf error <> Some (429, text)) ->
    (forall text, statusOf lastError <> Some (429, text)) ->
    fst (attemptLoop this url fetchOptions remaining attempt lastError w) =
      Throw (Normalized e) ->
    TrelloError.code e <> Some "RATE_LIMIT_EXCEEDED".
Proof.
  induction remaining as [|remaining IH]; intros attempt lastError w e Hnet Hlast.
  - cbn. intros [= <-] Hcode.
    apply handleError_rate_limit_code in Hcode as [text Hcode].
    now apply (Hlast text).
  - cbn [attemptLoop]. unfold mbind, IO_bind.
    destruct (tryBlock_extends url fetchOptions w) as (t1 & Hn1 & _).
    pose proof (tryBlock_throws_429 w) as H429.
    destruct (tryBlock url fetchOptions w) as [[result| |error] w1];
      cbn [snd] in Hn1.
    + discriminate.
    + apply IH; [|exact Hlast]. intros k. rewrite Hn1. apply Hnet.
    + assert (Herror : forall text, statusOf error <> Some (429, text)).
      { intros text Hst. apply (Hnet (calls w) error text); [|exact Hst].
        exact (H429 w1 error text eq_refl Hst). }
      destruct (catchBlock_extends this attempt error w1) as (t2 & Hn2 & _).
      pose proof (catchBlock_throws this attempt error w1) as Hcatch.
      destruct (catchBlock this attempt error w1) as [[v|] w2]; cbn [snd] in Hn2.
      * cbn. intros [= ->]. specialize (Hcatch _ eq_refl).
        injection Hcatch as ->. intros Hcode.
        apply handleError_rate_limit_code in Hcode as [text Hcode].
        now apply (Herror text).
      * apply IH; [|exact Herror]. intros k. rewrite Hn2, Hn1. apply Hnet.
Qed.

End RateLimitCode.

(** X11: no answer of the network, whatever its status, makes a call fail
    with [RATE_LIMIT_EXCEEDED]: as long as [fetch] does not itself reject
    with a value of status 429, no call ends with that code.  When [fetch]
    does reject with an object of status 429 that is no [Response] (the
    literal [{ status: 429 }], say), the call fails with that code at once. *)
Theorem makeRequest_never_rate_limit_code {T} (newURL : string -> Url.URL)
    (this : TrelloClient) (endpoint : string) (options : RequestOptions)
    (net : nat -> FetchOutcome T) :
  ((forall k error text,
      net k = Rejected error -> statusOf error <> Some (429, text)) ->
   forall e,
     fst (makeRequest newURL this endpoint options (initial net)) =
       Throw (Normalized e) ->
     TrelloError.code e <> Some "RATE_LIMIT_EXCEEDED")
  /\ (forall text,
        1 <= maxRetries (retryConfig this) ->
        net 0%nat = Rejected (CStatusObject None 429 text) ->
        makeRequest newURL this endpoint options (initial net) =
          (Throw (Normalized
             (TrelloError.mk "Rate limit exceeded" (Some ("429 - " +:+ text))
                (Some 429) (Some "RATE_LIMIT_EXCEEDED"))),
           mkWorld net 1
             [EvFetch (buildURL newURL this endpoint (params options))
                (fetchOptions options)])).
Proof.
  split.
  - intros Hnet e. unfold makeRequest.
    now apply attemptLoop_never_rate_limit_code.
  - intros text Hbudget Hnet. unfold makeRequest.
    destruct (Z.to_nat (maxRetries (retryConfig this))) as [|remaining] eqn:E;
      [lia|].
    assert (Htry := tryBlock_rejected
                      (buildURL newURL this endpoint (params options))
                      (fetchOptions options) (initial net) _ Hnet).
    rewrite (attemptLoop_gives_up this _ _ remaining 1 CUndefined _ _ _ Htry);
      [reflexivity|reflexivity|now right].
Qed.

Lemma makeRequest_never_rate_limit_code_witness :
  TrelloError.code
    (TrelloError.mk "Unknown error occurred" (Some "undefined") None
       (Some "UNKNOWN_ERROR")) <> Some "RATE_LIMIT_EXCEEDED".
Proof.
  apply (proj1 (makeRequest_never_rate_limit_code Url.plain Scenario.client
                  "/members/me/boards" Scenario.getBoards
                  (Scenario.always (Resolved Scenario.rateLimited)))).
  - intros k error text. discriminate.
  - reflexivity.
Defined.

(** A rejection with the literal [{ status: 429 }]: one request, then
    [RATE_LIMIT_EXCEEDED]. *)
Example rejected_status_object :
  makeRequest Url.plain Scenario.client "/members/me/boards" Scenario.getBoards
    (initial (Scenario.always (Rejected (CStatusObject None 429 "undefined")))) =
    (Throw (Normalized
       (TrelloError.mk "Rate limit exceeded" (Some "429 - undefined") (Some 429)
          (Some "RATE_LIMIT_EXCEEDED"))),
     mkWorld (Scenario.always (Rejected (CStatusObject None 429 "undefined"))) 1
       [EvFetch Scenario.boardsURL GET]).
Proof. vm_compute. reflexivity. Qed.

(** ** The examples of the specification *)

(** Three answers 500 in a row: three requests, sleeps of 1 s and 2 s, then
    [SERVER_ERROR] with status 500. *)
Example three_times_500 :
  makeRequest Url.plain Scenario.client "/members/me/boards" Scenario.getBoards
    (initial (Scenario.always (Resolved Scenario.internalError))) =
    (Throw (Normalized
       (TrelloError.mk "Trello server error" (Some "500 - Internal Server Error")
          (Some 500) (Some "SERVER_ERROR"))),
     mkWorld (Scenario.always (Resolved Scenario.internalError)) 3
       [EvFetch Scenario.boardsURL GET; EvSleep (Num 1000);
        EvFetch Scenario.boardsURL GET; EvSleep (Num 2000);
        EvFetch Scenario.boardsURL GET]).
Proof. vm_compute. reflexivity. Qed.

(** Two timeouts, then a success: the payload, after two back-off sleeps. *)
Example two_timeouts_then_success :
  let net :=
    Scenario.script [Rejected (CError Scenario.aborted);
                     Rejected (CError Scenario.aborted)]
      (Resolved (Scenario.okList ∅)) in
  makeRequest Url.plain Scenario.client "/members/me/boards" Scenario.getBoards
    (initial net) =
    (Return (mkApiResponse "[]" None),
     mkWorld net 3
       [EvFetch Scenario.boardsURL GET; EvSleep (Num 1000);
        EvFetch Scenario.boardsURL GET; EvSleep (Num 2000);
        EvFetch Scenario.boardsURL GET]).
Proof. vm_compute. reflexivity. Qed.

(** A 429 with [retry-after: 2], then a success: the payload after one sleep
    of 2 s and two requests. *)
Example rate_limited_then_success :
  let net :=
    Scenario.script [Resolved Scenario.rateLimited] (Resolved (Scenario.okList ∅)) in
  makeRequest Url.plain Scenario.client "/members/me/boards" Scenario.getBoards
    (initial net) =
    (Return (mkApiResponse "[]" None),
     mkWorld net 2
       [EvFetch Scenario.boardsURL GET; EvSleep (Num 2000);
        EvFetch Scenario.boardsURL GET]).
Proof. vm_compute. reflexivity. Qed.

(** A network failure on every attempt: [NETWORK_ERROR] after three
    requests. *)
Example network_down :
  fst (makeRequest Url.plain Scenario.client "/members/me/boards"
         Scenario.getBoards
         (initial (Scenario.always (Rejected (CError Scenario.fetchFailed))))) =
    Throw (Normalized
      (TrelloError.mk "Network error - unable to reach Trello API"
         (Some "fetch failed") None (Some "NETWORK_ERROR"))).
Proof. vm_compute. reflexivity. Qed.

(** ** [parseInt] on header values *)

Example parseInt_digits : Js.parseInt "300" = Num 300.
Proof. reflexivity. Qed.

Example parseInt_prefix : Js.parseInt " -12 seconds" = Num (-12).
Proof. reflexivity. Qed.

Example parseInt_no_digit : Js.parseInt "soon" = NaN.
Proof. reflexivity. Qed.

Example parseInt_empty : Js.parseInt "" = NaN.
Proof. reflexivity. Qed.

(** A [retry-after] header that is not a number gives a [NaN] pause. *)
Example retryAfterPause_unparseable :
  retryAfterPause (Scenario.bare 429 "Too Many Requests"
                     {["retry-after" := "Wed, 21 Oct 2026 07:28:00 GMT"]}) = NaN.
Proof. reflexivity. Qed.

(** * Further properties of the request loop *)

Section Runs.

Context {T : Type}.
Variable this : TrelloClient.
Variables (url : string) (init : FetchOptions).

(** The [try] block, outcome by outcome. *)
Lemma tryBlock_cases (w : World T) :
  match network w (calls w) with
  | Resolved r =>
      if ok r then
        match json r with
        | inr payload =>
            tryBlock url init w =
              (SReturn (mkApiResponse payload (extractRateLimitInfo r)),
               fetched url init w)
        | inl e => tryBlock url init w = (SThrow (CError e), fetched url init w)
        end
      else if status r =? 429 then
        tryBlock url init w =
          (SContinue, slept (retryAfterPause r) (fetched url init w))
      else tryBlock url init w = (SThrow (CResponse r), fetched url init w)
  | Rejected error => tryBlock url init w = (SThrow error, fetched url init w)
  end.
Proof.
  unfold tryBlock, mbind, IO_bind, fetchWithTimeout.
  destruct (network w (calls w)) as [r|error]; [|reflexivity].
  destruct (ok r); cbn [negb].
  - destruct (json r); reflexivity.
  - destruct (status r =? 429); reflexivity.
Qed.

(** The [catch] block, case by case. *)
Lemma catchBlock_cases (attempt : Z) (error : Caught T) (w : World T) :
  if isResponse429 error then catchBlock this attempt error w = (None, w)
  else if (attempt <? maxRetries (retryConfig this)) && shouldRetry error then
    catchBlock this attempt error w =
      (None, slept (Num (calculateBackoffDelay this attempt)) w)
  else
    catchBlock this attempt error w = (Some (Normalized (handleError error)), w).
Proof.
  unfold catchBlock. destruct (isResponse429 error); [reflexivity|].
  destruct ((attempt <? maxRetries (retryConfig this)) && shouldRetry error);
    reflexivity.
Qed.

Lemma extends_refl (w : World T) : extends w w 0 [].
Proof. repeat split; cbn; [lia|now rewrite app_nil_r]. Qed.

(** What the [try] block throws is what [thrownOn] reads off the outcome. *)
Lemma tryBlock_thrownOn (w w' : World T) (error : Caught T) :
  tryBlock url init w = (SThrow error, w') ->
  thrownOn (network w (calls w)) = Some error.
Proof.
  pose proof (tryBlock_cases w) as Htry. unfold thrownOn.
  destruct (network w (calls w)) as [r|rejection].
  - destruct (ok r).
    + destruct (json r); rewrite Htry; [now intros [= <- _]|discriminate].
    + destruct (status r =? 429); rewrite Htry; [discriminate|now intros [= <- _]].
  - rewrite Htry. now intros [= <- _].
Qed.

(** One iteration either ends the call right after its request, or goes on
    with the next attempt after that request and at most one sleep. *)
Lemma attemptLoop_step remaining attempt lastError (w : World T) :
  (exists c,
     attemptLoop this url init (S remaining) attempt lastError w =
       (c, fetched url init w)
     /\ ((exists r payload,
            network w (calls w) = Resolved r /\ ok r = true
            /\ json r = inr payload
            /\ c = Return (mkApiResponse payload (extractRateLimitInfo r)))
         \/ exists error : Caught T, c = Throw (Normalized (handleError error))))
  \/ (exists lastError' w1 tail,
        attemptLoop this url init (S remaining) attempt lastError w =
          attemptLoop this url init remaining (attempt + 1) lastError' w1
        /\ extends w w1 1 (EvFetch url init :: tail)
        /\ (tail = []
            \/ (attempt < maxRetries (retryConfig this)
                /\ (exists error,
                      thrownOn (network w (calls w)) = Some error
                      /\ shouldRetry error = true)
                /\ tail = [EvSleep (Num (calculateBackoffDelay this attempt))])
            \/ exists r, network w (calls w) = Resolved r /\ status r = 429
                         /\ tail = [EvSleep (retryAfterPause r)])).
Proof.
  assert (Hcatch : forall error,
    tryBlock url init w = (SThrow error, fetched url init w) ->
    (exists c,
       attemptLoop this url init (S remaining) attempt lastError w =
         (c, fetched url init w)
       /\ exists error' : Caught T, c = Throw (Normalized (handleError error')))
    \/ (exists w1 tail,
          attemptLoop this url init (S remaining) attempt lastError w =
            attemptLoop this url init remaining (attempt + 1) error w1
          /\ extends w w1 1 (EvFetch url init :: tail)
          /\ (tail = []
              \/ (attempt < maxRetries (retryConfig this)
                  /\ (exists error',
                        thrownOn (network w (calls w)) = Some error'
                        /\ shouldRetry error' = true)
                  /\ tail = [EvSleep (Num (calculateBackoffDelay this attempt))])))).
  { intros error Htry. pose proof (tryBlock_thrownOn _ _ _ Htry) as Hthrown.
    cbn [attemptLoop]. unfold mbind, IO_bind. rewrite Htry.
    pose proof (catchBlock_cases attempt error (fetched url init w)) as Hc.
    destruct (isResponse429 error).
    - rewrite Hc. right. exists (fetched url init w), [].
      split; [reflexivity|]. split; [apply fetched_extends|now left].
    - destruct ((attempt <? maxRetries (retryConfig this)) && shouldRetry error)
        eqn:Hretry; rewrite Hc.
      + apply andb_true_iff in Hretry as [Hlt Hshould]. apply Z.ltb_lt in Hlt.
        right. eexists _, [_]. split; [reflexivity|].
        split; [|right; split; [exact Hlt|split; [now exists error|reflexivity]]].
        exact (extends_trans _ _ _ 1 0 [EvFetch url init] _
                 (fetched_extends url init w) (slept_extends _ _)).
      + left. eexists. split; [reflexivity|]. now exists error. }
  pose proof (tryBlock_cases w) as Htry.
  destruct (network w (calls w)) as [r|error] eqn:Hnet.
  - destruct (ok r) eqn:Hok.
    + destruct (json r) as [e|payload] eqn:Hjson.
      * destruct (Hcatch _ Htry) as [(c & Hrun & Hc)|(w1 & tail & Hrun & Hext & Htail)].
        -- left. exists c. split; [exact Hrun|now right].
        -- right. exists (CError e), w1, tail. split; [exact Hrun|].
           split; [exact Hext|]. destruct Htail as [->|H]; [now left|right; now left].
      * left. eexists. split.
        -- cbn [attemptLoop]. unfold mbind, IO_bind. rewrite Htry. reflexivity.
        -- left. now exists r, payload.
    + destruct (Z.eqb_spec (status r) 429) as [H429|H429].
      * right. exists lastError, (slept (retryAfterPause r) (fetched url init w)),
          [EvSleep (retryAfterPause r)].
        split; [cbn [attemptLoop]; unfold mbind, IO_bind; now rewrite Htry|].
        split; [|right; right; now exists r].
        exact (extends_trans _ _ _ 1 0 [EvFetch url init] _
                 (fetched_extends url init w) (slept_extends _ _)).
      * destruct (Hcatch _ Htry) as [(c & Hrun & Hc)|(w1 & tail & Hrun & Hext & Htail)].
        -- left. exists c. split; [exact Hrun|now right].
        -- right. exists (CResponse r), w1, tail. split; [exact Hrun|].
           split; [exact Hext|]. destruct Htail as [->|H]; [now left|right; now left].
  - destruct (Hcatch _ Htry) as [(c & Hrun & Hc)|(w1 & tail & Hrun & Hext & Htail)].
    + left. exists c. split; [exact Hrun|now right].
    + right. exists error, w1, tail. split; [exact Hrun|].
      split; [exact Hext|]. destruct Htail as [->|H]; [now left|right; now left].
Qed.

(** The events of a run follow the answers of the network one by one, as
    [RunTrace] describes; there are as many requests as answers read, at
    most as many as iterations, and never more sleeps than requests. *)
Lemma attemptLoop_events remaining :
  forall attempt lastError (w : World T),
    exists n tail,
      extends w (snd (attemptLoop this url init remaining attempt lastError w)) n tail
      /\ (n <= remaining)%nat
      /\ RunTrace this url init (network w) (calls w) attempt tail
      /\ List.length (List.filter isFetch tail) = n
      /\ (List.length (List.filter isSleep tail) <= n)%nat.
Proof.
  induction remaining as [|remaining IH]; intros attempt lastError w.
  - exists 0%nat, []. split; [apply extends_refl|].
    repeat split; auto. constructor.
  - destruct (attemptLoop_step remaining attempt lastError w)
      as [(c & -> & _)|(e & w1 & tail & -> & Hext & Htail)].
    + exists 1%nat, [EvFetch url init].
      split; [apply fetched_extends|]. split; [lia|].
      split; [repeat constructor|]. split; [reflexivity|cbn; lia].
    + destruct (IH (attempt + 1) e w1)
        as (n & tail' & Hext' & Hle & Hrun & Hfetches & Hsleeps).
      exists (1 + n)%nat, ((EvFetch url init :: tail) ++ tail').
      split; [exact (extends_trans _ _ _ _ _ _ _ Hext Hext')|].
      split; [lia|].
      destruct Hext as (Hnet & Hcalls & _).
      rewrite Hnet, Hcalls in Hrun.
      replace (calls w + 1)%nat with (S (calls w)) in Hrun by lia.
      split.
      * destruct Htail as [->|[(Hlt & (error & Hthrown & Hretry) & ->)
                              |(r & Hr & H429 & ->)]]; cbn [app].
        -- now apply RunRequest.
        -- now apply RunBackoff with error.
        -- now apply RunRateLimited.
      * rewrite !List.filter_app, !List.length_app.
        destruct Htail as [->|[(Hlt & _ & ->)|(r & Hr & H429 & ->)]]; cbn; lia.
Qed.

End Runs.

Section RunResults.

Context {T : Type}.
Variable this : TrelloClient.
Variables (url : string) (init : FetchOptions).

(** A returned result is the parsed body and the snapshot of the answer to
    the last request of the run, and that request is the last event. *)
Lemma attemptLoop_result remaining :
  forall attempt lastError (w : World T) result,
    fst (attemptLoop this url init remaining attempt lastError w) = Return result ->
    exists r payload before,
      let w' := snd (attemptLoop this url init remaining attempt lastError w) in
      (calls w < calls w')%nat
      /\ network w (calls w' - 1)%nat = Resolved r
      /\ 200 <= status r <= 299
      /\ json r = inr payload
      /\ result = mkApiResponse payload (extractRateLimitInfo r)
      /\ trace w' = before ++ [EvFetch url init].
Proof.
  induction remaining as [|remaining IH]; intros attempt lastError w result.
  - cbn. discriminate.
  - destruct (attemptLoop_step this url init remaining attempt lastError w)
      as [(c & -> & Hc)|(e & w1 & tail & -> & Hext & _)]; cbn [fst snd].
    + intros ->. destruct Hc as [(r & payload & Hr & Hok & Hjson & [= ->])|(e & [=])].
      exists r, payload, (trace w). cbn [fetched calls trace].
      split; [lia|]. split; [now replace (S (calls w) - 1)%nat with (calls w) by lia|].
      split; [now apply ok_range|]. repeat split; assumption.
    + intros Hres. destruct (IH _ _ _ _ Hres) as (r & payload & before & H).
      cbn zeta in H. destruct H as (Hlt & Hr & Hrest).
      destruct Hext as (Hnet & Hcalls & _).
      exists r, payload, before. cbn zeta.
      split; [lia|]. split; [now rewrite <- Hnet|exact Hrest].
Qed.

(** Outcomes that are retried use up one iteration each while attempts
    before the last remain. *)
Lemma attemptLoop_retried_prefix n :
  forall remaining attempt lastError (w : World T),
    attempt + Z.of_nat n <= maxRetries (retryConfig this) ->
    (forall k, (k < n)%nat -> Retried (network w (calls w + k))) ->
    exists lastError' w',
      attemptLoop this url init (n + remaining) attempt lastError w =
        attemptLoop this url init remaining (attempt + Z.of_nat n) lastError' w'
      /\ network w' = network w
      /\ calls w' = (calls w + n)%nat.
Proof.
  induction n as [|n IH]; intros remaining attempt lastError w Hbudget Hall.
  - exists lastError, w. rewrite Z.add_0_r. repeat split. lia.
  - assert (Hshift : forall w1 : World T,
              network w1 = network w -> calls w1 = S (calls w) ->
              forall k, (k < n)%nat -> Retried (network w1 (calls w1 + k))).
    { intros w1 Hn Hc k Hk. rewrite Hn, Hc.
      replace (S (calls w) + k)%nat with (calls w + S k)%nat by lia.
      apply Hall. lia. }
    pose proof (Hall 0%nat ltac:(lia)) as H0. rewrite Nat.add_0_r in H0.
    cbn [Nat.add].
    destruct H0 as [(r & Hr & H429)|(error & Hfail)].
    + rewrite (attemptLoop_rate_limited _ _ _ _ _ _ _ _ Hr H429).
      destruct (IH remaining (attempt + 1) lastError
                  (slept (retryAfterPause r) (fetched url init w))
                  ltac:(lia)
                  (Hshift (slept (retryAfterPause r) (fetched url init w))
                     eq_refl eq_refl))
        as (e' & w' & Hrun & Hn & Hc).
      exists e', w'. split; [unfold retryAfterPause in Hrun; rewrite Hrun; f_equal; lia|].
      split; [exact Hn|]. rewrite Hc. cbn. lia.
    + rewrite (attemptLoop_retryable this url init _ _ _ _ _ Hfail).
      destruct (Z.ltb_spec attempt (maxRetries (retryConfig this))); [|lia].
      destruct (IH remaining (attempt + 1) error
                  (slept (Num (calculateBackoffDelay this attempt))
                     (fetched url init w))
                  ltac:(lia)
                  (Hshift (slept (Num (calculateBackoffDelay this attempt))
                             (fetched url init w)) eq_refl eq_refl))
        as (e' & w' & Hrun & Hn & Hc).
      exists e', w'. split; [rewrite Hrun; f_equal; lia|].
      split; [exact Hn|]. rewrite Hc. cbn. lia.
Qed.

End RunResults.

(** X1: whatever the network answers, a call issues at most [maxRetries]
    requests, at least one when [maxRetries] is positive, and reads the
    answers of the network in order. *)
Theorem makeRequest_request_budget {T} (newURL : string -> Url.URL)
    (this : TrelloClient) (endpoint : string) (options : RequestOptions)
    (w : World T) :
  let w' := snd (makeRequest newURL this endpoint options w) in
  network w' = network w
  /\ (calls w' <= calls w + Z.to_nat (maxRetries (retryConfig this)))%nat
  /\ (calls w <= calls w')%nat
  /\ (1 <= maxRetries (retryConfig this) -> (calls w < calls w')%nat).
Proof.
  unfold makeRequest.
  destruct (attemptLoop_extends this
              (buildURL newURL this endpoint (params options))
              (fetchOptions options)
              (Z.to_nat (maxRetries (retryConfig this))) 1 CUndefined w)
    as (n & tail & (Hnet & Hcalls & _) & Hle & Hfirst).
  cbn zeta. split; [exact Hnet|]. rewrite Hcalls.
  split; [lia|]. split; [lia|].
  intros Hpos. destruct Hfirst as (n' & _ & -> & _); lia.
Qed.

(** X2: the events of a call follow the answers it reads, one request per
    answer: every request goes to the URL built once from the endpoint and
    the parameters, with the caller's options; a sleep comes only directly
    after a request, and it is either the back-off delay of that very
    attempt (which is then not the last, and has thrown a value the retry
    classifier accepts) or the pause asked by the 429 answer to that very
    request; the call issues as many requests as it reads answers and never
    sleeps more often than it requests. *)
Theorem makeRequest_events {T} (newURL : string -> Url.URL)
    (this : TrelloClient) (endpoint : string) (options : RequestOptions)
    (w : World T) :
  exists tail,
    trace (snd (makeRequest newURL this endpoint options w)) = trace w ++ tail
    /\ RunTrace this (buildURL newURL this endpoint (params options))
         (fetchOptions options) (network w) (calls w) 1 tail
    /\ List.length (List.filter isFetch tail) =
         (calls (snd (makeRequest newURL this endpoint options w)) - calls w)%nat
    /\ (List.length (List.filter isSleep tail)
        <= calls (snd (makeRequest newURL this endpoint options w)) - calls w)%nat.
Proof.
  unfold makeRequest.
  destruct (attemptLoop_events this
              (buildURL newURL this endpoint (params options))
              (fetchOptions options)
              (Z.to_nat (maxRetries (retryConfig this))) 1 CUndefined w)
    as (n & tail & (_ & Hcalls & Htrace) & _ & Hrun & Hfetches & Hsleeps).
  exists tail. split; [exact Htrace|]. split; [exact Hrun|].
  rewrite Hcalls. split; lia.
Qed.

(** The events of a timeout followed by a 429 and a success. *)
Example run_trace_example :
  RunTrace Scenario.client Scenario.boardsURL GET
    (Scenario.script [Rejected (CError Scenario.aborted);
                      Resolved Scenario.rateLimited]
       (Resolved (Scenario.okList ∅))) 0 1
    [EvFetch Scenario.boardsURL GET; EvSleep (Num 1000);
     EvFetch Scenario.boardsURL GET; EvSleep (Num 2000);
     EvFetch Scenario.boardsURL GET].
Proof.
  apply RunBackoff with (CError Scenario.aborted);
    [vm_compute; reflexivity|reflexivity|reflexivity|].
  apply (RunRateLimited _ _ _ _ _ _ Scenario.rateLimited); [reflexivity|reflexivity|].
  apply RunRequest. apply RunEnd.
Qed.

(** X3: when a call returns, its [data] is the parsed body of the answer to
    its last request, that answer had a status in 200-299, [rateLimit] is the
    snapshot of the same answer, and nothing happens after that request. *)
Theorem makeRequest_result_provenance {T} (newURL : string -> Url.URL)
    (this : TrelloClient) (endpoint : string) (options : RequestOptions)
    (w : World T) (result : TrelloApiResponse T) :
  fst (makeRequest newURL this endpoint options w) = Return result ->
  exists r payload before,
    let w' := snd (makeRequest newURL this endpoint options w) in
    (calls w < calls w')%nat
    /\ network w (calls w' - 1)%nat = Resolved r
    /\ 200 <= status r <= 299
    /\ json r = inr payload
    /\ result = mkApiResponse payload (extractRateLimitInfo r)
    /\ trace w' =
         before ++ [EvFetch (buildURL newURL this endpoint (params options))
                      (fetchOptions options)].
Proof. unfold makeRequest. apply attemptLoop_result. Qed.

Lemma makeRequest_result_provenance_witness :
  exists r payload before,
    let net := Scenario.script [Resolved Scenario.rateLimited]
                 (Resolved (Scenario.okList Scenario.quotaHeaders)) in
    let w' := snd (makeRequest Url.plain Scenario.client "/members/me/boards"
                     Scenario.getBoards (initial net)) in
    (0 < calls w')%nat
    /\ net (calls w' - 1)%nat = Resolved r
    /\ 200 <= status r <= 299
    /\ json r = inr payload
    /\ mkApiResponse "[]" (Some (mkRateLimitInfo (Num 300) (Num 250) (Num 1234567890)))
       = mkApiResponse payload (extractRateLimitInfo r)
    /\ trace w' = before ++ [EvFetch Scenario.boardsURL GET].
Proof.
  exact (makeRequest_result_provenance Url.plain Scenario.client
           "/members/me/boards" Scenario.getBoards
           (initial (Scenario.script [Resolved Scenario.rateLimited]
                       (Resolved (Scenario.okList Scenario.quotaHeaders))))
           (mkApiResponse "[]"
              (Some (mkRateLimitInfo (Num 300) (Num 250) (Num 1234567890))))
           eq_refl).
Defined.

(** X4: if the first [n] outcomes are retried ones (429 answers, network
    failures, timeouts, statuses of 500 or more), [n] is below [maxRetries]
    and the next answer is a success with a body that parses, the call
    returns that body after exactly [n + 1] requests. *)
Theorem makeRequest_succeeds_after_retries {T} (newURL : string -> Url.URL)
    (this : TrelloClient) (endpoint : string) (options : RequestOptions)
    (net : nat -> FetchOutcome T) (n : nat) (r : Response T) (payload : T) :
  (n < Z.to_nat (maxRetries (retryConfig this)))%nat ->
  (forall k, (k < n)%nat -> Retried (net k)) ->
  net n = Resolved r ->
  200 <= status r <= 299 ->
  json r = inr payload ->
  exists w',
    makeRequest newURL this endpoint options (initial net) =
      (Return (mkApiResponse payload (extractRateLimitInfo r)), w')
    /\ calls w' = S n.
Proof.
  intros Hn Hall Hr Hrange Hjson. unfold makeRequest.
  replace (Z.to_nat (maxRetries (retryConfig this)))
    with (n + S (Z.to_nat (maxRetries (retryConfig this)) - S n))%nat by lia.
  destruct (attemptLoop_retried_prefix this
              (buildURL newURL this endpoint (params options))
              (fetchOptions options) n
              (S (Z.to_nat (maxRetries (retryConfig this)) - S n)) 1 CUndefined
              (initial net) ltac:(lia) Hall)
    as (e' & w1 & -> & Hnet & Hcalls).
  cbn [calls initial Nat.add] in Hcalls.
  eexists. split.
  - apply attemptLoop_returns; [rewrite Hnet, Hcalls; exact Hr| |exact Hjson].
    now apply ok_range.
  - cbn. now rewrite Hcalls.
Qed.

Lemma makeRequest_succeeds_after_retries_witness :
  exists w',
    makeRequest Url.plain Scenario.client "/members/me/boards" Scenario.getBoards
      (initial (Scenario.script [Rejected (CError Scenario.aborted);
                                 Resolved Scenario.rateLimited]
                  (Resolved (Scenario.okList ∅)))) =
      (Return (mkApiResponse "[]" (extractRateLimitInfo (Scenario.okList ∅))), w')
    /\ calls w' = 3%nat.
Proof.
  apply (makeRequest_succeeds_after_retries Url.plain Scenario.client
           "/members/me/boards" Scenario.getBoards
           (Scenario.script [Rejected (CError Scenario.aborted);
                             Resolved Scenario.rateLimited]
              (Resolved (Scenario.okList ∅)))
           2 (Scenario.okList ∅) "[]").
  - vm_compute. lia.
  - intros [|[|k]] Hk; [right|left|lia].
    + exists (CError Scenario.aborted). now apply TimeoutFailure.
    + exists Scenario.rateLimited. split; reflexivity.
  - reflexivity.
  - split; vm_compute; discriminate.
  - reflexivity.
Defined.

(** X5: the error of a call that runs out of attempts on 429 answers is the
    one of the last failure caught before them: after a retryable failure on
    the first attempt and 429 answers on all the others, the call reports
    that first failure (for instance [NETWORK_ERROR]), not the rate limit. *)
Theorem rate_limit_exhaustion_reports_earlier_failure {T}
    (newURL : string -> Url.URL) (this : TrelloClient) (endpoint : string)
    (options : RequestOptions) (net : nat -> FetchOutcome T) (error : Caught T) :
  2 <= maxRetries (retryConfig this) ->
  RetryableFailure (net 0%nat) error ->
  (forall k, (1 <= k < Z.to_nat (maxRetries (retryConfig this)))%nat ->
     RateLimited (net k)) ->
  exists w',
    makeRequest newURL this endpoint options (initial net) =
      (Throw (Normalized (handleError error)), w')
    /\ calls w' = Z.to_nat (maxRetries (retryConfig this)).
Proof.
  intros Hbudget Hfail Hall. unfold makeRequest.
  destruct (Z.to_nat (maxRetries (retryConfig this))) as [|remaining] eqn:E; [lia|].
  rewrite (attemptLoop_retryable this _ _ remaining 1 CUndefined (initial net)
             error Hfail).
  destruct (Z.ltb_spec 1 (maxRetries (retryConfig this))); [|lia].
  destruct (attemptLoop_all_rate_limited this
              (buildURL newURL this endpoint (params options))
              (fetchOptions options) remaining (1 + 1) error
              (slept (Num (calculateBackoffDelay this 1))
                 (fetched (buildURL newURL this endpoint (params options))
                    (fetchOptions options) (initial net))))
    as (w' & Hrun & _ & Hcalls).
  - intros k Hk. cbn [network calls slept fetched initial]. apply Hall. lia.
  - exists w'. split; [exact Hrun|]. rewrite Hcalls. reflexivity.
Qed.

Lemma rate_limit_exhaustion_reports_earlier_failure_witness :
  exists w',
    makeRequest Url.plain Scenario.client "/members/me/boards" Scenario.getBoards
      (initial (Scenario.script [Rejected (CError Scenario.fetchFailed)]
                  (Resolved Scenario.rateLimited))) =
      (Throw (Normalized
         (handleError (T := string) (CError Scenario.fetchFailed))), w')
    /\ calls w' = 3%nat.
Proof.
  apply (rate_limit_exhaustion_reports_earlier_failure Url.plain Scenario.client
           "/members/me/boards" Scenario.getBoards
           (Scenario.script [Rejected (CError Scenario.fetchFailed)]
              (Resolved Scenario.rateLimited))
           (CError Scenario.fetchFailed)).
  - vm_compute. discriminate.
  - now apply NetworkFailure.
  - intros [|[|[|k]]] Hk; try (vm_compute in Hk; lia);
      exists Scenario.rateLimited; split; reflexivity.
Defined.

(** X6: a rejection of [fetch] that is no [Response], no [TypeError]
    mentioning "fetch" and no [AbortError] is not retried: one request, no
    sleep, and the normalised error of the rejection.  For a value without a
    [status] property (a thrown string, a [TypeError] with another message)
    that is [UNKNOWN_ERROR] with the text of the value as detail; for an
    object with a [status] that is no [Response] (the literal
    [{ status: 500 }], an [Error] carrying a status) it is the error of that
    status, which a [Response] of the same status would only get after its
    retries. *)
Theorem unclassified_rejection_not_retried {T} (newURL : string -> Url.URL)
    (this : TrelloClient) (endpoint : string) (options : RequestOptions)
    (net : nat -> FetchOutcome T) (error : Caught T) :
  1 <= maxRetries (retryConfig this) ->
  net 0%nat = Rejected error ->
  isResponse error = false ->
  isFetchTypeError error = false ->
  isAbortError error = false ->
  makeRequest newURL this endpoint options (initial net) =
    (Throw (Normalized (handleError error)),
     mkWorld net 1
       [EvFetch (buildURL newURL this endpoint (params options))
          (fetchOptions options)])
  /\ (statusOf error = None ->
      handleError error =
        TrelloError.mk "Unknown error occurred" (Some (describe error)) None
          (Some "UNKNOWN_ERROR"))
  /\ (forall st text,
        statusOf error = Some (st, text) ->
        shouldRetry error = false
        /\ forall r : Response T,
             status r = st -> statusText r = text ->
             handleError error = handleError (CResponse r)).
Proof.
  intros Hbudget Hnet Hresp Hfetch Habort.
  assert (Hretry : shouldRetry error = false).
  { unfold shouldRetry. rewrite Hfetch, Habort.
    now destruct error as [|repr|e|r|e st t]. }
  split; [|split].
  - unfold makeRequest.
    destruct (Z.to_nat (maxRetries (retryConfig this))) as [|remaining] eqn:E;
      [lia|].
    assert (Htry := tryBlock_rejected
                      (buildURL newURL this endpoint (params options))
                      (fetchOptions options) (initial net) error Hnet).
    rewrite (attemptLoop_gives_up this _ _ remaining 1 CUndefined _ _ error Htry);
      [reflexivity| |now right].
    now destruct error as [|repr|e|r|e st t].
  - intros Hnone. unfold handleError. now rewrite Hfetch, Habort, Hnone.
  - intros st text Hstatus. split; [exact Hretry|].
    intros r <- <-. unfold handleError at 1. rewrite Hfetch, Habort, Hstatus.
    unfold handleError, isFetchTypeError, isAbortError. reflexivity.
Qed.

Lemma unclassified_rejection_not_retried_witness :
  makeRequest Url.plain Scenario.client "/members/me/boards" Scenario.getBoards
    (initial (Scenario.always
                (Rejected (CError (mkJsError true "TypeError" "terminated"))))) =
    (Throw (Normalized
       (TrelloError.mk "Unknown error occurred" (Some "terminated") None
          (Some "UNKNOWN_ERROR"))),
     mkWorld (Scenario.always
                (Rejected (CError (mkJsError true "TypeError" "terminated")))) 1
       [EvFetch Scenario.boardsURL GET]).
Proof.
  exact (proj1 (unclassified_rejection_not_retried Url.plain Scenario.client
                  "/members/me/boards" Scenario.getBoards
                  (Scenario.always
                     (Rejected (CError (mkJsError true "TypeError" "terminated"))))
                  (CError (mkJsError true "TypeError" "terminated"))
                  ltac:(vm_compute; discriminate) eq_refl eq_refl eq_refl eq_refl)).
Defined.

(** The plain object the tests of the repository use in place of a
    [Response], when [fetch] rejects with it: [SERVER_ERROR] after one
    request, where a [Response] with status 500 is retried. *)
Example rejected_plain_500 :
  makeRequest Url.plain Scenario.client "/members/me/boards" Scenario.getBoards
    (initial (Scenario.always
                (Rejected (CStatusObject None 500 "Internal Server Error")))) =
    (Throw (Normalized
       (TrelloError.mk "Trello server error" (Some "500 - Internal Server Error")
          (Some 500) (Some "SERVER_ERROR"))),
     mkWorld (Scenario.always
                (Rejected (CStatusObject None 500 "Internal Server Error"))) 1
       [EvFetch Scenario.boardsURL GET]).
Proof. vm_compute. reflexivity. Qed.

(** X7: an answer that is not a success, not 429 and below 500 (a 1xx, a 3xx
    or a 4xx status) ends the call on the first request; apart from 401, 403
    and 404 its code is [API_ERROR] and its message names the status. *)
Theorem failure_below_500_terminal {T} (newURL : string -> Url.URL)
    (this : TrelloClient) (endpoint : string) (options : RequestOptions)
    (net : nat -> FetchOutcome T) (r : Response T) :
  1 <= maxRetries (retryConfig this) ->
  net 0%nat = Resolved r ->
  status r < 200 \/ 300 <= status r < 500 ->
  status r <> 429 ->
  makeRequest newURL this endpoint options (initial net) =
    (Throw (Normalized (handleError (CResponse r))),
     mkWorld net 1
       [EvFetch (buildURL newURL this endpoint (params options))
          (fetchOptions options)])
  /\ TrelloError.status (handleError (CResponse r)) = Some (status r)
  /\ (status r <> 401 -> status r <> 403 -> status r <> 404 ->
      TrelloError.code (handleError (CResponse r)) = Some "API_ERROR"
      /\ TrelloError.message (handleError (CResponse r)) =
           "HTTP " +:+ Js.Z_to_string (status r) +:+ " error").
Proof.
  intros Hbudget Hnet Hrange H429. split; [|split].
  - unfold makeRequest.
    destruct (Z.to_nat (maxRetries (retryConfig this))) as [|remaining] eqn:E;
      [lia|].
    assert (Htry := tryBlock_http_failure
                      (buildURL newURL this endpoint (params options))
                      (fetchOptions options) (initial net) r Hnet
                      (not_ok_outside r ltac:(lia)) H429).
    rewrite (attemptLoop_gives_up this _ _ remaining 1 CUndefined _ _ _ Htry);
      [reflexivity|cbn; now apply Z.eqb_neq|].
    right. unfold shouldRetry. cbn.
    destruct (Z.geb_spec (status r) 500); [lia|]. cbn. now apply Z.eqb_neq.
  - apply handleError_response.
  - intros H401 H403 H404. split.
    + rewrite handleError_status_code.
      repeat match goal with
             | |- context [?a =? ?b] => destruct (Z.eqb_spec a b); [lia|]
             end.
      reflexivity.
    + rewrite handleError_status_message by assumption.
      destruct (Z.eqb_spec (status r) 500); [lia|reflexivity].
Qed.

Lemma failure_below_500_terminal_witness :
  makeRequest Url.plain Scenario.client "/members/me/boards" Scenario.getBoards
    (initial (Scenario.always (Resolved (Scenario.bare 304 "Not Modified" ∅)))) =
    (Throw (Normalized (handleError (CResponse (Scenario.bare 304 "Not Modified" ∅)))),
     mkWorld (Scenario.always (Resolved (Scenario.bare 304 "Not Modified" ∅))) 1
       [EvFetch Scenario.boardsURL GET]).
Proof.
  exact (proj1 (failure_below_500_terminal Url.plain Scenario.client
                  "/members/me/boards" Scenario.getBoards
                  (Scenario.always (Resolved (Scenario.bare 304 "Not Modified" ∅)))
                  (Scenario.bare 304 "Not Modified" ∅)
                  ltac:(vm_compute; discriminate) eq_refl
                  ltac:(right; split; vm_compute; [discriminate|reflexivity])
                  ltac:(vm_compute; discriminate))).
Defined.

(** * Further properties of back-off and error classification *)

(** X8: with a base delay that is not negative, the back-off delay never
    decreases from one attempt to the next, never exceeds [maxDelay], and is
    exactly [baseDelay * 2^(n-1)] as long as that stays within [maxDelay]. *)
Theorem calculateBackoffDelay_capped_monotone (this : TrelloClient) (n m : Z) :
  0 <= baseDelay (retryConfig this) ->
  1 <= n <= m ->
  calculateBackoffDelay this n <= calculateBackoffDelay this m
  /\ calculateBackoffDelay this m <= maxDelay (retryConfig this)
  /\ (baseDelay (retryConfig this) * 2 ^ (n - 1) <= maxDelay (retryConfig this) ->
      calculateBackoffDelay this n = baseDelay (retryConfig this) * 2 ^ (n - 1))
  /\ (0 <= maxDelay (retryConfig this) -> 0 <= calculateBackoffDelay this n).
Proof.
  intros Hbase Hnm. unfold calculateBackoffDelay.
  assert (Hpow : 2 ^ (n - 1) <= 2 ^ (m - 1)) by (apply Z.pow_le_mono_r; lia).
  assert (Hpos : 0 < 2 ^ (n - 1)) by (apply Z.pow_pos_nonneg; lia).
  assert (Hmul : baseDelay (retryConfig this) * 2 ^ (n - 1)
                 <= baseDelay (retryConfig this) * 2 ^ (m - 1))
    by (apply Z.mul_le_mono_nonneg_l; assumption).
  assert (Hnonneg : 0 <= baseDelay (retryConfig this) * 2 ^ (n - 1))
    by (apply Z.mul_nonneg_nonneg; lia).
  repeat split; lia.
Qed.

Lemma calculateBackoffDelay_capped_monotone_witness :
  calculateBackoffDelay Scenario.client 2 <= calculateBackoffDelay Scenario.client 5
  /\ calculateBackoffDelay Scenario.client 5 <= 10000.
Proof.
  pose proof (calculateBackoffDelay_capped_monotone Scenario.client 2 5
                ltac:(vm_compute; discriminate)
                ltac:(split; vm_compute; discriminate)) as (H1 & H2 & _).
  split; [exact H1|exact H2].
Defined.

(** X9: how the code of the normalised error relates to the retry
    classifier.  [NETWORK_ERROR] and [TIMEOUT_ERROR] are always retried;
    [INVALID_CREDENTIALS], [INSUFFICIENT_PERMISSIONS], [NOT_FOUND] and
    [UNKNOWN_ERROR] never; [SERVER_ERROR] and [RATE_LIMIT_EXCEEDED] exactly
    when the value is a [Response], because [handleError] accepts any object
    with a [status] while [shouldRetry] asks for a [Response]; and
    [API_ERROR] exactly when the value is a [Response] with a status above
    500. *)
Theorem retry_classification_by_code {T} (error : Caught T) :
  let code := TrelloError.code (handleError error) in
  (In code [Some "NETWORK_ERROR"; Some "TIMEOUT_ERROR"] -> shouldRetry error = true)
  /\ (In code [Some "INVALID_CREDENTIALS"; Some "INSUFFICIENT_PERMISSIONS";
               Some "NOT_FOUND"; Some "UNKNOWN_ERROR"] -> shouldRetry error = false)
  /\ (In code [Some "SERVER_ERROR"; Some "RATE_LIMIT_EXCEEDED"] ->
      shouldRetry error = isResponse error)
  /\ (code = Some "API_ERROR" ->
      exists st text,
        statusOf error = Some (st, text)
        /\ shouldRetry error = isResponse error && (500 <? st)).
Proof.
  cbn zeta. unfold handleError, shouldRetry.
  destruct (isFetchTypeError error).
  { cbn. repeat split; intros; try reflexivity; intuition discriminate. }
  destruct (isAbortError error).
  { cbn. repeat split; intros; try reflexivity; intuition discriminate. }
  destruct error as [|repr|e|r|e st text];
    try (cbn; repeat split; intros; try reflexivity; intuition discriminate).
  - cbn [statusOf isResponse].
    destruct (Z.eqb_spec (status r) 401) as [H401|H401].
    { cbn. rewrite H401. cbn. repeat split; intros; try reflexivity;
        intuition discriminate. }
    destruct (Z.eqb_spec (status r) 403) as [H403|H403].
    { cbn. rewrite H403. cbn. repeat split; intros; try reflexivity;
        intuition discriminate. }
    destruct (Z.eqb_spec (status r) 404) as [H404|H404].
    { cbn. rewrite H404. cbn. repeat split; intros; try reflexivity;
        intuition discriminate. }
    destruct (Z.eqb_spec (status r) 429) as [H429|H429].
    { cbn. rewrite H429. cbn. repeat split; intros; try reflexivity;
        intuition discriminate. }
    destruct (Z.eqb_spec (status r) 500) as [H500|H500].
    { cbn. rewrite H500. cbn. repeat split; intros; try reflexivity;
        intuition discriminate. }
    cbn. repeat split; intros; try (intuition discriminate).
    exists (status r), (statusText r). split; [reflexivity|].
    destruct (Z.eqb_spec (status r) 429); [contradiction|].
    rewrite orb_false_r.
    destruct (Z.geb_spec (status r) 500), (Z.ltb_spec 500 (status r));
      try reflexivity; lia.
  - cbn [statusOf isResponse].
    repeat match goal with
           | |- context [if ?a =? ?b then _ else _] => destruct (a =? b)
           end;
      cbn; repeat split; intros; try reflexivity; try (intuition discriminate);
      now exists st, text.
Qed.

(** The same status in a [Response] and in a plain object: the same code,
    but only the [Response] is retried. *)
Example plain_object_not_retried :
  TrelloError.code (handleError (CResponse Scenario.internalError)) =
    TrelloError.code
      (handleError (T := string) (CStatusObject None 500 "Internal Server Error"))
  /\ shouldRetry (CResponse Scenario.internalError) = true
  /\ shouldRetry (T := string) (CStatusObject None 500 "Internal Server Error") = false.
Proof. repeat split. Qed.

(** * Decimal numerals: [toString] followed by [parseInt] *)

Section Decimal.

Ltac eval_digit :=
  cbn [Js.read_digits];
  match goal with
  | |- context [Js.digit_value ?c] =>
      let v := eval vm_compute in (Js.digit_value c) in
      change (Js.digit_value c) with v
  end;
  cbn [default from_option id].

Lemma read_digits_acc (d : Decimal.uint) :
  forall acc : positive,
    Js.read_digits (NilEmpty.string_of_uint d) (Some (Z.pos acc)) =
      Some (Z.pos (Pos.of_uint_acc d acc)).
Proof.
  induction d; intros acc; cbn [NilEmpty.string_of_uint Pos.of_uint_acc];
    [reflexivity| | | | | | | | | |];
    eval_digit; rewrite <- IHd; f_equal; f_equal; lia.
Qed.

Lemma read_digits_of_uint (d : Decimal.uint) :
  Js.read_digits (NilEmpty.string_of_uint d) (Some 0) =
    Some (Z.of_N (Pos.of_uint d)).
Proof.
  induction d; cbn [NilEmpty.string_of_uint Pos.of_uint];
    [reflexivity|exact IHd| | | | | | | | |];
    eval_digit; apply read_digits_acc.
Qed.

(** A numeral that is not empty reads the same from no digit seen as from
    zero. *)
Lemma read_digits_start (d : Decimal.uint) :
  d <> Decimal.Nil ->
  Js.read_digits (NilEmpty.string_of_uint d) None =
    Js.read_digits (NilEmpty.string_of_uint d) (Some 0).
Proof. destruct d; [congruence| | | | | | | | | |]; reflexivity. Qed.

(** A text that starts with a digit has no white space or sign to skip. *)
Lemma parseInt_digit_first (c : ascii) (rest : string) (v : Z) :
  Js.digit_value c = Some v ->
  Js.parseInt (String c rest) =
    match Js.read_digits (String c rest) None with
    | Some mathInt => Js.of_Z mathInt
    | None => NaN
    end.
Proof.
  destruct c as [[|] [|] [|] [|] [|] [|] [|] [|]]; try discriminate; intros _;
    unfold Js.parseInt; cbn [Js.trim_start];
    match goal with
    | |- context [Js.is_white_space ?c] =>
        let v := eval vm_compute in (Js.is_white_space c) in
        change (Js.is_white_space c) with v
    end;
    cbn iota beta zeta;
    destruct (Js.read_digits _ None) as [m|]; try reflexivity;
    f_equal; lia.
Qed.

Lemma string_of_uint_digit_first (d : Decimal.uint) :
  d <> Decimal.Nil ->
  exists c rest v,
    NilEmpty.string_of_uint d = String c rest /\ Js.digit_value c = Some v.
Proof.
  destruct d; [congruence| | | | | | | | | |]; intros _;
    eexists _, _, _; (split; [reflexivity|reflexivity]).
Qed.

Lemma parseInt_string_of_uint (d : Decimal.uint) :
  d <> Decimal.Nil ->
  Js.parseInt (NilEmpty.string_of_uint d) = Js.of_Z (Z.of_N (Pos.of_uint d)).
Proof.
  intros Hd. destruct (string_of_uint_digit_first d Hd) as (c & rest & v & Hs & Hc).
  rewrite Hs, (parseInt_digit_first c rest v Hc), <- Hs.
  now rewrite read_digits_start, read_digits_of_uint.
Qed.

Lemma string_of_uint_nonnil (d : Decimal.uint) :
  d <> Decimal.Nil -> NilZero.string_of_uint d = NilEmpty.string_of_uint d.
Proof. destruct d; [congruence| | | | | | | | | |]; reflexivity. Qed.

End Decimal.

(** Reading back the decimal rendering of an integer gives the double
    nearest to it: [parseInt(String(z), 10)], for negative numbers too. *)
Lemma parseInt_Z_to_string (z : Z) : Js.parseInt (Js.Z_to_string z) = Js.of_Z z.
Proof.
  unfold Js.Z_to_string. destruct z as [|p|p]; [reflexivity| |];
    cbn [Z.to_int NilZero.string_of_int];
    pose proof (DecimalPos.Unsigned.to_uint_nonnil p) as Hnil;
    rewrite (string_of_uint_nonnil _ Hnil).
  - rewrite parseInt_string_of_uint by exact Hnil.
    now rewrite DecimalPos.Unsigned.of_to.
  - unfold Js.parseInt. cbn [Js.trim_start].
    change (Js.is_white_space "-") with false. cbn iota beta zeta.
    rewrite read_digits_start by exact Hnil.
    now rewrite read_digits_of_uint, DecimalPos.Unsigned.of_to.
Qed.

(** The decimal rendering of an integer is never empty. *)
Lemma Z_to_string_truthy (z : Z) : Js.truthy_string (Js.Z_to_string z) = true.
Proof.
  unfold Js.Z_to_string. destruct z as [|p|p]; [reflexivity| |reflexivity].
  cbn [Z.to_int NilZero.string_of_int].
  pose proof (DecimalPos.Unsigned.to_uint_nonnil p) as Hnil.
  rewrite (string_of_uint_nonnil _ Hnil).
  destruct (string_of_uint_digit_first _ Hnil) as (c & rest & v & -> & _).
  reflexivity.
Qed.

(** X10: when the three rate-limit headers are decimal integers below 2^53
    in magnitude (the integers a double holds exactly) and the limit is not
    0, the snapshot holds exactly these three integers.  From 2^53 on the
    snapshot holds the nearest double instead: the numeral
    9007199254740993 is read as 9007199254740992, and a numeral of 400
    digits as an infinity. *)
Theorem extractRateLimitInfo_decimal {T} (r : Response T) (l rem reset : Z) :
  l <> 0 ->
  headers r !! "x-rate-limit-api-key-limit" = Some (Js.Z_to_string l) ->
  headers r !! "x-rate-limit-api-key-remaining" = Some (Js.Z_to_string rem) ->
  headers r !! "x-rate-limit-api-key-reset" = Some (Js.Z_to_string reset) ->
  (Z.abs l < 2 ^ 53 -> Z.abs rem < 2 ^ 53 -> Z.abs reset < 2 ^ 53 ->
   extractRateLimitInfo r = Some (mkRateLimitInfo (Num l) (Num rem) (Num reset)))
  /\ extractRateLimitInfo r =
       Some (mkRateLimitInfo (Js.or (Js.of_Z l) (Num 300)) (Js.of_Z rem)
               (Js.of_Z reset))
  /\ Js.of_Z 9007199254740993 = Num 9007199254740992
  /\ Js.of_Z (10 ^ 400) = Infinity false.
Proof.
  intros Hl Hlimit Hrem Hreset.
  pose proof Z_to_string_truthy as Htruthy.
  assert (Hgeneral : extractRateLimitInfo r =
            Some (mkRateLimitInfo (Js.or (Js.of_Z l) (Num 300)) (Js.of_Z rem)
                    (Js.of_Z reset))).
  { unfold extractRateLimitInfo. rewrite Hlimit, Hrem, Hreset, Htruthy.
    unfold Js.or_string. now rewrite !Htruthy, !parseInt_Z_to_string. }
  split; [|split; [exact Hgeneral|split; vm_compute; reflexivity]].
  intros Hsl Hsrem Hsreset. rewrite Hgeneral, !of_Z_exact by assumption.
  unfold Js.or, Js.truthy. destruct (Z.eqb_spec l 0); [contradiction|reflexivity].
Qed.

Lemma extractRateLimitInfo_decimal_witness :
  extractRateLimitInfo (Scenario.okList Scenario.quotaHeaders) =
    Some (mkRateLimitInfo (Num 300) (Num 250) (Num 1234567890)).
Proof.
  apply (proj1 (extractRateLimitInfo_decimal
                  (Scenario.okList Scenario.quotaHeaders) 300 250 1234567890
                  ltac:(discriminate) eq_refl eq_refl eq_refl));
    vm_compute; reflexivity.
Defined.

(** A 429 answer whose [retry-after] header is a decimal number of seconds
    makes the client sleep exactly that many seconds, in milliseconds,
    before it goes on (as long as the milliseconds stay below 2^53). *)
Theorem retry_after_decimal_seconds {T} (this : TrelloClient) (url : string)
    (init : FetchOptions) (remaining : nat) (attempt : Z) (lastError : Caught T)
    (w : World T) (r : Response T) (seconds : Z) :
  network w (calls w) = Resolved r ->
  status r = 429 ->
  headers r !! "retry-after" = Some (Js.Z_to_string seconds) ->
  Z.abs seconds * 1000 < 2 ^ 53 ->
  attemptLoop this url init (S remaining) attempt lastError w =
    attemptLoop this url init remaining (attempt + 1) lastError
      (slept (Num (seconds * 1000)) (fetched url init w)).
Proof.
  intros Hr H429 Hheader Hsmall.
  rewrite (attemptLoop_rate_limited this url init _ _ _ _ _ Hr H429).
  fold (retryAfterPause r).
  rewrite (retryAfterPause_seconds r _ seconds Hheader); [reflexivity| |exact Hsmall].
  rewrite parseInt_Z_to_string. apply of_Z_exact. lia.
Qed.

Lemma retry_after_decimal_seconds_witness :
  attemptLoop Scenario.client Scenario.boardsURL GET 3 1 CUndefined
    (initial (Scenario.always (Resolved Scenario.rateLimited))) =
    attemptLoop Scenario.client Scenario.boardsURL GET 2 (1 + 1) CUndefined
      (slept (Num (2 * 1000))
         (fetched Scenario.boardsURL GET
            (initial (Scenario.always (Resolved Scenario.rateLimited))))).
Proof.
  exact (retry_after_decimal_seconds Scenario.client Scenario.boardsURL GET 2 1
           CUndefined (initial (Scenario.always (Resolved Scenario.rateLimited)))
           Scenario.rateLimited 2 eq_refl eq_refl eq_refl
           ltac:(vm_compute; reflexivity)).
Defined.

(** * Further properties of URL construction *)

Section ParameterLists.

Lemma set_fresh (name value : string) (l : Url.SearchParams) :
  ~ In name (map fst l) -> Url.set name value l = l ++ [(name, value)].
Proof.
  induction l as [|[n v] l IH]; intros Hfresh; [reflexivity|].
  cbn [Url.set]. destruct (String.eqb_spec n name) as [->|Hn].
  - destruct Hfresh. now left.
  - cbn. f_equal. apply IH. intros Hin. apply Hfresh. now right.
Qed.

Lemma occurrences_remove (name : string) (l : Url.SearchParams) :
  occurrences name (Url.remove name l) = 0%nat.
Proof.
  unfold occurrences, Url.remove. induction l as [|[n v] l IH]; [reflexivity|].
  cbn. destruct (String.eqb_spec n name) as [->|Hn]; cbn; [exact IH|].
  destruct (String.eqb_spec n name); [contradiction|exact IH].
Qed.

Lemma occurrences_remove_ne (name other : string) (l : Url.SearchParams) :
  other <> name ->
  occurrences name (Url.remove other l) = occurrences name l.
Proof.
  intros Hne. unfold occurrences, Url.remove.
  induction l as [|[n v] l IH]; [reflexivity|].
  cbn. destruct (String.eqb_spec n other) as [->|Hn]; cbn.
  - destruct (String.eqb_spec other name); [contradiction|exact IH].
  - destruct (String.eqb_spec n name); cbn; now rewrite IH.
Qed.

(** After [set], the name occurs exactly once. *)
Lemma occurrences_set (name value : string) (l : Url.SearchParams) :
  occurrences name (Url.set name value l) = 1%nat.
Proof.
  induction l as [|[n v] l IH].
  - unfold occurrences. cbn. now rewrite String.eqb_refl.
  - cbn [Url.set]. destruct (String.eqb_spec n name) as [->|Hn].
    + change (occurrences name ((name, value) :: Url.remove name l))
        with (List.length
                (List.filter (fun p => String.eqb (fst p) name)
                   ((name, value) :: Url.remove name l))).
      cbn [List.filter fst]. rewrite String.eqb_refl. cbn [List.length].
      f_equal. apply occurrences_remove.
    + unfold occurrences in *. cbn [List.filter fst].
      destruct (String.eqb_spec n name); [contradiction|exact IH].
Qed.

(** [set] under another name leaves the count of a name as it is. *)
Lemma occurrences_set_ne (name other value : string) (l : Url.SearchParams) :
  other <> name ->
  occurrences name (Url.set other value l) = occurrences name l.
Proof.
  intros Hne. induction l as [|[n v] l IH].
  - unfold occurrences. cbn. destruct (String.eqb_spec other name);
      [contradiction|reflexivity].
  - cbn [Url.set]. destruct (String.eqb_spec n other) as [->|Hn].
    + unfold occurrences. cbn [List.filter fst].
      destruct (String.eqb_spec other name); [contradiction|].
      now apply occurrences_remove_ne.
    + unfold occurrences in *. cbn [List.filter fst].
      destruct (String.eqb_spec n name); cbn; now rewrite IH.
Qed.

Lemma occurrences_addParams (name : string) (entries : Params) :
  forall url : Url.URL,
    occurrences name (Url.searchParams url) = 1%nat ->
    occurrences name (Url.searchParams (fold_left addParam entries url)) = 1%nat.
Proof.
  induction entries as [|[k ov] entries IH]; intros url Hone; [exact Hone|].
  cbn [fold_left]. apply IH. unfold addParam. cbn [fst snd].
  destruct ov as [v|]; [|exact Hone]. cbn [Url.searchParams_set Url.searchParams].
  destruct (String.eqb_spec (Url.to_usv k) name) as [<-|Hk].
  - apply occurrences_set.
  - now rewrite occurrences_set_ne.
Qed.

(** Entries whose names, as stored, are fresh and distinct are appended in
    their order. *)
Lemma addParams_append (entries : Params) :
  forall url : Url.URL,
    List.NoDup (map fst (usvEntries entries)) ->
    (forall k, In k (map fst (usvEntries entries)) ->
               ~ In k (map fst (Url.searchParams url))) ->
    Url.searchParams (fold_left addParam entries url) =
      Url.searchParams url ++ definedEntries (usvEntries entries).
Proof.
  induction entries as [|[k ov] entries IH]; intros url Hnodup Hfresh.
  - cbn. now rewrite app_nil_r.
  - cbn [usvEntries map fst snd] in Hnodup, Hfresh |- *.
    fold (usvEntries entries) in Hnodup, Hfresh |- *.
    apply NoDup_cons_iff in Hnodup as [Hk Hnodup].
    cbn [fold_left]. rewrite IH; [|exact Hnodup|].
    + unfold addParam. cbn [fst snd definedEntries]. destruct ov as [v|];
        [|reflexivity].
      cbn [Url.searchParams_set Url.searchParams fmap option_fmap option_map
           definedEntries].
      rewrite set_fresh by (apply Hfresh; now left).
      now rewrite <- app_assoc.
    + intros k' Hin. unfold addParam. cbn [fst snd]. destruct ov as [v|].
      * cbn [Url.searchParams_set Url.searchParams].
        rewrite set_fresh by (apply Hfresh; now left).
        rewrite map_app, in_app_iff. cbn. intros [H|[<-|[]]].
        -- apply (Hfresh k'); [now right|exact H].
        -- contradiction.
      * apply Hfresh. now right.
Qed.

End ParameterLists.

(** X12: in every URL [buildURL] produces, the names [key] and [token] each
    occur exactly once, whatever the endpoint carried in its own query and
    whatever the extra parameters are. *)
Theorem buildURL_credentials_once (newURL : string -> Url.URL)
    (this : TrelloClient) (endpoint : string) (params : option Params) :
  occurrences "key"
    (Url.searchParams (buildURL_object newURL this endpoint params)) = 1%nat
  /\ occurrences "token"
       (Url.searchParams (buildURL_object newURL this endpoint params)) = 1%nat.
Proof.
  unfold buildURL_object.
  assert (Hkey : occurrences "key"
            (Url.searchParams
               (Url.searchParams_set "token" (token (credentials this))
                  (Url.searchParams_set "key" (apiKey (credentials this))
                     (newURL (baseURL this +:+ endpoint))))) = 1%nat).
  { cbn [Url.searchParams_set Url.searchParams].
    rewrite occurrences_set_ne by discriminate. apply occurrences_set. }
  assert (Htoken : occurrences "token"
            (Url.searchParams
               (Url.searchParams_set "token" (token (credentials this))
                  (Url.searchParams_set "key" (apiKey (credentials this))
                     (newURL (baseURL this +:+ endpoint))))) = 1%nat).
  { cbn [Url.searchParams_set Url.searchParams]. apply occurrences_set. }
  destruct params as [entries|]; [|now split].
  split; now apply occurrences_addParams.
Qed.

(** With nothing in the query of the endpoint, and names stored under
    distinct names other than [key] and [token], the parameters are the two
    credentials and then the defined entries, as stored. *)
Lemma buildURL_object_appended (newURL : string -> Url.URL)
    (this : TrelloClient) (endpoint : string) (entries : Params) :
  Url.searchParams (newURL (baseURL this +:+ endpoint)) = [] ->
  ~ In "key" (map fst entries) ->
  ~ In "token" (map fst entries) ->
  List.NoDup (map fst (usvEntries entries)) ->
  Url.searchParams (buildURL_object newURL this endpoint (Some entries)) =
    ("key", Url.to_usv (apiKey (credentials this)))
    :: ("token", Url.to_usv (token (credentials this)))
    :: definedEntries (usvEntries entries).
Proof.
  intros Hempty Hkey Htoken Hnodup. unfold buildURL_object.
  rewrite addParams_append; [|exact Hnodup|].
  - cbn [Url.searchParams_set Url.searchParams]. now rewrite Hempty.
  - cbn [Url.searchParams_set Url.searchParams]. rewrite Hempty.
    change (Url.to_usv "key") with "key".
    change (Url.to_usv "token") with "token". cbn.
    intros k Hin [<-|[<-|[]]].
    + revert Hin. apply usvEntries_fresh; [cbn; intuition discriminate|exact Hkey].
    + revert Hin. apply usvEntries_fresh;
        [cbn; intuition discriminate|exact Htoken].
Qed.

(** X13: for an endpoint without a query of its own and extra parameters
    whose names are distinct and are not [key] or [token], the parameters of
    the URL are the API key, the token, and then the extra parameters with a
    defined value, in the order of the object.  This holds as it stands for
    texts without lone surrogate; in general names and values are those
    [URLSearchParams] stores (a lone surrogate replaced by U+FFFD), and the
    names have to be distinct as stored. *)
Theorem buildURL_parameter_order (newURL : string -> Url.URL)
    (this : TrelloClient) (endpoint : string) (entries : Params) :
  Url.searchParams (newURL (baseURL this +:+ endpoint)) = [] ->
  ~ In "key" (map fst entries) ->
  ~ In "token" (map fst entries) ->
  (List.NoDup (map fst entries) ->
   Url.lone_surrogate (apiKey (credentials this)) = false ->
   Url.lone_surrogate (token (credentials this)) = false ->
   (forall k ov, In (k, ov) entries ->
      Url.lone_surrogate k = false
      /\ forall v, ov = Some v -> Url.lone_surrogate v = false) ->
   Url.searchParams (buildURL_object newURL this endpoint (Some entries)) =
     ("key", apiKey (credentials this)) :: ("token", token (credentials this))
     :: definedEntries entries)
  /\ (List.NoDup (map fst (usvEntries entries)) ->
      Url.searchParams (buildURL_object newURL this endpoint (Some entries)) =
        ("key", Url.to_usv (apiKey (credentials this)))
        :: ("token", Url.to_usv (token (credentials this)))
        :: definedEntries (usvEntries entries)).
Proof.
  intros Hempty Hkey Htoken.
  pose proof (buildURL_object_appended newURL this endpoint entries
                Hempty Hkey Htoken) as Hlist.
  split; [|exact Hlist].
  intros Hnodup Hk Ht Hwell.
  pose proof (usvEntries_well_formed entries Hwell) as Hsame.
  rewrite Hlist by (now rewrite Hsame).
  now rewrite (to_usv_well_formed _ Hk), (to_usv_well_formed _ Ht), Hsame.
Qed.

Lemma buildURL_parameter_order_witness :
  Url.searchParams
    (buildURL_object Url.plain Scenario.client "/labels/5f6e7d8c9b0a1e2d3c4b5a6f"
       (Some [("name", None); ("color", Some "red")])) =
    [("key", "KEY"); ("token", "TOKEN"); ("color", "red")].
Proof.
  apply (proj1 (buildURL_parameter_order Url.plain Scenario.client
                  "/labels/5f6e7d8c9b0a1e2d3c4b5a6f"
                  [("name", None); ("color", Some "red")]
                  eq_refl
                  ltac:(cbn; intuition discriminate)
                  ltac:(cbn; intuition discriminate))).
  - repeat constructor; cbn; intuition discriminate.
  - reflexivity.
  - reflexivity.
  - intros k ov [[= <- <-]|[[= <- <-]|[]]];
      (split; [reflexivity|]); intros v [= <-]; reflexivity.
Defined.

(** ** Reading the query back *)

Section RoundTrip.

Lemma form_encode_cons (c : ascii) (s : string) :
  Url.form_encode (String c s) = form_encode_char c +:+ Url.form_encode s.
Proof.
  cbn [Url.form_encode]. unfold form_encode_char.
  destruct (Ascii.eqb c " "); [reflexivity|].
  destruct (Url.form_safe c); reflexivity.
Qed.

(** What is written for a byte decodes to that byte. *)
Lemma form_decode_char (c : ascii) (rest : string) :
  UrlDecode.form_decode (form_encode_char c +:+ rest) =
    String c (UrlDecode.form_decode rest).
Proof.
  destruct c as [[|] [|] [|] [|] [|] [|] [|] [|]]; reflexivity.
Qed.

(** What is written for a byte has no [&] and no [=], and is not empty. *)
Lemma form_encode_char_clean (c : ascii) :
  no_separator (form_encode_char c) = true
  /\ Js.truthy_string (form_encode_char c) = true.
Proof.
  destruct c as [[|] [|] [|] [|] [|] [|] [|] [|]]; split; reflexivity.
Qed.

Lemma append_assoc (a b c : string) : (a +:+ b) +:+ c = a +:+ b +:+ c.
Proof.
  induction a as [|x a IH]; [reflexivity|].
  change ((String x a +:+ b) +:+ c) with (String x ((a +:+ b) +:+ c)).
  now rewrite IH.
Qed.

Lemma list_ascii_app (a b : string) :
  list_ascii_of_string (a +:+ b) = list_ascii_of_string a ++ list_ascii_of_string b.
Proof.
  induction a as [|c a IH]; [reflexivity|].
  change (String c a +:+ b) with (String c (a +:+ b)). cbn. now rewrite IH.
Qed.

Lemma no_separator_spec (s : string) :
  no_separator s = true ->
  ~ In "&"%char (list_ascii_of_string s) /\ ~ In "="%char (list_ascii_of_string s).
Proof.
  unfold no_separator. rewrite forallb_forall. intros H.
  split; intros Hin; apply H in Hin; discriminate Hin.
Qed.

Lemma no_separator_app (a b : string) :
  no_separator (a +:+ b) = no_separator a && no_separator b.
Proof. unfold no_separator. now rewrite list_ascii_app, forallb_app. Qed.

Lemma form_encode_clean (s : string) : no_separator (Url.form_encode s) = true.
Proof.
  induction s as [|c s IH]; [reflexivity|].
  rewrite form_encode_cons, no_separator_app, IH.
  now rewrite (proj1 (form_encode_char_clean c)).
Qed.

(** Decoding undoes the serialiser, byte for byte. *)
Lemma form_decode_encode (s : string) :
  UrlDecode.form_decode (Url.form_encode s) = s.
Proof.
  induction s as [|c s IH]; [reflexivity|].
  now rewrite form_encode_cons, form_decode_char, IH.
Qed.

Lemma cut_at_first (sep : ascii) (a b : string) :
  ~ In sep (list_ascii_of_string a) ->
  UrlDecode.cut_at sep (a +:+ String sep b) = (a, Some b).
Proof.
  induction a as [|c a IH]; intros Hfree.
  - change (EmptyString +:+ String sep b) with (String sep b).
    cbn [UrlDecode.cut_at]. now rewrite Ascii.eqb_refl.
  - change (String c a +:+ String sep b) with (String c (a +:+ String sep b)).
    cbn [UrlDecode.cut_at].
    destruct (Ascii.eqb_spec c sep) as [->|Hc]; [destruct Hfree; now left|].
    rewrite IH; [reflexivity|]. intros Hin. apply Hfree. now right.
Qed.

Lemma split_on_first (sep : ascii) (a b : string) :
  ~ In sep (list_ascii_of_string a) ->
  UrlDecode.split_on sep (a +:+ String sep b) = a :: UrlDecode.split_on sep b.
Proof.
  induction a as [|c a IH]; intros Hfree.
  - change (EmptyString +:+ String sep b) with (String sep b).
    cbn [UrlDecode.split_on]. now rewrite Ascii.eqb_refl.
  - change (String c a +:+ String sep b) with (String c (a +:+ String sep b)).
    cbn [UrlDecode.split_on].
    destruct (Ascii.eqb_spec c sep) as [->|Hc]; [destruct Hfree; now left|].
    rewrite IH; [reflexivity|]. intros Hin. apply Hfree. now right.
Qed.

Lemma split_on_none (sep : ascii) (a : string) :
  ~ In sep (list_ascii_of_string a) -> UrlDecode.split_on sep a = [a].
Proof.
  induction a as [|c a IH]; intros Hfree; [reflexivity|].
  cbn [UrlDecode.split_on].
  destruct (Ascii.eqb_spec c sep) as [->|Hc]; [destruct Hfree; now left|].
  rewrite IH; [reflexivity|]. intros Hin. apply Hfree. now right.
Qed.

(** One serialised pair is read back as that pair. *)
Lemma parse_sequence_pair (n v : string) :
  UrlDecode.parse_sequence (Url.form_encode n +:+ "=" +:+ Url.form_encode v) =
    [(n, v)]
  /\ ~ In "&"%char
        (list_ascii_of_string (Url.form_encode n +:+ "=" +:+ Url.form_encode v)).
Proof.
  destruct (no_separator_spec _ (form_encode_clean n)) as [Hamp_n Heq_n].
  destruct (no_separator_spec _ (form_encode_clean v)) as [Hamp_v _].
  split.
  - unfold UrlDecode.parse_sequence.
    assert (Htruthy : forall a b, Js.truthy_string (a +:+ String "=" b) = true)
      by (intros [|] b; reflexivity).
    change (Url.form_encode n +:+ "=" +:+ Url.form_encode v)
      with (Url.form_encode n +:+ String "=" (Url.form_encode v)).
    rewrite Htruthy, (cut_at_first "=" _ _ Heq_n).
    cbn [default from_option id]. now rewrite !form_decode_encode.
  - change (Url.form_encode n +:+ "=" +:+ Url.form_encode v)
      with (Url.form_encode n +:+ String "=" (Url.form_encode v)).
    rewrite list_ascii_app, in_app_iff. cbn [list_ascii_of_string].
    intros [H|[H|H]]; [now apply Hamp_n|discriminate H|now apply Hamp_v].
Qed.

(** The parser undoes the serialiser. *)
Lemma parse_serialize (l : Url.SearchParams) :
  UrlDecode.parse (Url.serialize l) = l.
Proof.
  unfold UrlDecode.parse.
  induction l as [|[n v] l IH]; [reflexivity|].
  destruct (parse_sequence_pair n v) as [Hpair Hamp].
  destruct l as [|p l].
  - cbn [Url.serialize]. rewrite (split_on_none _ _ Hamp).
    cbn [flat_map]. now rewrite Hpair.
  - replace (Url.serialize ((n, v) :: p :: l))
      with ((Url.form_encode n +:+ "=" +:+ Url.form_encode v)
            +:+ String "&" (Url.serialize (p :: l))).
    + rewrite (split_on_first _ _ _ Hamp). cbn [flat_map].
      now rewrite Hpair, IH.
    + change (Url.serialize ((n, v) :: p :: l))
        with (Url.form_encode n +:+ "=" +:+ Url.form_encode v
              +:+ "&" +:+ Url.serialize (p :: l)).
      now rewrite !append_assoc.
Qed.

End RoundTrip.

(** X14: the query [buildURL] writes (the text between [?] and the fragment
    of the URL it returns) is read back by the URL parser as the very list
    of parameters [URLSearchParams] had stored: whatever bytes a stored name
    or value contains ([&], [=], [%], [+], spaces), it is neither altered
    nor able to add or change another parameter; what is read under a name
    is the last defined value of the extra parameters, else the credential,
    else what the endpoint carried.  When the platform parser leaves
    base-plus-endpoint as it is, the URL is that text, [?] and this
    query. *)
Theorem buildURL_query_round_trip (newURL : string -> Url.URL)
    (this : TrelloClient) (endpoint : string) (params : option Params) :
  let parsed := newURL (baseURL this +:+ endpoint) in
  let query :=
    Url.serialize (Url.searchParams (buildURL_object newURL this endpoint params)) in
  UrlDecode.parse query =
    Url.searchParams (buildURL_object newURL this endpoint params)
  /\ buildURL newURL this endpoint params =
       Url.origin_path parsed +:+ ("?" +:+ query) +:+ Url.hash parsed
  /\ (parsed = Url.plain (baseURL this +:+ endpoint) ->
      buildURL newURL this endpoint params =
        (baseURL this +:+ endpoint) +:+ "?" +:+ query)
  /\ forall k,
       Url.get k (UrlDecode.parse query) =
         match lastDefined k (usvEntries (default [] params)) with
         | Some v => Some v
         | None =>
             Url.get k
               (Url.set "token" (Url.to_usv (token (credentials this)))
                  (Url.set "key" (Url.to_usv (apiKey (credentials this)))
                     (Url.searchParams parsed)))
         end.
Proof.
  cbn zeta.
  split; [apply parse_serialize|]. split; [apply buildURL_shape|].
  split; [apply buildURL_plain|].
  intros k. rewrite parse_serialize. apply buildURL_object_get.
Qed.

Lemma buildURL_query_round_trip_witness :
  buildURL Url.plain Scenario.client "/labels"
    (Some (createLabel_params "5f6e7d8c9b0a1e2d3c4b5a6f" "a&token=x 100%" "red")) =
    "https://api.trello.com/1/labels"
    +:+ "?"
    +:+ Url.serialize
          (Url.searchParams
             (buildURL_object Url.plain Scenario.client "/labels"
                (Some (createLabel_params "5f6e7d8c9b0a1e2d3c4b5a6f"
                         "a&token=x 100%" "red")))).
Proof.
  exact (proj1 (proj2 (proj2
    (buildURL_query_round_trip Url.plain Scenario.client "/labels"
       (Some (createLabel_params "5f6e7d8c9b0a1e2d3c4b5a6f" "a&token=x 100%" "red")))))
    eq_refl).
Defined.

(** A value full of separators comes back as it was. *)
Example round_trip_separators :
  Url.serialize
    (Url.searchParams
       (buildURL_object Url.plain Scenario.client "/labels"
          (Some (createLabel_params "5f6e7d8c9b0a1e2d3c4b5a6f" "a&token=x 100%" "red")))) =
    "key=KEY&token=TOKEN&name=a%26token%3Dx+100%25&color=red&idBoard=5f6e7d8c9b0a1e2d3c4b5a6f"
  /\ UrlDecode.parse
       "key=KEY&token=TOKEN&name=a%26token%3Dx+100%25&color=red&idBoard=5f6e7d8c9b0a1e2d3c4b5a6f" =
     [("key", "KEY"); ("token", "TOKEN"); ("name", "a&token=x 100%");
      ("color", "red"); ("idBoard", "5f6e7d8c9b0a1e2d3c4b5a6f")].
Proof. vm_compute. split; reflexivity. Qed.

(** * Further properties of the operations *)

Section OperationNames.















End OperationNames.



(** * Properties of the tool layer *)

(** X16: when the request loop behind the client call of a handler fails
    ([makeRequest] throws), the handler answers with an error result whose
    text ends in "Unknown error occurred": the normalised error of the
    client is an object literal, not an [Error], so its message ("Resource
    not found", "Rate limit exceeded", ...) never reaches the text, and the
    handler itself adds no request.  A client call that fails before the
    request loop is reported with its own message: [search] on a query with
    a lone surrogate rejects with the [URIError] of [encodeURIComponent],
    the text ends in "URI malformed" and nothing is requested. *)
Theorem handler_reports_unknown_error {T A : Type} (newURL : string -> Url.URL)
    (action : string) (args : A) (client : A -> TrelloClient)
    (endpoint : A -> string) (options : A -> RequestOptions)
    (format : A -> TrelloApiResponse T -> Tools.HandlerCaught T + string)
    (w : World T) :
  (forall v,
     fst (makeRequest newURL (client args) (endpoint args) (options args) w) =
       Throw v ->
     Tools.runHandler action (inr args)
       (fun a => makeRequest newURL (client a) (endpoint a) (options a)) format w =
       (Tools.mkToolResult ("Error " +:+ action +:+ ": Unknown error occurred") true,
        snd (makeRequest newURL (client args) (endpoint args) (options args) w)))
  /\ (forall (query : A -> string) (searchOptions : A -> option SearchOptions),
        let call := fun a => search newURL (client a) (query a) (searchOptions a) in
        (Url.lone_surrogate (query args) = true ->
         Tools.runHandler action (inr args) call format w =
           (Tools.mkToolResult ("Error " +:+ action +:+ ": URI malformed") true, w))
        /\ (Url.lone_surrogate (query args) = false ->
            forall v,
              fst (call args w) = Throw v ->
              Tools.runHandler action (inr args) call format w =
                (Tools.mkToolResult
                   ("Error " +:+ action +:+ ": Unknown error occurred") true,
                 snd (call args w)))).
Proof.
  assert (Hloop : forall (this : TrelloClient) (e : string) (o : RequestOptions) v,
            fst (makeRequest newURL this e o w) = Throw v ->
            exists error : Caught T, v = Normalized (handleError error)).
  { intros this e o v. apply attemptLoop_throws. }
  split.
  - intros v Hthrow. unfold Tools.runHandler, mbind, IO_bind.
    destruct (Hloop _ _ _ _ Hthrow) as (error & Hv).
    destruct (makeRequest newURL (client args) (endpoint args) (options args) w)
      as [completion w'] eqn:Hrun.
    cbn [fst snd] in *. subst completion. now rewrite Hv.
  - intros query searchOptions call. subst call. split.
    + intros Hlone. unfold Tools.runHandler, mbind, IO_bind, search, search_params,
        Url.encodeURIComponent. now rewrite Hlone.
    + intros Hwell v. unfold Tools.runHandler, mbind, IO_bind, search, search_params,
        Url.encodeURIComponent. rewrite Hwell. intros Hthrow.
      destruct (Hloop _ _ _ _ Hthrow) as (error & Hv).
      match goal with
      | |- context [makeRequest newURL ?c ?e ?o w] =>
          destruct (makeRequest newURL c e o w) as [completion w'] eqn:Hrun
      end.
      cbn [fst snd] in *. subst completion. now rewrite Hv.
Qed.

Lemma handler_reports_unknown_error_witness :
  fst (Tools.runHandler (T := string) "listing boards" (inr (Some "open"))
         (fun filter =>
            makeRequest Url.plain Scenario.client "/members/me/boards"
              (mkRequestOptions (Some (getMyBoards_params filter)) GET))
         (fun _ response => inr (data response))
         (initial (Scenario.always (Resolved Scenario.notFound)))) =
    Tools.mkToolResult "Error listing boards: Unknown error occurred" true.
Proof.
  rewrite (proj1 (handler_reports_unknown_error (T := string) Url.plain
                    "listing boards"
                    (Some "open") (fun _ => Scenario.client)
                    (fun _ => "/members/me/boards")
                    (fun filter =>
                       mkRequestOptions (Some (getMyBoards_params filter)) GET)
                    (fun _ response => inr (data response))
                    (initial (Scenario.always (Resolved Scenario.notFound))))
             (Normalized (handleError (CResponse Scenario.notFound)))
             eq_refl).
  reflexivity.
Defined.

(** A search for a text with a lone surrogate, as the user of the search
    tool sees it. *)
Example search_handler_lone_surrogate :
  Tools.runHandler (T := string) "searching Trello"
    (inr ("to do" +:+ String "237" (String "160" (String "128" ""))))
    (fun query => search Url.plain Scenario.client query None)
    (fun _ response => inr (data response))
    (initial (Scenario.always (Resolved (Scenario.okList ∅)))) =
    (Tools.mkToolResult "Error searching Trello: URI malformed" true,
     initial (Scenario.always (Resolved (Scenario.okList ∅)))).
Proof. vm_compute. reflexivity. Qed.

Section Identifiers.

Lemma hex_unreserved (c : ascii) :
  Tools.is_hex c = true ->
  Url.uri_unreserved c = true /\ Url.form_safe c = true /\ Ascii.eqb c " " = false
  /\ (nat_of_ascii c =? 237)%nat = false.
Proof.
  destruct c as [[|] [|] [|] [|] [|] [|] [|] [|]]; try discriminate;
    intros _; repeat split.
Qed.

Lemma lower_hex_is_hex (c : ascii) :
  Tools.is_lower_hex c = true -> Tools.is_hex c = true.
Proof. unfold Tools.is_hex. now intros ->. Qed.

Lemma all_hex_unescaped (s : string) :
  Tools.all_chars Tools.is_hex s = true ->
  Url.lone_surrogate s = false /\ Url.encode_bytes s = s /\ Url.form_encode s = s.
Proof.
  unfold Tools.all_chars. induction s as [|c s IH]; [now repeat split|].
  cbn [list_ascii_of_string forallb]. intros [Hc Hs]%andb_true_iff.
  destruct (hex_unreserved c Hc) as (Hu & Hf & Hsp & Hed).
  destruct (IH Hs) as (IH0 & IH1 & IH2).
  rewrite (lone_surrogate_cons c s Hed).
  cbn [Url.encode_bytes Url.form_encode].
  now rewrite Hu, Hf, Hsp, IH0, IH1, IH2.
Qed.

End Identifiers.

(** X17: an identifier that [trelloIdSchema] accepts has 24 characters, all
    hexadecimal digits, and is left as it is by [encodeURIComponent] and by
    the URL serialiser; the pattern of the handlers in [tools/] accepts it
    only if it has no upper-case digit, and accepts nothing that
    [trelloIdSchema] rejects. *)
Theorem trello_id_patterns (id : string) :
  Tools.matchesTrelloId id = true ->
  String.length id = 24%nat
  /\ Url.encodeURIComponent id = inr id
  /\ Url.form_encode id = id
  /\ Tools.matchesLowerHexId id = Tools.all_chars Tools.is_lower_hex id
  /\ (forall other,
        Tools.matchesLowerHexId other = true -> Tools.matchesTrelloId other = true).
Proof.
  unfold Tools.matchesTrelloId, Tools.matchesLowerHexId.
  intros [Hlen Hhex]%andb_true_iff. apply Nat.eqb_eq in Hlen.
  destruct (all_hex_unescaped id Hhex) as (Hwell & He & Hf).
  repeat split; try assumption.
  - unfold Url.encodeURIComponent. now rewrite Hwell, He.
  - now rewrite Hlen.
  - intros other [Hl Hc]%andb_true_iff. rewrite Hl. cbn [andb].
    unfold Tools.all_chars in *. rewrite forallb_forall in *.
    intros c Hin. apply lower_hex_is_hex. now apply Hc.
Qed.

Lemma trello_id_patterns_witness :
  Tools.matchesLowerHexId "5F6E7D8C9B0A1E2D3C4B5A6F" = false
  /\ Url.encodeURIComponent "5F6E7D8C9B0A1E2D3C4B5A6F" =
       inr "5F6E7D8C9B0A1E2D3C4B5A6F".
Proof.
  destruct (trello_id_patterns "5F6E7D8C9B0A1E2D3C4B5A6F" eq_refl)
    as (_ & He & _ & Hlower & _).
  split; [rewrite Hlower; reflexivity|exact He].
Defined.

(** X18: the options [handleTrelloSearch] builds from validated arguments
    (integer limits between 1 and 1000) all reach the request: the query as
    [encodeURIComponent] returns it, then [modelTypes] and [idBoards] when
    given, then each limit that was given, as a decimal numeral; the only
    way for the parameters not to be built is that [encodeURIComponent]
    throws. *)
Theorem search_handler_passes_options (query : string)
    (types boards : option (list string)) (limitB limitC limitM : option Z) :
  (forall n, limitB = Some n -> 1 <= n <= 1000) ->
  (forall n, limitC = Some n -> 1 <= n <= 1000) ->
  (forall n, limitM = Some n -> 1 <= n <= 1000) ->
  search_params query
    (Tools.searchOptions types boards (Num <$> limitB) (Num <$> limitC)
       (Num <$> limitM)) =
    match Url.encodeURIComponent query with
    | inl e => inl e
    | inr encoded =>
        inr (("query", Some encoded)
             :: whenArray "modelTypes" types
             ++ whenArray "idBoards" boards
             ++ whenDefined "boards_limit" (Js.Z_to_string <$> limitB)
             ++ whenDefined "cards_limit" (Js.Z_to_string <$> limitC)
             ++ whenDefined "members_limit" (Js.Z_to_string <$> limitM))
    end.
Proof.
  intros Hb Hc Hm.
  assert (Htruthy : forall limit : option Z,
            (forall n, limit = Some n -> 1 <= n <= 1000) ->
            forall key, whenNumber key (Num <$> limit)
                        = whenDefined key (Js.Z_to_string <$> limit)).
  { intros [n|] Hn key; [|reflexivity]. cbn.
    destruct (Z.eqb_spec n 0) as [->|_]; [|reflexivity].
    specialize (Hn 0 eq_refl). lia. }
  unfold search_params.
  replace (default noSearchOptions
             (Tools.searchOptions types boards (Num <$> limitB)
                (Num <$> limitC) (Num <$> limitM)))
    with (mkSearchOptions types boards (Num <$> limitB) (Num <$> limitC)
            (Num <$> limitM))
    by (destruct types, boards, limitB, limitC, limitM; reflexivity).
  cbn [modelTypes boardIds boardsLimit cardsLimit membersLimit].
  destruct (Url.encodeURIComponent query); [reflexivity|].
  now rewrite !Htruthy by assumption.
Qed.

Lemma search_handler_passes_options_witness :
  search_params "to do"
    (Tools.searchOptions (Some ["cards"]) None None (Some (Num 50)) None) =
    inr [("query", Some "to%20do"); ("modelTypes", Some "cards");
         ("cards_limit", Some "50")].
Proof.
  apply (search_handler_passes_options "to do" (Some ["cards"]) None None
           (Some 50) None).
  - discriminate.
  - intros n [= <-]. lia.
  - discriminate.
Defined.

(** X19: [extractCredentials] takes a credential from the arguments whenever
    the argument is there (not [undefined], not [null]) and from the
    environment otherwise: two non-empty string arguments are the
    credentials whatever the environment holds; an empty string argument is
    rejected with the schema's own message even when the environment has a
    value; and the parameters handed on never contain [apiKey] or [token]
    while every other property stays, in order. *)
Theorem extractCredentials_precedence {T} (invalidType : Tools.ArgValue -> string)
    (env : Tools.Env) (fields : list (string * Tools.ArgValue)) :
  (forall k t,
     Tools.property "apiKey" fields = Tools.VString k -> k <> "" ->
     Tools.property "token" fields = Tools.VString t -> t <> "" ->
     Tools.extractCredentials (T := T) invalidType env (Tools.ArgsObject fields) =
       inr (mkCredentials k t, Tools.restOf fields))
  /\ (Tools.property "apiKey" fields = Tools.VString "" ->
      exists issues,
        Tools.extractCredentials (T := T) invalidType env (Tools.ArgsObject fields) =
          inl (Tools.ZodError issues)
        /\ In (Tools.mkIssue [Tools.Key "apiKey"] "API key is required") issues)
  /\ (forall k t,
        (Tools.property "apiKey" fields = Tools.VUndefined
         \/ Tools.property "apiKey" fields = Tools.VNull) ->
        (Tools.property "token" fields = Tools.VUndefined
         \/ Tools.property "token" fields = Tools.VNull) ->
        Tools.TRELLO_API_KEY env = Some k -> k <> "" ->
        Tools.TRELLO_TOKEN env = Some t -> t <> "" ->
        Tools.extractCredentials (T := T) invalidType env (Tools.ArgsObject fields) =
          inr (mkCredentials k t, Tools.restOf fields))
  /\ ~ In "apiKey" (map fst (Tools.restOf fields))
  /\ ~ In "token" (map fst (Tools.restOf fields))
  /\ (forall name v, name <> "apiKey" -> name <> "token" ->
        (In (name, v) (Tools.restOf fields) <-> In (name, v) fields)).
Proof.
  assert (Htruthy : forall s, s <> "" -> Js.truthy_string s = true)
    by (intros [|c s] H; [congruence|reflexivity]).
  split; [|split; [|split; [|split; [|split]]]].
  - intros k t Hk Hkne Ht Htne. unfold Tools.extractCredentials.
    rewrite Hk, Ht. cbn [Tools.orEnv]. unfold Tools.parseCredentials.
    cbn [Tools.parseRequiredString]. now rewrite !Htruthy.
  - intros Hk. unfold Tools.extractCredentials. rewrite Hk.
    cbn [Tools.orEnv]. unfold Tools.parseCredentials.
    cbn [Tools.parseRequiredString Js.truthy_string].
    destruct (Tools.parseRequiredString "token" "Token is required" invalidType _);
      eexists; (split; [reflexivity|now left]).
  - intros k t Hk Ht Hek Hkne Het Htne. unfold Tools.extractCredentials.
    rewrite Hek, Het.
    destruct Hk as [-> | ->], Ht as [-> | ->]; cbn [Tools.orEnv];
      unfold Tools.parseCredentials; cbn [Tools.parseRequiredString];
      now rewrite !Htruthy.
  - unfold Tools.restOf. intros Hin. apply in_map_iff in Hin as ((n & v) & Hn & Hin).
    apply filter_In in Hin as [_ Hf]. cbn [fst] in Hn, Hf. subst n.
    now rewrite String.eqb_refl in Hf.
  - unfold Tools.restOf. intros Hin. apply in_map_iff in Hin as ((n & v) & Hn & Hin).
    apply filter_In in Hin as [_ Hf]. cbn [fst] in Hn, Hf. subst n.
    rewrite String.eqb_refl in Hf. now destruct (negb ("token" =? "apiKey")%string).
  - intros name v Hk Ht. unfold Tools.restOf. rewrite filter_In. cbn [fst].
    destruct (String.eqb_spec name "apiKey"); [contradiction|].
    destruct (String.eqb_spec name "token"); [contradiction|].
    cbn. tauto.
Qed.

(** An empty [apiKey] argument as the user of [list_boards] sees it. *)
Example empty_api_key_rejected :
  Tools.runHandler (T := string) "listing boards"
    (Tools.extractCredentials (fun _ => "Required")
       (Tools.mkEnv (Some "ENVKEY") (Some "ENVTOKEN"))
       (Tools.ArgsObject [("apiKey", Tools.VString ""); ("filter", Tools.VString "open")]))
    (fun validated =>
       makeRequest Url.plain (new_TrelloClient (fst validated)) "/members/me/boards"
         Scenario.getBoards)
    (fun _ response => inr (data response))
    (initial (Scenario.always (Resolved (Scenario.okList ∅)))) =
    (Tools.mkToolResult
       "Error listing boards: Validation error: apiKey: API key is required" true,
     initial (Scenario.always (Resolved (Scenario.okList ∅)))).
Proof. vm_compute. reflexivity. Qed.

Lemma extractCredentials_precedence_witness :
  Tools.extractCredentials (T := string) (fun _ => "Required")
    (Tools.mkEnv (Some "ENVKEY") None)
    (Tools.ArgsObject
       [("apiKey", Tools.VString "KEY"); ("boardId", Tools.VString "b1");
        ("token", Tools.VString "TOKEN")]) =
    inr (mkCredentials "KEY" "TOKEN", [("boardId", Tools.VString "b1")]).
Proof.
  apply (proj1 (extractCredentials_precedence (T := string) (fun _ => "Required")
                  (Tools.mkEnv (Some "ENVKEY") None)
                  [("apiKey", Tools.VString "KEY"); ("boardId", Tools.VString "b1");
                   ("token", Tools.VString "TOKEN")]) "KEY" "TOKEN");
    [reflexivity | discriminate | reflexivity | discriminate].
Defined.
